(** * EMI calculator: the calculation service

    A shallow embedding of [src/app/services/calculationService.ts]
    (class [EMICalculationService]), of the derived values and the validation
    of the hook [src/app/hooks/useEMICalculator.ts], of the predicates of
    [src/app/utils/formatters.ts], of [src/app/services/loanService.ts]
    (class [LoanService]), and of the part of their numeric environment that
    they rely on:

    - a JavaScript [number] is an IEEE-754 binary64 value.  A finite one is
      kept as the rational it denotes; the sign of zero is not tracked
      ([-0] and [0] are one value, as they are for [===]), so that the sign
      of an infinity that comes from a division by a zero of either sign is
      not determined here;
    - a decimal.js [Decimal] is [NaN], an infinity or a finite decimal
      fraction, again kept as the rational it denotes.  The service
      configures the library with [precision: 28] and [ROUND_HALF_UP];
      [plus], [minus], [mul] and [div] return the exact result rounded to 28
      significant digits, half away from zero;
    - [new Decimal(v)] for a number [v] reads the digits of [String(v)], the
      shortest decimal that converts back to [v];
    - [d.toNumber()] is the binary64 value nearest to [d], ties to even;
    - [x.pow(y)] is the rounded power for a finite base and an integer
      exponent; what the library computes otherwise is a parameter,
      [pow_other], of the functions that reach it;
    - [parseFloat] reads ASCII text, and [trim] removes ASCII white space;
    - a value that [JSON.parse] returns is a [value]; [JSON.parse] itself,
      [Date.now()], what [localStorage.getItem] does and [toLowerCase] are
      parameters of the functions of the loan service that call them.

    First comes the numeric environment, then the types of
    [src/app/types/emi.ts], the functions of the service, the hook, the
    formatters and the loan service, then the properties: those of the
    specification, and after them further properties of the code. *)

From Stdlib Require Import ZArith QArith Qround Qpower Qabs Qreduction.
From Stdlib Require Import Lia Lqa Bool List String Ascii.
Import ListNotations.

Local Open Scope Z_scope.

(** ** Integer and rational logarithms *)

Fixpoint Zlog_aux (fuel : nat) (b n : Z) : Z :=
  match fuel with
  | O => 0
  | S f => if n <? b then 0 else 1 + Zlog_aux f b (n / b)
  end.

(** A first guess at the logarithm, from the binary one; for base 10 the
    factor 1233 / 4096 approximates the logarithm of 2. *)
Definition Zlog_guess (b n : Z) : Z :=
  if b =? 10 then Z.log2 n * 1233 / 4096 else Z.log2 n / Z.log2 b.

(** [Zlog b n] is the largest [k] with [b ^ k <= n], for [n >= 1], [b >= 2]:
    the guess or its successor when one of them is it, and the count of the
    divisions by [b] otherwise. *)
Definition Zlog (b n : Z) : Z :=
  let e := Zlog_guess b n in
  if (b ^ e <=? n) && (n <? b ^ (e + 1)) then e
  else if (b ^ (e + 1) <=? n) && (n <? b ^ (e + 2)) then e + 1
  else Zlog_aux (S (Z.to_nat (Z.log2 n))) b n.

Definition Qpow (b : Z) (k : Z) : Q := Qpower (inject_Z b) k.

(** [Qlog b q] is the integer [k] with [b ^ k <= q < b ^ (k + 1)], for
    [q > 0]. *)
Definition Qlog (b : Z) (q : Q) : Z :=
  let k := Zlog b (Qnum q) - Zlog b (Zpos (Qden q)) in
  if Qle_bool (Qpow b k) q then k else k - 1.

(** ** Rounding a rational to an integer *)

Definition half_up (q : Q) : Z := Qfloor (q + (1 # 2)).

Definition half_even (q : Q) : Z :=
  let f := Qfloor q in
  match Qcompare (q - inject_Z f) (1 # 2) with
  | Lt => f
  | Gt => f + 1
  | Eq => if Z.even f then f else f + 1
  end.

(** [round_at rnd b k q] rounds [q] to a multiple of [b ^ k]. *)
Definition round_at (rnd : Q -> Z) (b k : Z) (q : Q) : Q :=
  (inject_Z (rnd (q / Qpow b k)) * Qpow b k)%Q.

(** Rounding to a format: [fexp] gives the exponent of the last place from
    the magnitude of [q]. *)
Definition round_to (rnd : Q -> Z) (b : Z) (fexp : Z -> Z) (q : Q) : Q :=
  round_at rnd b (fexp (Qlog b q)) q.

Definition Qneg (q : Q) : bool := negb (Qle_bool 0 q).

Definition with_sign (neg : bool) (q : Q) : Q := if neg then Qopp q else q.

(** ** JavaScript numbers *)

Inductive number : Type :=
| NaN
| Inf (neg : bool)
| Fin (q : Q).

(** Nearest binary64 value of a positive rational: 53 significant bits, or
    a multiple of [2 ^ -1074] below the normal range. *)
Definition fexp64 (l : Z) : Z := Z.max (l - 52) (-1074).

Definition round64 (q : Q) : Q := round_to half_even 2 fexp64 q.

(** The Number value for a rational: round to nearest, ties to even; what
    reaches [2 ^ 1024] after rounding is an infinity. *)
Definition to_double (q : Q) : number :=
  if Qeq_bool q 0 then Fin 0
  else
    let r := round64 (Qabs q) in
    if Qle_bool (Qpow 2 1024) r then Inf (Qneg q)
    else Fin (Qred (with_sign (Qneg q) r)).

(** A numeric literal of the source text. *)
Definition lit (q : Q) : number := to_double q.

Definition MAX_SAFE_INTEGER : number := Fin (inject_Z 9007199254740991).

(** [x > y], [x < y], [x <= y] and [x === y] on numbers; any comparison with
    [NaN] is false. *)
Definition number_lt (x y : number) : bool :=
  match x, y with
  | NaN, _ | _, NaN => false
  | Inf s1, Inf s2 => s1 && negb s2
  | Inf s, Fin _ => s
  | Fin _, Inf s => negb s
  | Fin a, Fin b => negb (Qle_bool b a)
  end.

Definition number_gt (x y : number) : bool := number_lt y x.

Definition number_eq (x y : number) : bool :=
  match x, y with
  | Inf s1, Inf s2 => Bool.eqb s1 s2
  | Fin a, Fin b => Qeq_bool a b
  | _, _ => false
  end.

Definition number_le (x y : number) : bool := number_lt x y || number_eq x y.

(** Truthiness of a number: [NaN] and zero are falsy. *)
Definition truthy (x : number) : bool :=
  match x with
  | NaN => false
  | Inf _ => true
  | Fin q => negb (Qeq_bool q 0)
  end.

(** Two rationals with the same numerator and denominator. *)
Definition Q_same (a b : Q) : bool :=
  Z.eqb (Qnum a) (Qnum b) && Pos.eqb (Qden a) (Qden b).

(** A number is a binary64 value when rounding it changes nothing. *)
Definition is_double (x : number) : bool :=
  match x with
  | NaN | Inf _ => true
  | Fin q =>
      match to_double q with
      | Fin r => Q_same r q
      | _ => false
      end
  end.

(** ** decimal.js *)

Inductive Decimal : Type :=
| DNaN
| DInf (neg : bool)
| DFin (q : Q).

Definition precision : Z := 28.
Definition maxE : Z := 9000000000000000.
Definition minE : Z := -9000000000000000.

(** A positive rational rounded to [precision] significant digits. *)
Definition fexp28 (l : Z) : Z := l - (precision - 1).

Definition round28 (q : Q) : Q := round_to half_up 10 fexp28 q.

(** The library's [finalise]: round to [precision] digits, half away from
    zero; a result whose exponent leaves [minE .. maxE] becomes an infinity
    or zero. *)
Definition finalise (q : Q) : Decimal :=
  if Qeq_bool q 0 then DFin 0
  else
    let r := round28 (Qabs q) in
    let e := Qlog 10 r in
    if maxE <? e then DInf (Qneg q)
    else if e <? minE then DFin 0
    else DFin (Qred (with_sign (Qneg q) r)).

(** *** [new Decimal(v)] for a number [v] *)

(** The decimals with [k] digits next to [q] that convert back to [q]; of
    two, the nearer one, and the even one in a tie. *)
Definition shortest_at (k : Z) (q : Q) : option Q :=
  let t := Qlog 10 q - (k - 1) in
  let s := Qfloor (q / Qpow 10 t) in
  let lo := (inject_Z s * Qpow 10 t)%Q in
  let hi := (inject_Z (s + 1) * Qpow 10 t)%Q in
  let ok d := Qeq_bool (round64 d) q in
  match ok lo, ok hi with
  | false, false => None
  | true, false => Some lo
  | false, true => Some hi
  | true, true =>
      match Qcompare (q - lo) (hi - q) with
      | Lt => Some lo
      | Gt => Some hi
      | Eq => if Z.even s then Some lo else Some hi
      end
  end.

(** Fewest digits first.  Seventeen digits identify every binary64 value;
    the last clause keeps the function total without relying on that. *)
Fixpoint shortest_from (fuel : nat) (k : Z) (q : Q) : Q :=
  match fuel with
  | O => q
  | S f =>
      match shortest_at k q with
      | Some d => d
      | None => shortest_from f (k + 1) q
      end
  end.

Definition shortest (q : Q) : Q := shortest_from 17 1 q.

Definition of_number (v : number) : Decimal :=
  match v with
  | NaN => DNaN
  | Inf s => DInf s
  | Fin q =>
      if Qeq_bool q 0 then DFin 0
      else DFin (Qred (with_sign (Qneg q) (shortest (Qabs q))))
  end.

(** *** [toNumber] *)

Definition toNumber (d : Decimal) : number :=
  match d with
  | DNaN => NaN
  | DInf s => Inf s
  | DFin q => to_double q
  end.

(** *** Arithmetic and comparison *)

Definition Decimal_plus (x y : Decimal) : Decimal :=
  match x, y with
  | DNaN, _ | _, DNaN => DNaN
  | DInf s1, DInf s2 => if Bool.eqb s1 s2 then DInf s1 else DNaN
  | DInf s, DFin _ | DFin _, DInf s => DInf s
  | DFin a, DFin b => finalise (a + b)
  end.

Definition Decimal_minus (x y : Decimal) : Decimal :=
  match x, y with
  | DNaN, _ | _, DNaN => DNaN
  | DInf s1, DInf s2 => if Bool.eqb s1 s2 then DNaN else DInf s1
  | DInf s, DFin _ => DInf s
  | DFin _, DInf s => DInf (negb s)
  | DFin a, DFin b => finalise (a - b)
  end.

Definition Decimal_mul (x y : Decimal) : Decimal :=
  match x, y with
  | DNaN, _ | _, DNaN => DNaN
  | DInf s1, DInf s2 => DInf (xorb s1 s2)
  | DInf s, DFin q | DFin q, DInf s =>
      if Qeq_bool q 0 then DNaN else DInf (xorb s (Qneg q))
  | DFin a, DFin b => finalise (a * b)
  end.

(** [x.div(y)].  The zero of a [Decimal] has no sign here, while the library
    keeps one: for a finite [x] that is not zero, [x.div(0)] is the infinity
    with the sign of [x], and [x.div(-0)] the other one.  The infinity below
    is the one for the divisor [0], which is the zero that [minus] returns
    for equal operands; where the divisor can be [-0], a zero that comes from
    a number or from a product, the properties leave the sign of the
    infinity open. *)
Definition Decimal_div (x y : Decimal) : Decimal :=
  match x, y with
  | DNaN, _ | _, DNaN => DNaN
  | DInf _, DInf _ => DNaN
  | DInf s, DFin q => DInf (xorb s (Qneg q))
  | DFin _, DInf _ => DFin 0
  | DFin a, DFin b =>
      if Qeq_bool b 0 then (if Qeq_bool a 0 then DNaN else DInf (Qneg a))
      else finalise (a / b)
  end.

Definition Decimal_lt (x y : Decimal) : bool :=
  match x, y with
  | DNaN, _ | _, DNaN => false
  | DInf s1, DInf s2 => s1 && negb s2
  | DInf s, DFin _ => s
  | DFin _, DInf s => negb s
  | DFin a, DFin b => negb (Qle_bool b a)
  end.

Definition Decimal_gt (x y : Decimal) : bool := Decimal_lt y x.

Definition Decimal_isZero (x : Decimal) : bool :=
  match x with
  | DFin q => Qeq_bool q 0
  | _ => false
  end.

(** [Decimal.min(x, y)]: [NaN] if either is; equal values have one
    representation here, so which of two equal arguments is returned does
    not show. *)
Definition Decimal_min (x y : Decimal) : Decimal :=
  match x, y with
  | DNaN, _ | _, DNaN => DNaN
  | _, _ => if Decimal_gt x y then y else x
  end.

(** The integer a number denotes, if it denotes one. *)
Definition integer_of (y : number) : option Z :=
  match y with
  | Fin q => if Pos.eqb (Qden (Qred q)) 1 then Some (Qnum (Qred q)) else None
  | _ => None
  end.

Section Pow.

(** [x.pow(y)] with a finite base and an integer exponent of magnitude up to
    [Number.MAX_SAFE_INTEGER] is computed by repeated squaring with guard
    digits; it is modelled by the result the library documents, the power
    rounded to [precision] digits.  The other cases ([NaN] or infinite
    operands, which the library hands to [Math.pow], and fractional or larger
    exponents, which it computes as [exp(y * ln(x))]) are left to
    [pow_other], about which nothing is assumed. *)
Variable pow_other : Decimal -> number -> Decimal.

Definition Decimal_pow (x : Decimal) (y : number) : Decimal :=
  match x, integer_of y with
  | DFin q, Some n =>
      if Z.abs n <=? 9007199254740991 then
        if (n <? 0) && Qeq_bool q 0 then DInf false
        else finalise (Qpower q n)
      else pow_other x y
  | _, _ => pow_other x y
  end.

End Pow.

(** ** [parseFloat] *)

Definition is_digit (c : ascii) : bool :=
  (48 <=? Z.of_nat (nat_of_ascii c)) && (Z.of_nat (nat_of_ascii c) <=? 57).

Definition digit_value (c : ascii) : Z := Z.of_nat (nat_of_ascii c) - 48.

(** The white space of the ASCII range: TAB, LF, VT, FF, CR and SP. *)
Definition is_space (c : ascii) : bool :=
  let n := Z.of_nat (nat_of_ascii c) in
  ((9 <=? n) && (n <=? 13)) || (n =? 32).

Fixpoint trim_start (s : string) : string :=
  match s with
  | String c r => if is_space c then trim_start r else s
  | EmptyString => s
  end.

(** Reads a run of digits after the digits [acc] already read; returns the
    value, how many digits were read, and the rest. *)
Fixpoint read_digits (s : string) (acc count : Z) : Z * Z * string :=
  match s with
  | String c r =>
      if is_digit c then read_digits r (10 * acc + digit_value c) (count + 1)
      else (acc, count, s)
  | EmptyString => (acc, count, s)
  end.

Definition read_sign (s : string) : bool * string :=
  match s with
  | String "-"%char r => (true, r)
  | String "+"%char r => (false, r)
  | _ => (false, s)
  end.

(** The exponent part [e], [e+] or [e-] followed by digits, if there is one;
    otherwise 0. *)
Definition read_exponent (s : string) : Z :=
  match s with
  | String c r =>
      if (Ascii.eqb c "e" || Ascii.eqb c "E")%bool then
        let '(neg, r1) := read_sign r in
        let '(v, n, _) := read_digits r1 0 0 in
        if n =? 0 then 0 else if neg then - v else v
      else 0
  | EmptyString => 0
  end.

(** [parseFloat]: skip leading white space, read the longest prefix that is
    a decimal literal, convert it to the nearest number; [NaN] when there is
    no such prefix. *)
Definition parseFloat (s : string) : number :=
  let '(neg, r) := read_sign (trim_start s) in
  if String.prefix "Infinity" r then Inf neg
  else
    let '(i, ni, r1) := read_digits r 0 0 in
    let '(m, nf, r2) :=
      match r1 with
      | String "."%char r' => read_digits r' i 0
      | _ => (i, 0, r1)
      end in
    if ni + nf =? 0 then NaN
    else
      to_double (with_sign neg (inject_Z m * Qpow 10 (read_exponent r2 - nf))).

(** [a || b] on numbers. *)
Definition or_else (a b : number) : number := if truthy a then a else b.

(** ** The types of [src/app/types/emi.ts] *)

Module FormDataStrings.
Record t : Type := Build {
  salary : string;
  rent : string;
  other : string;
  projectIncome : string;
  existingLoans : string;
  totalProjectCost : string;
  equityPercentage : string;
  rate : string;
  repaymentPeriod : string;
  gracePeriod : string
}.
End FormDataStrings.

Module FormData.
Record t : Type := Build {
  salary : number;
  rent : number;
  other : number;
  projectIncome : number;
  existingLoans : number;
  totalProjectCost : number;
  equityPercentage : number;
  rate : number;
  repaymentPeriod : number;
  gracePeriod : number
}.
End FormData.

Module Calculations.
Record t : Type := Build {
  totalIncome : number;
  totalExpenditure : number;
  totalProjectIncome : number;
  totalProjectExpenditure : number;
  netIncome : number;
  monthlyRepayment : number;
  afterGraceRepayment : number;
  gracePeriodRepayment : number;
  dscr : number;
  incomeTax : number;
  maintenanceCost : number;
  bankFinanceAmount : number
}.
End Calculations.

Module TaxBracket.
Record t : Type := Build {
  min : number;
  max : number;
  rate : number
}.
End TaxBracket.

Inductive Scenario : Type :=
| normal
| income_reduce.

Module Adjusted.
Record t : Type := Build {
  adjustedSalary : number;
  adjustedRent : number;
  adjustedOther : number;
  adjustedProjectIncome : number
}.
End Adjusted.

(** ** [EMICalculationService] *)

Definition taxBrackets : list TaxBracket.t :=
  [ TaxBracket.Build (lit 0) (lit 720000) (lit 0);
    TaxBracket.Build (lit 720000) (lit 1200000) (lit (55 # 10));
    TaxBracket.Build (lit 1200000) (lit 1800000) (lit 8);
    TaxBracket.Build (lit 1800000) (lit 2400000) (lit 12);
    TaxBracket.Build (lit 2400000) (Inf false) (lit 15) ].

Definition getNumericValue (value : string) : number :=
  let parsed := or_else (parseFloat value) (lit 0) in
  toNumber (of_number parsed).

Definition convertToNumericFormData (formData : FormDataStrings.t) : FormData.t :=
  {| FormData.salary := getNumericValue (FormDataStrings.salary formData);
     FormData.rent := getNumericValue (FormDataStrings.rent formData);
     FormData.other := getNumericValue (FormDataStrings.other formData);
     FormData.projectIncome := getNumericValue (FormDataStrings.projectIncome formData);
     FormData.existingLoans := getNumericValue (FormDataStrings.existingLoans formData);
     FormData.totalProjectCost := getNumericValue (FormDataStrings.totalProjectCost formData);
     FormData.equityPercentage := getNumericValue (FormDataStrings.equityPercentage formData);
     FormData.rate := getNumericValue (FormDataStrings.rate formData);
     FormData.repaymentPeriod := getNumericValue (FormDataStrings.repaymentPeriod formData);
     FormData.gracePeriod := getNumericValue (FormDataStrings.gracePeriod formData) |}.

(** One turn of the loop of [calculateIncomeTax]. *)
Definition taxStep (income tax : Decimal) (bracket : TaxBracket.t) : Decimal :=
  let bracketMin := of_number (TaxBracket.min bracket) in
  let bracketMax :=
    if number_eq (TaxBracket.max bracket) (Inf false)
    then of_number MAX_SAFE_INTEGER
    else of_number (TaxBracket.max bracket) in
  if Decimal_gt income bracketMin then
    let taxableInBracket :=
      Decimal_min (Decimal_minus income bracketMin)
                  (Decimal_minus bracketMax bracketMin) in
    let bracketTax :=
      Decimal_div (Decimal_mul taxableInBracket (of_number (TaxBracket.rate bracket)))
                  (of_number (lit 100)) in
    Decimal_plus tax bracketTax
  else tax.

Definition calculateIncomeTax (annualIncome : number) : number :=
  let income := of_number annualIncome in
  let tax := fold_left (taxStep income) taxBrackets (of_number (lit 0)) in
  toNumber (Decimal_div tax (of_number (lit 12))).

Definition calculateGracePeriodPayment (principal rate : number) : number :=
  let p := of_number principal in
  let r := of_number rate in
  let monthlyInterest :=
    Decimal_div (Decimal_div (Decimal_mul p r) (of_number (lit 100)))
                (of_number (lit 12)) in
  toNumber monthlyInterest.

Definition applyScenarioMultipliers (formData : FormData.t) (scenario : Scenario)
  : Adjusted.t :=
  let multiplier :=
    of_number (match scenario with income_reduce => lit (8 # 10) | normal => lit 1 end) in
  {| Adjusted.adjustedSalary :=
       toNumber (Decimal_mul (of_number (FormData.salary formData)) multiplier);
     Adjusted.adjustedRent :=
       toNumber (Decimal_mul (of_number (FormData.rent formData)) multiplier);
     Adjusted.adjustedOther :=
       toNumber (Decimal_mul (of_number (FormData.other formData)) multiplier);
     Adjusted.adjustedProjectIncome :=
       toNumber (Decimal_mul (of_number (FormData.projectIncome formData)) multiplier) |}.

Definition calculateBankFinanceAmount (totalProjectCost equityPercentage : number)
  : number :=
  let cost := of_number totalProjectCost in
  let equity := of_number equityPercentage in
  let equityRatio := Decimal_div equity (of_number (lit 100)) in
  let bankFinanceRatio := Decimal_minus (of_number (lit 1)) equityRatio in
  toNumber (Decimal_mul cost bankFinanceRatio).

Definition calculateEquityAmount (totalProjectCost equityPercentage : number)
  : number :=
  let cost := of_number totalProjectCost in
  let equity := of_number equityPercentage in
  toNumber (Decimal_div (Decimal_mul cost equity) (of_number (lit 100))).

Section Service.

Variable pow_other : Decimal -> number -> Decimal.

Definition calculateEMI (principal rate tenure : number) : number :=
  let p := of_number principal in
  let r := of_number rate in
  let n := of_number tenure in
  let monthlyRate := Decimal_div (Decimal_div r (of_number (lit 100))) (of_number (lit 12)) in
  if Decimal_isZero monthlyRate then toNumber (Decimal_div p n)
  else
    let onePlusR := Decimal_plus monthlyRate (of_number (lit 1)) in
    let onePlusRPowerN := Decimal_pow pow_other onePlusR (toNumber n) in
    let numerator := Decimal_mul (Decimal_mul p monthlyRate) onePlusRPowerN in
    let denominator := Decimal_minus onePlusRPowerN (of_number (lit 1)) in
    let emi := Decimal_div numerator denominator in
    toNumber emi.

Definition performCalculations
  (formData : FormDataStrings.t) (scenario : Scenario) (isAfterGrace : bool)
  : Calculations.t :=
  let numericData := convertToNumericFormData formData in
  let adjusted := applyScenarioMultipliers numericData scenario in
  let adjustedSalary := Adjusted.adjustedSalary adjusted in
  let adjustedRent := Adjusted.adjustedRent adjusted in
  let adjustedOther := Adjusted.adjustedOther adjusted in
  let adjustedProjectIncome := Adjusted.adjustedProjectIncome adjusted in
  let totalIncome :=
    toNumber (Decimal_plus (Decimal_plus (of_number adjustedSalary)
                                         (of_number adjustedRent))
                           (of_number adjustedOther)) in
  let expenditureRate :=
    of_number (if number_gt totalIncome (lit 25000)
               then lit (35 # 100) else lit (40 # 100)) in
  let totalExpenditure :=
    toNumber (Decimal_mul (of_number totalIncome) expenditureRate) in
  let totalProjectIncome := if isAfterGrace then adjustedProjectIncome else lit 0 in
  let bankFinanceAmount :=
    calculateBankFinanceAmount (FormData.totalProjectCost numericData)
                               (FormData.equityPercentage numericData) in
  let afterGraceRepayment :=
    calculateEMI bankFinanceAmount (FormData.rate numericData)
                 (FormData.repaymentPeriod numericData) in
  let gracePeriodRepayment :=
    calculateGracePeriodPayment bankFinanceAmount (FormData.rate numericData) in
  let currentMonthlyRepayment :=
    if isAfterGrace then afterGraceRepayment else gracePeriodRepayment in
  let maintenanceCost :=
    if number_gt adjustedRent (lit 0) || number_gt adjustedProjectIncome (lit 0)
    then toNumber
           (Decimal_mul
              (Decimal_plus (of_number adjustedRent)
                 (of_number (if isAfterGrace then adjustedProjectIncome else lit 0)))
              (of_number (lit (5 # 100))))
    else lit 0 in
  let annualTotalIncome :=
    toNumber (Decimal_mul (Decimal_plus (of_number totalIncome)
                                        (of_number totalProjectIncome))
                          (of_number (lit 12))) in
  let monthlyIncomeTax := calculateIncomeTax annualTotalIncome in
  let totalProjectExpenditure :=
    Decimal_plus (of_number maintenanceCost) (of_number monthlyIncomeTax) in
  let totalProjectExpenditure :=
    match scenario with
    | income_reduce =>
        Decimal_plus totalProjectExpenditure
          (Decimal_mul (of_number totalIncome) (of_number (lit (20 # 100))))
    | normal => totalProjectExpenditure
    end in
  let finalProjectExpenditure := toNumber totalProjectExpenditure in
  let netIncome :=
    toNumber
      (Decimal_minus
         (Decimal_plus (Decimal_minus (of_number totalIncome)
                                      (of_number totalExpenditure))
                       (of_number totalProjectIncome))
         (of_number finalProjectExpenditure)) in
  let totalRepaymentObligation :=
    Decimal_plus (of_number (FormData.existingLoans numericData))
                 (of_number afterGraceRepayment) in
  let dscr :=
    if Decimal_isZero totalRepaymentObligation then lit 0
    else toNumber (Decimal_div (of_number netIncome) totalRepaymentObligation) in
  {| Calculations.totalIncome := totalIncome;
     Calculations.totalExpenditure := totalExpenditure;
     Calculations.totalProjectIncome := totalProjectIncome;
     Calculations.totalProjectExpenditure := finalProjectExpenditure;
     Calculations.netIncome := netIncome;
     Calculations.monthlyRepayment := currentMonthlyRepayment;
     Calculations.afterGraceRepayment := afterGraceRepayment;
     Calculations.gracePeriodRepayment := gracePeriodRepayment;
     Calculations.dscr := dscr;
     Calculations.incomeTax := monthlyIncomeTax;
     Calculations.maintenanceCost := maintenanceCost;
     Calculations.bankFinanceAmount := bankFinanceAmount |}.

End Service.

(** ** The hook [useEMICalculator]: its state and the derived values *)

Module HookState.
Record t : Type := Build {
  formData : FormDataStrings.t;
  isAfterGrace : bool;
  scenario : Scenario
}.
End HookState.

Module Derived.
Record t : Type := Build {
  totalProjectCost : number;
  equityPercentage : number;
  bankFinanceAmount : number;
  equityAmount : number
}.
End Derived.

(** The memoised derived values of the hook. *)
Definition derivedValues (st : HookState.t) : Derived.t :=
  let formData := HookState.formData st in
  let projectCost := getNumericValue (FormDataStrings.totalProjectCost formData) in
  let equity := getNumericValue (FormDataStrings.equityPercentage formData) in
  let bankFinance := calculateBankFinanceAmount projectCost equity in
  let equityAmt := calculateEquityAmount projectCost equity in
  {| Derived.totalProjectCost := projectCost;
     Derived.equityPercentage := equity;
     Derived.bankFinanceAmount := bankFinance;
     Derived.equityAmount := equityAmt |}.

Local Open Scope string_scope.

(** ** The validation of the hook [useEMICalculator] *)

(** [!s] for a string: only the empty string is falsy. *)
Definition string_falsy (s : string) : bool :=
  match s with
  | EmptyString => true
  | String _ _ => false
  end.

(** The object [errors]: its keys in insertion order, each with its message;
    an assignment to a key it has replaces the message. *)
Fixpoint set_error (key message : string) (errors : list (string * string))
  : list (string * string) :=
  match errors with
  | [] => [(key, message)]
  | (k, m) :: rest =>
      if String.eqb k key then (k, message) :: rest
      else (k, m) :: set_error key message rest
  end.

Module Validation.
Record t : Type := Build {
  isFormValid : bool;
  validationErrors : list (string * string)
}.
End Validation.

Definition validation (formData : FormDataStrings.t) : Validation.t :=
  let errors := [] in
  let errors :=
    if string_falsy (FormDataStrings.salary formData)
       || number_le (getNumericValue (FormDataStrings.salary formData)) (lit 0)
    then set_error "salary" "Salary is required and must be greater than 0" errors
    else errors in
  let errors :=
    if string_falsy (FormDataStrings.totalProjectCost formData)
       || number_le (getNumericValue (FormDataStrings.totalProjectCost formData)) (lit 0)
    then set_error "totalProjectCost"
           "Total project cost is required and must be greater than 0" errors
    else errors in
  let errors :=
    if string_falsy (FormDataStrings.rate formData)
       || number_le (getNumericValue (FormDataStrings.rate formData)) (lit 0)
    then set_error "rate" "Interest rate is required and must be greater than 0" errors
    else errors in
  let errors :=
    if string_falsy (FormDataStrings.repaymentPeriod formData)
       || number_le (getNumericValue (FormDataStrings.repaymentPeriod formData)) (lit 0)
    then set_error "repaymentPeriod"
           "Repayment period is required and must be greater than 0" errors
    else errors in
  let equity := getNumericValue (FormDataStrings.equityPercentage formData) in
  let errors :=
    if number_lt equity (lit 0) || number_gt equity (lit 100)
    then set_error "equityPercentage" "Equity percentage must be between 0 and 100" errors
    else errors in
  let rate := getNumericValue (FormDataStrings.rate formData) in
  let errors :=
    if number_gt rate (lit 50)
    then set_error "rate" "Interest rate seems unusually high" errors
    else errors in
  let tenure := getNumericValue (FormDataStrings.repaymentPeriod formData) in
  let errors :=
    if number_gt tenure (lit 600)
    then set_error "repaymentPeriod" "Repayment period cannot exceed 600 months" errors
    else errors in
  let gracePeriod := getNumericValue (FormDataStrings.gracePeriod formData) in
  let errors :=
    if number_gt gracePeriod tenure
    then set_error "gracePeriod" "Grace period cannot be longer than repayment period" errors
    else errors in
  {| Validation.isFormValid := Nat.eqb (List.length errors) 0;
     Validation.validationErrors := errors |}.

(** The form the hook starts from. *)
Definition DEFAULT_FORM_DATA : FormDataStrings.t :=
  {| FormDataStrings.salary := "80000";
     FormDataStrings.rent := "";
     FormDataStrings.other := "";
     FormDataStrings.projectIncome := "";
     FormDataStrings.existingLoans := "";
     FormDataStrings.totalProjectCost := "1800000";
     FormDataStrings.equityPercentage := "10";
     FormDataStrings.rate := "9.0";
     FormDataStrings.repaymentPeriod := "240";
     FormDataStrings.gracePeriod := "" |}.

(** ** [src/app/utils/formatters.ts] *)

Definition isNaN (x : number) : bool :=
  match x with
  | NaN => true
  | _ => false
  end.

(** [x >= y]. *)
Definition number_ge (x y : number) : bool := number_le y x.

Definition parseNumericValue (value : string) (fallback : number) : number :=
  let parsed := parseFloat value in
  if isNaN parsed then fallback else parsed.

Definition isValidPercentage (value : number) : bool :=
  number_ge value (lit 0) && number_le value (lit 100).

Definition isPositiveNumber (value : number) : bool := number_gt value (lit 0).

Module DSCRStatus.
Record t : Type := Build {
  status : string;
  color : string
}.
End DSCRStatus.

Definition getDSCRStatus (dscr : number) : DSCRStatus.t :=
  if number_ge dscr (lit (125 # 100)) then
    {| DSCRStatus.status := "Excellent"; DSCRStatus.color := "text-green-600" |}
  else if number_ge dscr (lit 1) then
    {| DSCRStatus.status := "Good"; DSCRStatus.color := "text-yellow-600" |}
  else
    {| DSCRStatus.status := "Needs Improvement"; DSCRStatus.color := "text-red-600" |}.


(** ** [LoanService] *)

Module LoanType.
Record t : Type := Build {
  id : string;
  name : string;
  interestRate : number;
  tenure : number
}.
End LoanType.

(** The values [JSON.parse] returns, and [undefined], which reading a
    property an object does not have gives. *)
#[warnings="-register-all"]
Inductive value : Type :=
| VUndefined
| VNull
| VBoolean (b : bool)
| VNumber (n : number)
| VString (s : string)
| VArray (items : list value)
| VObject (fields : list (string * value)).

Definition typeof (v : value) : string :=
  match v with
  | VUndefined => "undefined"
  | VBoolean _ => "boolean"
  | VNumber _ => "number"
  | VString _ => "string"
  | VNull | VArray _ | VObject _ => "object"
  end.

Fixpoint lookup (key : string) (fields : list (string * value)) : value :=
  match fields with
  | [] => VUndefined
  | (k, v) :: rest => if String.eqb k key then v else lookup key rest
  end.

(** [v.key] for the keys [id], [name], [interestRate] and [tenure], which
    only a plain object can have; [None] is the [TypeError] of reading a
    property of [null] or [undefined]. *)
Definition get (v : value) (key : string) : option value :=
  match v with
  | VUndefined | VNull => None
  | VObject fields => Some (lookup key fields)
  | VBoolean _ | VNumber _ | VString _ | VArray _ => Some VUndefined
  end.

(** The same where the code has excluded [null] and [undefined] before. *)
Definition field (v : value) (key : string) : value :=
  match get v key with
  | Some x => x
  | None => VUndefined
  end.

Definition value_truthy (v : value) : bool :=
  match v with
  | VUndefined | VNull => false
  | VBoolean b => b
  | VNumber n => truthy n
  | VString s => negb (string_falsy s)
  | VArray _ | VObject _ => true
  end.

(** [s === v] for a string [s]. *)
Definition string_strict_eq (s : string) (v : value) : bool :=
  match v with
  | VString t => String.eqb s t
  | _ => false
  end.

(** The string and the number a value is, where [typeof] has been checked. *)
Definition as_string (v : value) : string :=
  match v with
  | VString s => s
  | _ => ""
  end.

Definition as_number (v : value) : number :=
  match v with
  | VNumber n => n
  | _ => NaN
  end.

(** [s.trim()], on ASCII text. *)
Fixpoint trim_end (s : string) : string :=
  match s with
  | EmptyString => EmptyString
  | String c r =>
      match trim_end r with
      | EmptyString => if is_space c then EmptyString else String c EmptyString
      | r' => String c r'
      end
  end.

Definition trim (s : string) : string := trim_end (trim_start s).

Definition loan_value (loan : LoanType.t) : value :=
  VObject [ ("id", VString (LoanType.id loan));
            ("name", VString (LoanType.name loan));
            ("interestRate", VNumber (LoanType.interestRate loan));
            ("tenure", VNumber (LoanType.tenure loan)) ].

Definition DEFAULT_LOAN_TYPES : list LoanType.t :=
  [ LoanType.Build "home-loan" "Home Loan" (lit (85 # 10)) (lit 240);
    LoanType.Build "car-loan" "Car Loan" (lit (95 # 10)) (lit 60);
    LoanType.Build "personal-loan" "Personal Loan" (lit 12) (lit 36);
    LoanType.Build "business-loan" "Business Loan" (lit 11) (lit 84);
    LoanType.Build "education-loan" "Education Loan" (lit (75 # 10)) (lit 120) ].

Definition getDefaultLoanTypes : list value := map loan_value DEFAULT_LOAN_TYPES.

Definition isValidLoanType (loanType : value) : bool :=
  String.eqb (typeof loanType) "object" &&
  negb (match loanType with VNull => true | _ => false end) &&
  String.eqb (typeof (field loanType "id")) "string" &&
  String.eqb (typeof (field loanType "name")) "string" &&
  String.eqb (typeof (field loanType "interestRate")) "number" &&
  String.eqb (typeof (field loanType "tenure")) "number" &&
  Nat.ltb 0 (String.length (trim (as_string (field loanType "id")))) &&
  Nat.ltb 0 (String.length (trim (as_string (field loanType "name")))) &&
  number_gt (as_number (field loanType "interestRate")) (lit 0) &&
  number_le (as_number (field loanType "interestRate")) (lit 100) &&
  number_gt (as_number (field loanType "tenure")) (lit 0) &&
  number_le (as_number (field loanType "tenure")) (lit 1200).

Definition isValidLoanTypesArray (loanTypes : value) : bool :=
  match loanTypes with
  | VArray items => Nat.ltb 0 (List.length items) && forallb isValidLoanType items
  | _ => false
  end.

(** [timestamp] is the text of what [Date.now()] returns in this call; [None]
    is the [TypeError] of [loan.id] for [loan = null]. *)
Definition migrateLoanType (timestamp : string) (loan : value) : option value :=
  let fallback :=
    VObject [ ("id", VString ("unknown-" ++ timestamp));
              ("name", VString "Unknown Loan");
              ("interestRate", VNumber (lit 10));
              ("tenure", VNumber (lit 60)) ] in
  if isValidLoanType loan then Some loan
  else if String.eqb (typeof loan) "object" then
    match get loan "id" with
    | None => None
    | Some id =>
        if value_truthy id then
          match get loan "name" with
          | None => None
          | Some name =>
              if value_truthy name then
                let defaultLoan :=
                  find (fun d => string_strict_eq (LoanType.id d) id) DEFAULT_LOAN_TYPES in
                Some (VObject
                  [ ("id", id);
                    ("name", name);
                    ("interestRate",
                     VNumber (match defaultLoan with
                              | Some d => or_else (LoanType.interestRate d) (lit 10)
                              | None => lit 10
                              end));
                    ("tenure",
                     VNumber (match defaultLoan with
                              | Some d => or_else (LoanType.tenure d) (lit 60)
                              | None => lit 60
                              end)) ])
              else Some fallback
          end
        else Some fallback
    end
  else Some fallback.

Section LoanService.

(** [now i] is the text of [Date.now()] while the entry of index [i] is
    migrated; [JSON.parse] gives a value or throws. *)
Variable now : nat -> string.
Variable JSON_parse : string -> option value.

(** [parsed.map(loan => this.migrateLoanType(loan))], from the entry of index
    [index] on: the migrated array, unless a call throws. *)
Fixpoint migrateAll (index : nat) (parsed : list value) : option (list value) :=
  match parsed with
  | [] => Some []
  | loan :: rest =>
      match migrateLoanType (now index) loan with
      | None => None
      | Some m =>
          match migrateAll (S index) rest with
          | None => None
          | Some ms => Some (m :: ms)
          end
      end
  end.

(** What [localStorage.getItem] does: throw, return [null], or return the
    stored text. *)
Inductive getItem_result : Type :=
| GetThrows
| GetNull
| GetItem (text : string).

(** [hasWindow] is [typeof window !== 'undefined']; whatever is thrown inside
    the [try] block leads to the defaults. *)
Definition loadLoanTypes (hasWindow : bool) (savedLoanTypes : getItem_result)
  : list value :=
  if negb hasWindow then getDefaultLoanTypes
  else
    match savedLoanTypes with
    | GetItem text =>
        if negb (string_falsy text) then
          match JSON_parse text with
          | Some (VArray parsed) =>
              if Nat.ltb 0 (List.length parsed) then
                match migrateAll 0 parsed with
                | Some migratedTypes =>
                    if isValidLoanTypesArray (VArray migratedTypes) then migratedTypes
                    else getDefaultLoanTypes
                | None => getDefaultLoanTypes
                end
              else getDefaultLoanTypes
          | _ => getDefaultLoanTypes
          end
        else getDefaultLoanTypes
    | GetThrows | GetNull => getDefaultLoanTypes
    end.

(** [s.toLowerCase()]. *)
Variable toLowerCase : string -> string.

(** [excludeId] is [None] when the argument is left out. *)
Definition isNameUnique (name : string) (existingLoans : list LoanType.t)
  (excludeId : option string) : bool :=
  negb (existsb
          (fun loan =>
             negb (match excludeId with
                   | Some i => String.eqb (LoanType.id loan) i
                   | None => false
                   end) &&
             String.eqb (toLowerCase (LoanType.name loan)) (toLowerCase (trim name)))
          existingLoans).

End LoanService.

(** A stored array that is not the default one: a single loan type, and the
    JSON text that holds it. *)
Definition stored_loans : list value :=
  [ loan_value (LoanType.Build "boat-loan" "Boat Loan" (lit (65 # 10)) (lit 48)) ].

Definition stored_loans_text : string :=
  let q := String (ascii_of_nat 34) EmptyString in
  "[{" ++ q ++ "id" ++ q ++ ":" ++ q ++ "boat-loan" ++ q ++ "," ++
  q ++ "name" ++ q ++ ":" ++ q ++ "Boat Loan" ++ q ++ "," ++
  q ++ "interestRate" ++ q ++ ":6.5," ++ q ++ "tenure" ++ q ++ ":48}]".

(** A [JSON.parse] that reads this text and throws on every other one. *)
Definition parse_stored_loans (text : string) : option value :=
  if String.eqb text stored_loans_text then Some (VArray stored_loans) else None.

(** ** Forms used as examples *)

(** A form without a loan: no project cost and no existing loans. *)
Definition no_loan_input : FormDataStrings.t :=
  {| FormDataStrings.salary := "80000";
     FormDataStrings.rent := "";
     FormDataStrings.other := "";
     FormDataStrings.projectIncome := "";
     FormDataStrings.existingLoans := "";
     FormDataStrings.totalProjectCost := "0";
     FormDataStrings.equityPercentage := "10";
     FormDataStrings.rate := "9.0";
     FormDataStrings.repaymentPeriod := "240";
     FormDataStrings.gracePeriod := "" |}.



Local Close Scope string_scope.

(** ** [EMICalculationService.roundToDecimalPlaces] *)

(** [x.toDecimalPlaces(dp)]: [x] rounded to [dp] decimal places, half away
    from zero, the rounding mode the service sets. *)
Definition toDecimalPlaces (x : Decimal) (dp : Z) : Decimal :=
  match x with
  | DFin q => DFin (Qred (with_sign (Qneg q) (round_at half_up 10 (- dp) (Qabs q))))
  | _ => x
  end.

(** [None] is the error the library throws unless [places] is an integer
    from 0 to 1000000000. *)
Definition roundToDecimalPlaces (value places : number) : option number :=
  let x := of_number value in
  match integer_of places with
  | Some dp =>
      if (0 <=? dp) && (dp <=? 1000000000) then Some (toNumber (toDecimalPlaces x dp))
      else None
  | None => None
  end.

(** ** Notions used to state the properties *)

(** [P / n] under the decimal policy: the quotient of the decimal readings,
    rounded to [precision] digits, as a number. *)
Definition decimal_quotient (P n : number) : number :=
  toNumber (Decimal_div (of_number P) (of_number n)).

(** A finite number within [tol] of the rational [c]. *)
Definition within (tol : Q) (x : number) (c : Q) : bool :=
  match x with
  | Fin q => Qle_bool (Qabs (q - c)) tol
  | _ => false
  end.

(** The loan input of the concrete scenario, as the form holds it. *)
Definition concrete_input : FormDataStrings.t :=
  {| FormDataStrings.salary := "80000";
     FormDataStrings.rent := "0";
     FormDataStrings.other := "0";
     FormDataStrings.projectIncome := "0";
     FormDataStrings.existingLoans := "0";
     FormDataStrings.totalProjectCost := "1800000";
     FormDataStrings.equityPercentage := "10";
     FormDataStrings.rate := "9.0";
     FormDataStrings.repaymentPeriod := "240";
     FormDataStrings.gracePeriod := "0" |}.

(** An instance of [pow_other] for evaluating the service where the choice
    does not matter. *)
Definition pow_other_nan : Decimal -> number -> Decimal := fun _ _ => DNaN.

(** ** The tax calculator as the specification words it

    Section 4.2: for each bracket in ascending order, if the income exceeds
    the lower bound, the taxable amount is the smaller of income minus lower
    bound and upper bound minus lower bound; the tax is the sum of taxable
    amount times rate over 100, divided by 12.  The arithmetic is that of the
    decimal policy; the last bracket has no upper bound. *)
Module Spec.
Record TaxBracket : Type := Build {
  lowerBound : Decimal;
  upperBound : Decimal;
  rate : Decimal
}.

Definition table : list TaxBracket :=
  [ Build (DFin 0) (DFin 720000) (DFin 0);
    Build (DFin 720000) (DFin 1200000) (DFin (11 # 2));
    Build (DFin 1200000) (DFin 1800000) (DFin 8);
    Build (DFin 1800000) (DFin 2400000) (DFin 12);
    Build (DFin 2400000) (DInf false) (DFin 15) ].

Definition taxStep (income tax : Decimal) (b : TaxBracket) : Decimal :=
  if Decimal_gt income (lowerBound b) then
    let taxable :=
      Decimal_min (Decimal_minus income (lowerBound b))
                  (Decimal_minus (upperBound b) (lowerBound b)) in
    Decimal_plus tax (Decimal_div (Decimal_mul taxable (rate b)) (DFin 100))
  else tax.

Definition incomeTax (annualIncome : number) : number :=
  let income := of_number annualIncome in
  toNumber (Decimal_div (fold_left (taxStep income) table (DFin 0)) (DFin 12)).
End Spec.

(** ** Notions used in the proofs *)

(** Rounding to a nearest integer. *)
Class Nearest (rnd : Q -> Z) : Prop := {
  rnd_comp : forall p q, (p == q)%Q -> rnd p = rnd q;
  rnd_mono : forall p q, (p <= q)%Q -> rnd p <= rnd q;
  rnd_Z : forall z, rnd (inject_Z z) = z;
  rnd_err : forall q, (Qabs (inject_Z (rnd q) - q) <= 1 # 2)%Q
}.

(** ** Non-negative decimals and their order *)

Definition Dnn (x : Decimal) : Prop :=
  match x with
  | DFin q => (0 <= q)%Q
  | DInf s => s = false
  | DNaN => False
  end.

Definition Dle (x y : Decimal) : Prop :=
  match x, y with
  | DFin a, DFin b => (a <= b)%Q
  | DFin _, DInf false => True
  | DInf false, DInf false => True
  | _, _ => False
  end.

(** A decimal that [finalise] leaves alone. *)
Definition Dstable (x : Decimal) : Prop :=
  match x with
  | DFin q => finalise q = DFin q
  | _ => True
  end.

(** One turn of the loop for a bracket starting at [m], of width [w], taxed
    at [r] percent. *)
Definition bracketStep (m w r : Q) (income tax : Decimal) : Decimal :=
  if Decimal_gt income (DFin m) then
    Decimal_plus tax
      (Decimal_div
         (Decimal_mul (Decimal_min (Decimal_minus income (DFin m)) (DFin w)) (DFin r))
         (DFin 100))
  else tax.

(** Half a unit in the 28th digit, relative. *)
Definition u28 : Q := 5 # 10000000000000000000000000000.

(** Half a unit in the 53rd bit, relative. *)
Definition u53 : Q := 1 # 9007199254740992.

(** The largest finite number, [Number.MAX_VALUE]. *)
Definition MAX_VALUE : Q := inject_Z (9007199254740991 * 2 ^ 971).

(** The decimal reading of [Number.MAX_VALUE], 1.7976931348623157e308. *)
Definition MAX_VALUE_decimal : Q := inject_Z (17976931348623157 * 10 ^ 292).

Definition equity_tolerance (c : Q) : Q :=
  (c * (1 # 2251799813685248) + Qpow 2 (-1073))%Q.


(** The deviation of bank finance amount plus equity amount from the cost,
    for finite numbers, is at most [tol]. *)
Definition complement_within (tol : Q) (cost equity : number) : bool :=
  match cost,
        calculateBankFinanceAmount cost equity,
        calculateEquityAmount cost equity with
  | Fin c, Fin b, Fin q => Qle_bool (Qabs (b + q - c)) tol
  | _, _, _ => false
  end.

(** The tolerance the binary64 results allow: two units in the 53rd bit of
    the cost, and four halves of the smallest number. *)
Definition binary64_tolerance (cost : number) : Q :=
  match cost with
  | Fin c => equity_tolerance c
  | _ => 0
  end.

(** The tolerance of the 28-digit policy: one unit in the 28th digit of the
    cost. *)
Definition decimal_tolerance (cost : number) : Q :=
  match cost with
  | Fin c => (Qabs c * Qpow 10 (-27))%Q
  | _ => 0
  end.

(** * Properties *)

(** ** Logarithms *)

Lemma Zlog_aux_spec (fuel : nat) (b : Z) : 2 <= b ->
  forall n, 1 <= n -> Z.log2 n < Z.of_nat fuel ->
  0 <= Zlog_aux fuel b n /\ b ^ Zlog_aux fuel b n <= n < b ^ (Zlog_aux fuel b n + 1).
Proof.
  intros Hb. induction fuel as [|f IH]; intros n Hn Hlog.
  - pose proof (Z.log2_nonneg n). lia.
  - cbn [Zlog_aux]. destruct (Z.ltb_spec n b) as [Hlt|Hge].
    + rewrite Z.pow_0_r, Z.pow_1_r. lia.
    + assert (H1 : 1 <= n / b) by (apply Z.div_le_lower_bound; lia).
      assert (H2 : Z.log2 (n / b) < Z.of_nat f).
      { assert (n / b <= n / 2) by (apply Z.div_le_compat_l; lia).
        assert (Z.log2 (n / 2) = Z.log2 n - 1).
        { rewrite <- Z.div2_div, Z.div2_spec, Z.log2_shiftr by lia.
          pose proof (Z.log2_pos n). lia. }
        pose proof (Z.log2_le_mono _ _ H). lia. }
      destruct (IH _ H1 H2) as (K0 & Klo & Khi).
      set (k := Zlog_aux f b (n / b)) in *.
      split; [lia|].
      replace (1 + k + 1) with (Z.succ (k + 1)) by lia.
      replace (1 + k) with (Z.succ k) by lia.
      rewrite !Z.pow_succ_r by lia.
      pose proof (Z.mul_div_le n b ltac:(lia)).
      pose proof (Z.mul_succ_div_gt n b ltac:(lia)).
      split; nia.
Qed.

Lemma Zlog_guess_nonneg (b n : Z) : 2 <= b -> 0 <= Zlog_guess b n.
Proof.
  intros Hb. unfold Zlog_guess. pose proof (Z.log2_nonneg n).
  destruct (b =? 10).
  - apply Z.div_pos; lia.
  - apply Z.div_pos; [lia|]. apply Z.log2_pos. lia.
Qed.

Lemma Zlog_spec (b n : Z) : 2 <= b -> 1 <= n ->
  0 <= Zlog b n /\ b ^ Zlog b n <= n < b ^ (Zlog b n + 1).
Proof.
  intros Hb Hn. unfold Zlog.
  pose proof (Zlog_guess_nonneg b n Hb) as G. set (e := Zlog_guess b n) in *.
  destruct ((b ^ e <=? n) && (n <? b ^ (e + 1))) eqn:A.
  { apply andb_true_iff in A. destruct A as [A1 A2].
    apply Z.leb_le in A1. apply Z.ltb_lt in A2. lia. }
  destruct ((b ^ (e + 1) <=? n) && (n <? b ^ (e + 2))) eqn:B.
  { apply andb_true_iff in B. destruct B as [B1 B2].
    apply Z.leb_le in B1. apply Z.ltb_lt in B2.
    replace (e + 1 + 1) with (e + 2) by lia. lia. }
  apply Zlog_aux_spec; auto.
  pose proof (Z.log2_nonneg n). lia.
Qed.

Lemma inject_Z_pos (b : Z) : 0 < b -> (0 < inject_Z b)%Q.
Proof. intros H. rewrite (Zlt_Qlt 0 b) in H. exact H. Qed.

Lemma Qpow_pos (b k : Z) : 0 < b -> (0 < Qpow b k)%Q.
Proof. intros H. apply Qpower_0_lt, inject_Z_pos, H. Qed.

Lemma Qpow_add (b j k : Z) : 0 < b -> (Qpow b (j + k) == Qpow b j * Qpow b k)%Q.
Proof.
  intros H. unfold Qpow. apply Qpower_plus.
  intros E. pose proof (inject_Z_pos b H) as P. rewrite E in P. discriminate.
Qed.

Lemma Qpow_Z (b k : Z) : 0 <= k -> (Qpow b k == inject_Z (b ^ k))%Q.
Proof. intros H. unfold Qpow. symmetry. apply Zpower_Qpower, H. Qed.

Lemma Qpow_le (b j k : Z) : 1 <= b -> j <= k -> (Qpow b j <= Qpow b k)%Q.
Proof.
  intros Hb H. apply Qpower_le_compat_l; [exact H|].
  rewrite (Zle_Qle 1 b) in Hb. exact Hb.
Qed.

Lemma Qpow_lt (b j k : Z) : 2 <= b -> j < k -> (Qpow b j < Qpow b k)%Q.
Proof.
  intros Hb H. apply Qpower_lt_compat_l; [exact H|].
  assert (1 < b) as Hb' by lia. rewrite (Zlt_Qlt 1 b) in Hb'. exact Hb'.
Qed.

Lemma Qpow_lt_inv (b j k : Z) : 2 <= b -> (Qpow b j < Qpow b k)%Q -> j < k.
Proof.
  intros Hb H. destruct (Z.lt_ge_cases j k) as [|G]; [assumption|].
  pose proof (Qpow_le b k j ltac:(lia) G). lra.
Qed.

Lemma Qnum_pos (q : Q) : (0 < q)%Q -> 1 <= Qnum q.
Proof. destruct q as [n d]. unfold Qlt. simpl. lia. Qed.

(** Bounds on a positive rational from the logarithms of its numerator and
    denominator. *)
Lemma Qlog_bounds (b : Z) (q : Q) : 2 <= b -> (0 < q)%Q ->
  let k := Zlog b (Qnum q) - Zlog b (Zpos (Qden q)) in
  (Qpow b (k - 1) < q /\ q < Qpow b (k + 1))%Q.
Proof.
  intros Hb Hq k.
  pose proof (Qnum_pos q Hq) as Hn.
  destruct (Zlog_spec b (Qnum q) Hb Hn) as (A0 & Alo & Ahi).
  destruct (Zlog_spec b (Zpos (Qden q)) Hb ltac:(lia)) as (C0 & Clo & Chi).
  set (a := Zlog b (Qnum q)) in *. set (c := Zlog b (Zpos (Qden q))) in *.
  assert (Eq : (q * inject_Z (Zpos (Qden q)) == inject_Z (Qnum q))%Q).
  { destruct q as [n d]. unfold Qeq. simpl. lia. }
  assert (Pc := Qpow_pos b c ltac:(lia)).
  assert (Pc1 := Qpow_pos b (c + 1) ltac:(lia)).
  rewrite Zle_Qle, <- Qpow_Z in Alo, Clo by lia.
  rewrite Zlt_Qlt, <- Qpow_Z in Ahi, Chi by lia.
  split.
  - assert (E : (Qpow b a == Qpow b (k - 1) * Qpow b (c + 1))%Q).
    { rewrite <- Qpow_add by lia. unfold k. replace (a - c - 1 + (c + 1)) with a by lia. reflexivity. }
    assert (Pk := Qpow_pos b (k - 1) ltac:(lia)).
    apply Qmult_lt_r with (z := Qpow b (c + 1)); [assumption|].
    rewrite <- E.
    apply Qle_lt_trans with (y := (q * inject_Z (Zpos (Qden q)))%Q).
    + rewrite Eq. assumption.
    + apply Qmult_lt_l; assumption.
  - assert (E : (Qpow b (a + 1) == Qpow b (k + 1) * Qpow b c)%Q).
    { rewrite <- Qpow_add by lia. unfold k. replace (a - c + 1 + c) with (a + 1) by lia. reflexivity. }
    apply Qmult_lt_r with (z := Qpow b c); [assumption|].
    rewrite <- E.
    apply Qle_lt_trans with (y := (q * inject_Z (Zpos (Qden q)))%Q).
    + apply Qmult_le_l; assumption.
    + rewrite Eq. assumption.
Qed.

Lemma Qlog_spec (b : Z) (q : Q) : 2 <= b -> (0 < q)%Q ->
  (Qpow b (Qlog b q) <= q /\ q < Qpow b (Qlog b q + 1))%Q.
Proof.
  intros Hb Hq. destruct (Qlog_bounds b q Hb Hq) as [Lo Hi].
  unfold Qlog. set (k := Zlog b (Qnum q) - Zlog b (Zpos (Qden q))) in *.
  destruct (Qle_bool (Qpow b k) q) eqn:E.
  - apply Qle_bool_iff in E. split; assumption.
  - assert (~ (Qpow b k <= q)%Q) by (rewrite <- Qle_bool_iff, E; discriminate).
    replace (k - 1 + 1) with k by lia. split; lra.
Qed.

Lemma Qlog_unique (b : Z) (q : Q) (k : Z) : 2 <= b ->
  (Qpow b k <= q)%Q -> (q < Qpow b (k + 1))%Q -> Qlog b q = k.
Proof.
  intros Hb Lo Hi.
  assert (Hq : (0 < q)%Q) by (pose proof (Qpow_pos b k ltac:(lia)); lra).
  destruct (Qlog_spec b q Hb Hq) as [Lo' Hi'].
  assert (Qlog b q < k + 1) by (apply (Qpow_lt_inv b); [assumption|lra]).
  assert (k < Qlog b q + 1) by (apply (Qpow_lt_inv b); [assumption|lra]).
  lia.
Qed.

Lemma Qlog_comp (b : Z) (p q : Q) : 2 <= b -> (0 < p)%Q -> (p == q)%Q ->
  Qlog b p = Qlog b q.
Proof.
  intros Hb Hp E. assert (Hq : (0 < q)%Q) by lra.
  destruct (Qlog_spec b q Hb Hq). apply Qlog_unique; [assumption|lra|lra].
Qed.

Lemma Qlog_mono (b : Z) (p q : Q) : 2 <= b -> (0 < p)%Q -> (p <= q)%Q ->
  Qlog b p <= Qlog b q.
Proof.
  intros Hb Hp Hpq. assert (Hq : (0 < q)%Q) by lra.
  destruct (Qlog_spec b p Hb Hp). destruct (Qlog_spec b q Hb Hq).
  assert (Qlog b p < Qlog b q + 1) by (apply (Qpow_lt_inv b); [assumption|lra]).
  lia.
Qed.

Lemma Qfloor_unique (q : Q) (z : Z) :
  (inject_Z z <= q)%Q -> (q < inject_Z (z + 1))%Q -> Qfloor q = z.
Proof.
  intros Lo Hi.
  pose proof (Qfloor_le q) as F1. pose proof (Qlt_floor q) as F2.
  assert (A : (inject_Z z < inject_Z (Qfloor q + 1))%Q) by lra.
  assert (B : (inject_Z (Qfloor q) < inject_Z (z + 1))%Q) by lra.
  rewrite <- Zlt_Qlt in A, B. lia.
Qed.


#[export] Instance half_up_nearest : Nearest half_up.
Proof.
  split; unfold half_up.
  - intros p q E. rewrite E. reflexivity.
  - intros p q H. apply Qfloor_resp_le. lra.
  - intros z. apply Qfloor_unique.
    + lra.
    + rewrite inject_Z_plus. change (inject_Z 1) with 1%Q. lra.
  - intros q. apply Qabs_Qle_condition.
    pose proof (Qfloor_le (q + (1 # 2))) as F1.
    pose proof (Qlt_floor (q + (1 # 2))) as F2.
    rewrite inject_Z_plus in F2. change (inject_Z 1) with 1%Q in F2.
    split; lra.
Qed.

Lemma half_even_cases (q : Q) :
  (half_even q = Qfloor q /\ (q - inject_Z (Qfloor q) <= 1 # 2)%Q) \/
  (half_even q = Qfloor q + 1 /\ (1 # 2 <= q - inject_Z (Qfloor q))%Q).
Proof.
  unfold half_even.
  destruct (Qcompare_spec (q - inject_Z (Qfloor q)) (1 # 2)) as [E|L|G].
  - destruct (Z.even (Qfloor q)); [left|right]; split; auto; lra.
  - left. split; auto; lra.
  - right. split; auto; lra.
Qed.

#[export] Instance half_even_nearest : Nearest half_even.
Proof.
  split.
  - intros p q E. unfold half_even.
    assert (F : Qfloor p = Qfloor q) by (apply Qfloor_comp, E).
    rewrite F.
    assert (C : ((p - inject_Z (Qfloor q)) ?= (1 # 2))%Q
                = ((q - inject_Z (Qfloor q)) ?= (1 # 2))%Q)
      by (apply Qcompare_comp; [rewrite E|]; reflexivity).
    rewrite C. reflexivity.
  - intros p q H.
    pose proof (Qfloor_resp_le p q H) as F.
    pose proof (Qfloor_le p) as Fp. pose proof (Qlt_floor p) as Fp'.
    destruct (Z.eq_dec (Qfloor p) (Qfloor q)) as [E|N].
    + unfold half_even. rewrite <- E.
      destruct (Qcompare_spec (p - inject_Z (Qfloor p)) (1 # 2)) as [E1|L1|G1];
      destruct (Qcompare_spec (q - inject_Z (Qfloor p)) (1 # 2)) as [E2|L2|G2];
      try destruct (Z.even (Qfloor p)); try lia; lra.
    + destruct (half_even_cases p) as [[-> _]|[-> _]];
      destruct (half_even_cases q) as [[-> _]|[-> _]]; lia.
  - intros z. unfold half_even. rewrite Qfloor_Z.
    destruct (Qcompare_spec (inject_Z z - inject_Z z) (1 # 2)) as [E|L|G]; try lra.
    reflexivity.
  - intros q. apply Qabs_Qle_condition.
    pose proof (Qfloor_le q) as F1. pose proof (Qlt_floor q) as F2.
    rewrite inject_Z_plus in F2. change (inject_Z 1) with 1%Q in F2.
    destruct (half_even_cases q) as [[-> B]|[-> B]].
    + split; lra.
    + rewrite inject_Z_plus. change (inject_Z 1) with 1%Q. split; lra.
Qed.

Section RoundAt.

Context (rnd : Q -> Z) {Hrnd : Nearest rnd} (b : Z) (Hb : 2 <= b).

Lemma round_at_comp (k : Z) (p q : Q) :
  (p == q)%Q -> (round_at rnd b k p == round_at rnd b k q)%Q.
Proof.
  intros E. unfold round_at.
  rewrite (rnd_comp (p / Qpow b k) (q / Qpow b k)%Q); [reflexivity|].
  rewrite E. reflexivity.
Qed.

Lemma round_at_mono (k : Z) (p q : Q) :
  (p <= q)%Q -> (round_at rnd b k p <= round_at rnd b k q)%Q.
Proof.
  intros H. unfold round_at.
  pose proof (Qpow_pos b k ltac:(lia)) as P.
  apply Qmult_le_compat_r; [|lra].
  rewrite <- Zle_Qle. apply rnd_mono.
  unfold Qdiv. apply Qmult_le_compat_r; [assumption|].
  apply Qinv_le_0_compat. lra.
Qed.

(** Multiples of [b ^ k] are not moved. *)
Lemma round_at_fix (k m : Z) (q : Q) :
  (q == inject_Z m * Qpow b k)%Q -> (round_at rnd b k q == q)%Q.
Proof.
  intros E. unfold round_at.
  pose proof (Qpow_pos b k ltac:(lia)) as P.
  rewrite (rnd_comp _ (inject_Z m)), rnd_Z; [symmetry; exact E|].
  rewrite E. field. lra.
Qed.

Lemma round_at_pow (k j : Z) : k <= j ->
  (round_at rnd b k (Qpow b j) == Qpow b j)%Q.
Proof.
  intros H. apply round_at_fix with (m := b ^ (j - k)).
  rewrite <- Qpow_Z, <- Qpow_add by lia.
  replace (j - k + k) with j by lia. reflexivity.
Qed.

Lemma round_at_zero (k : Z) (q : Q) : (q == 0)%Q -> (round_at rnd b k q == 0)%Q.
Proof.
  intros E. rewrite (round_at_fix k 0 q); [assumption|]. rewrite E.
  change (inject_Z 0) with 0%Q. lra.
Qed.

Lemma round_at_nonneg (k : Z) (q : Q) : (0 <= q)%Q -> (0 <= round_at rnd b k q)%Q.
Proof.
  intros H. rewrite <- (round_at_zero k 0) by reflexivity.
  apply round_at_mono, H.
Qed.

Lemma round_at_err (k : Z) (q : Q) :
  (Qabs (round_at rnd b k q - q) <= (1 # 2) * Qpow b k)%Q.
Proof.
  unfold round_at.
  pose proof (Qpow_pos b k ltac:(lia)) as P.
  pose proof (rnd_err (q / Qpow b k)) as E.
  apply Qabs_Qle_condition in E. apply Qabs_Qle_condition.
  set (m := inject_Z (rnd (q / Qpow b k))) in *.
  assert (Eq : (q == q / Qpow b k * Qpow b k)%Q) by (field; lra).
  set (x := (q / Qpow b k)%Q) in *.
  destruct E as [E1 E2].
  split.
  - rewrite Eq at 1.
    assert ((-(1#2)) * Qpow b k <= (m - x) * Qpow b k)%Q
      by (apply Qmult_le_compat_r; lra).
    lra.
  - rewrite Eq at 1.
    assert ((m - x) * Qpow b k <= (1#2) * Qpow b k)%Q
      by (apply Qmult_le_compat_r; lra).
    lra.
Qed.

(** *** Rounding to a format: the exponent depends on the magnitude *)

Variable fexp : Z -> Z.
Hypothesis fexp_mono : forall l1 l2, l1 <= l2 -> fexp l1 <= fexp l2.
Hypothesis fexp_step : forall l1 l2, fexp l1 < fexp l2 -> fexp l2 <= l2.
Hypothesis fexp_next : forall l, fexp l <= l -> fexp (l + 1) <= l + 1.
Hypothesis fexp_under : forall l, l < fexp l -> fexp (fexp l) = fexp l.

Local Abbreviation round_to := (round_to rnd b fexp).

Lemma round_to_comp (p q : Q) : (0 < p)%Q -> (p == q)%Q ->
  (round_to p == round_to q)%Q.
Proof.
  intros Hp E. unfold round_to. rewrite (Qlog_comp b p q) by assumption.
  apply round_at_comp, E.
Qed.

Lemma round_to_mono (p q : Q) : (0 < p)%Q -> (p <= q)%Q ->
  (round_to p <= round_to q)%Q.
Proof.
  intros Hp H. assert (Hq : (0 < q)%Q) by lra. unfold round_to.
  pose proof (Qlog_mono b p q Hb Hp H) as L.
  destruct (Qlog_spec b p Hb Hp) as [_ Phi].
  destruct (Qlog_spec b q Hb Hq) as [Qlo _].
  set (l1 := Qlog b p) in *. set (l2 := Qlog b q) in *.
  pose proof (fexp_mono l1 l2 L) as F.
  destruct (Z.eq_dec (fexp l1) (fexp l2)) as [E|N].
  - rewrite E. apply round_at_mono, H.
  - assert (F' : fexp l1 < fexp l2) by lia.
    assert (l1 < l2).
    { destruct (Z.eq_dec l1 l2) as [E|]; [|lia]. rewrite E in N. lia. }
    pose proof (fexp_step l1 l2 F') as S.
    pose proof (Qpow_le b (l1 + 1) l2 ltac:(lia) ltac:(lia)) as PL.
    apply Qle_trans with (y := Qpow b l2).
    + rewrite <- (round_at_pow (fexp l1) l2) by lia.
      apply round_at_mono. lra.
    + rewrite <- (round_at_pow (fexp l2) l2) at 1 by lia.
      apply round_at_mono. lra.
Qed.

(** A rounded value is in the format: rounding it again changes nothing. *)
Lemma round_to_idem (q : Q) : (0 < q)%Q -> (round_to (round_to q) == round_to q)%Q.
Proof.
  intros Hq.
  destruct (Qlog_spec b q Hb Hq) as [Lo Hi].
  set (l := Qlog b q) in *.
  pose proof (round_at_nonneg (fexp l) q ltac:(lra)) as R0.
  assert (Er : round_to q = round_at rnd b (fexp l) q) by reflexivity.
  destruct (Qle_lt_or_eq _ _ R0) as [Rpos|Rz].
  2:{ unfold round_to at 1. rewrite Er.
      transitivity 0%Q; [|exact Rz].
      apply round_at_zero. symmetry. exact Rz. }
  destruct (Z.le_gt_cases (fexp l) l) as [Le|Gt].
  - (* normal range: the result lies between [b^l] and [b^(l+1)] *)
    assert (B1 : (Qpow b l <= round_to q)%Q).
    { rewrite Er, <- (round_at_pow (fexp l) l) at 1 by lia. apply round_at_mono, Lo. }
    assert (B2 : (round_to q <= Qpow b (l + 1))%Q).
    { rewrite Er, <- (round_at_pow (fexp l) (l + 1)) by lia. apply round_at_mono. lra. }
    destruct (Qle_lt_or_eq _ _ B2) as [Lt|Eq].
    + assert (El : Qlog b (round_to q) = l) by (apply Qlog_unique; assumption).
      unfold round_to at 1. rewrite El.
      apply round_at_fix with (m := rnd (q / Qpow b (fexp l))). reflexivity.
    + assert (El : Qlog b (round_to q) = l + 1).
      { apply Qlog_unique; [assumption|lra|]. rewrite Eq. apply Qpow_lt; lia. }
      unfold round_to at 1. rewrite El.
      rewrite (round_at_comp _ _ _ Eq), Eq. apply round_at_pow, fexp_next, Le.
  - (* below the format: the result is [b ^ fexp l] *)
    assert (Hlt : (q < Qpow b (fexp l))%Q).
    { pose proof (Qpow_le b (l + 1) (fexp l) ltac:(lia) ltac:(lia)). lra. }
    assert (B2 : (round_to q <= Qpow b (fexp l))%Q).
    { rewrite Er, <- (round_at_pow (fexp l) (fexp l)) by lia. apply round_at_mono. lra. }
    assert (B1 : (Qpow b (fexp l) <= round_to q)%Q).
    { rewrite Er in *. unfold round_at in *.
      pose proof (Qpow_pos b (fexp l) ltac:(lia)) as P.
      set (m := rnd (q / Qpow b (fexp l))) in *.
      assert (0 < m).
      { rewrite Zlt_Qlt. change (inject_Z 0) with 0%Q.
        apply Qmult_lt_r with (z := Qpow b (fexp l)); [assumption|]. lra. }
      assert (M : (1 <= inject_Z m)%Q) by (change 1%Q with (inject_Z 1); rewrite <- Zle_Qle; lia).
      apply (Qmult_le_compat_r _ _ (Qpow b (fexp l))) in M; lra. }
    assert (Eq : (round_to q == Qpow b (fexp l))%Q) by lra.
    assert (El : Qlog b (round_to q) = fexp l).
    { apply Qlog_unique; [assumption|lra|]. rewrite Eq. apply Qpow_lt; lia. }
    unfold round_to at 1. rewrite El, (fexp_under l Gt).
    rewrite (round_at_comp _ _ _ Eq), Eq. apply round_at_pow. lia.
Qed.

End RoundAt.

(** ** The two formats *)

Lemma round64_comp (p q : Q) : (0 < p)%Q -> (p == q)%Q -> (round64 p == round64 q)%Q.
Proof. apply round_to_comp; [exact _|lia]. Qed.

Lemma round64_mono (p q : Q) : (0 < p)%Q -> (p <= q)%Q -> (round64 p <= round64 q)%Q.
Proof. apply round_to_mono; try exact _; unfold fexp64; intros; lia. Qed.

Lemma round64_idem (q : Q) : (0 < q)%Q -> (round64 (round64 q) == round64 q)%Q.
Proof. apply round_to_idem; try exact _; unfold fexp64; intros; lia. Qed.

Lemma round64_nonneg (q : Q) : (0 <= q)%Q -> (0 <= round64 q)%Q.
Proof. apply round_at_nonneg; [exact _|lia]. Qed.

Lemma round28_comp (p q : Q) : (0 < p)%Q -> (p == q)%Q -> (round28 p == round28 q)%Q.
Proof. apply round_to_comp; [exact _|lia]. Qed.

Lemma round28_mono (p q : Q) : (0 < p)%Q -> (p <= q)%Q -> (round28 p <= round28 q)%Q.
Proof. apply round_to_mono; try exact _; unfold fexp28, precision; intros; lia. Qed.

Lemma round28_idem (q : Q) : (0 < q)%Q -> (round28 (round28 q) == round28 q)%Q.
Proof. apply round_to_idem; try exact _; unfold fexp28, precision; intros; lia. Qed.

(** Rounding to 28 digits never reaches zero. *)
Lemma round28_pos (q : Q) : (0 < q)%Q -> (0 < round28 q)%Q.
Proof.
  intros Hq. destruct (Qlog_spec 10 q ltac:(lia) Hq) as [Lo _].
  pose proof (Qpow_pos 10 (Qlog 10 q) ltac:(lia)) as P.
  apply Qlt_le_trans with (y := Qpow 10 (Qlog 10 q)); [assumption|].
  unfold round28, round_to.
  rewrite <- (round_at_pow half_up 10 ltac:(lia) (fexp28 (Qlog 10 q)) (Qlog 10 q)) at 1
    by (unfold fexp28, precision; lia).
  apply round_at_mono; [exact _|lia|assumption].
Qed.

(** ** Signs *)

Lemma Qneg_true (q : Q) : Qneg q = true <-> (q < 0)%Q.
Proof.
  unfold Qneg. rewrite negb_true_iff.
  destruct (Qle_bool 0 q) eqn:E.
  - apply Qle_bool_iff in E. split; [discriminate|lra].
  - split; [intros _|reflexivity].
    destruct (Qlt_le_dec q 0) as [|G]; [assumption|].
    apply Qle_bool_iff in G. congruence.
Qed.

Lemma Qneg_false (q : Q) : Qneg q = false <-> (0 <= q)%Q.
Proof.
  unfold Qneg. rewrite negb_false_iff. apply Qle_bool_iff.
Qed.

Lemma Qneg_comp (p q : Q) : (p == q)%Q -> Qneg p = Qneg q.
Proof. intros E. unfold Qneg. rewrite E. reflexivity. Qed.

Lemma with_sign_abs (q : Q) : (with_sign (Qneg q) (Qabs q) == q)%Q.
Proof.
  unfold with_sign. destruct (Qneg q) eqn:E.
  - apply Qneg_true in E. rewrite Qabs_neg by lra. lra.
  - apply Qneg_false in E. rewrite Qabs_pos by lra. lra.
Qed.

Lemma Qabs_with_sign (s : bool) (r : Q) : (0 <= r)%Q -> (Qabs (with_sign s r) == r)%Q.
Proof.
  intros H. destruct s; cbn [with_sign].
  - rewrite Qabs_opp. apply Qabs_pos, H.
  - apply Qabs_pos, H.
Qed.

Lemma Qneg_with_sign (s : bool) (r : Q) : (0 < r)%Q -> Qneg (with_sign s r) = s.
Proof.
  intros H. destruct s; cbn [with_sign].
  - apply Qneg_true. lra.
  - apply Qneg_false. lra.
Qed.

Lemma Qabs_pos_iff (q : Q) : ~ (q == 0)%Q -> (0 < Qabs q)%Q.
Proof.
  intros N. pose proof (Qabs_nonneg q) as A.
  destruct (Qle_lt_or_eq _ _ A) as [|E]; [assumption|].
  exfalso. apply N.
  destruct (Qlt_le_dec q 0).
  - rewrite Qabs_neg in E by lra. lra.
  - rewrite Qabs_pos in E by lra. lra.
Qed.

Lemma Qeq_bool_false (p q : Q) : Qeq_bool p q = false <-> ~ (p == q)%Q.
Proof.
  split.
  - apply Qeq_bool_neq.
  - intros N. destruct (Qeq_bool p q) eqn:E; [|reflexivity].
    apply Qeq_bool_iff in E. contradiction.
Qed.

Lemma Qle_bool_false (p q : Q) : Qle_bool p q = false <-> (q < p)%Q.
Proof.
  destruct (Qle_bool p q) eqn:E.
  - apply Qle_bool_iff in E. split; [discriminate|lra].
  - split; [intros _|reflexivity].
    destruct (Qlt_le_dec q p) as [|G]; [assumption|].
    apply Qle_bool_iff in G. congruence.
Qed.

Lemma Q_same_true (a b : Q) : Q_same a b = true <-> a = b.
Proof.
  unfold Q_same. rewrite andb_true_iff, Z.eqb_eq, Pos.eqb_eq.
  destruct a, b; simpl. split.
  - intros [-> ->]. reflexivity.
  - intros E. injection E. auto.
Qed.

(** ** Conversion to a number *)

Lemma to_double_comp (p q : Q) : (p == q)%Q -> to_double p = to_double q.
Proof.
  intros E. unfold to_double.
  rewrite <- (Qeqb_comp p q E 0%Q 0%Q (Qeq_refl 0)).
  destruct (Qeq_bool p 0) eqn:Z; [reflexivity|].
  apply Qeq_bool_false in Z.
  assert (R : (round64 (Qabs p) == round64 (Qabs q))%Q).
  { apply round64_comp; [apply Qabs_pos_iff, Z|]. rewrite E. reflexivity. }
  rewrite <- (Qleb_comp _ _ (Qeq_refl (Qpow 2 1024)) _ _ R).
  rewrite <- (Qneg_comp p q E).
  destruct (Qle_bool (Qpow 2 1024) (round64 (Qabs p))); [reflexivity|].
  f_equal. apply Qred_complete. destruct (Qneg p); cbn [with_sign]; rewrite R; reflexivity.
Qed.

Lemma to_double_zero : to_double 0 = Fin 0.
Proof. reflexivity. Qed.

(** The number a conversion returns is a binary64 value. *)
Lemma to_double_idem (q r : Q) : to_double q = Fin r -> to_double r = Fin r.
Proof.
  unfold to_double at 1.
  destruct (Qeq_bool q 0) eqn:Z.
  { intros [= <-]. reflexivity. }
  apply Qeq_bool_false in Z. pose proof (Qabs_pos_iff q Z) as Ap.
  set (R := round64 (Qabs q)).
  destruct (Qle_bool (Qpow 2 1024) R) eqn:O; [discriminate|].
  intros [= <-].
  pose proof (round64_nonneg (Qabs q) ltac:(lra)) as R0. fold R in R0.
  destruct (Qle_lt_or_eq _ _ R0) as [Rpos|Rz].
  - set (s := Qneg q).
    assert (Es : (Qred (with_sign s R) == with_sign s R)%Q) by apply Qred_correct.
    unfold to_double.
    assert (N : ~ (Qred (with_sign s R) == 0)%Q).
    { rewrite Es. destruct s; cbn [with_sign]; lra. }
    apply Qeq_bool_false in N. rewrite N.
    assert (A : (Qabs (Qred (with_sign s R)) == R)%Q).
    { rewrite Es. apply Qabs_with_sign. lra. }
    assert (RR : (round64 (Qabs (Qred (with_sign s R))) == R)%Q).
    { rewrite (round64_comp _ R); [apply round64_idem, Ap| |exact A].
      rewrite A. exact Rpos. }
    rewrite (Qleb_comp _ _ (Qeq_refl (Qpow 2 1024)) _ _ RR), O.
    rewrite (Qneg_comp _ _ Es), (Qneg_with_sign s R Rpos).
    f_equal. apply Qred_complete. destruct s; cbn [with_sign]; rewrite RR; reflexivity.
  - assert (E0 : (with_sign (Qneg q) R == 0)%Q) by (destruct (Qneg q); cbn [with_sign]; lra).
    rewrite (Qred_complete _ _ E0). reflexivity.
Qed.

Lemma to_double_is_double (q : Q) : is_double (to_double q) = true.
Proof.
  destruct (to_double q) as [| |r] eqn:E; try reflexivity.
  simpl. rewrite (to_double_idem q r E). apply Q_same_true. reflexivity.
Qed.

Lemma is_double_Fin (q : Q) : is_double (Fin q) = true <-> to_double q = Fin q.
Proof.
  simpl. destruct (to_double q) as [| |r] eqn:E.
  - split; discriminate.
  - split; discriminate.
  - rewrite Q_same_true. split; [intros ->; reflexivity|intros [= ->]; reflexivity].
Qed.

(** ** [new Decimal(v)] converts back to [v] *)

Lemma shortest_at_spec (k : Z) (a d : Q) :
  shortest_at k a = Some d -> (round64 d == a)%Q.
Proof.
  unfold shortest_at.
  set (t := Qlog 10 a - (k - 1)). set (s := Qfloor (a / Qpow 10 t)).
  set (lo := (inject_Z s * Qpow 10 t)%Q). set (hi := (inject_Z (s + 1) * Qpow 10 t)%Q).
  destruct (Qeq_bool (round64 lo) a) eqn:E1; destruct (Qeq_bool (round64 hi) a) eqn:E2;
    try discriminate.
  - apply Qeq_bool_iff in E1, E2.
    destruct (Qcompare (a - lo) (hi - a)); [destruct (Z.even s)| |];
      intros [= <-]; assumption.
  - apply Qeq_bool_iff in E1. intros [= <-]; assumption.
  - apply Qeq_bool_iff in E2. intros [= <-]; assumption.
Qed.

Lemma shortest_from_spec (fuel : nat) (k : Z) (a : Q) :
  (round64 a == a)%Q -> (round64 (shortest_from fuel k a) == a)%Q.
Proof.
  intros Ha. revert k. induction fuel as [|f IH]; intros k; cbn [shortest_from].
  - exact Ha.
  - destruct (shortest_at k a) as [d|] eqn:E.
    + apply (shortest_at_spec k), E.
    + apply IH.
Qed.

Lemma shortest_spec (a : Q) : (round64 a == a)%Q -> (round64 (shortest a) == a)%Q.
Proof. apply shortest_from_spec. Qed.

Lemma round64_nonpos (d : Q) : (d <= 0)%Q -> (round64 d <= 0)%Q.
Proof.
  intros H. unfold round64, round_to.
  rewrite <- (round_at_zero half_even 2 ltac:(lia) (fexp64 (Qlog 2 d)) 0) by reflexivity.
  apply round_at_mono; [exact _|lia|exact H].
Qed.

Lemma shortest_pos (a : Q) : (0 < a)%Q -> (round64 a == a)%Q -> (0 < shortest a)%Q.
Proof.
  intros Ha Hr. pose proof (shortest_spec a Hr) as S.
  destruct (Qlt_le_dec 0 (shortest a)) as [|L]; [assumption|].
  pose proof (round64_nonpos _ L). lra.
Qed.

(** What [is_double] says about the magnitude. *)
Lemma is_double_round64 (q : Q) : ~ (q == 0)%Q -> to_double q = Fin q ->
  (round64 (Qabs q) == Qabs q)%Q /\ Qle_bool (Qpow 2 1024) (Qabs q) = false.
Proof.
  intros N. unfold to_double. apply Qeq_bool_false in N. rewrite N.
  apply Qeq_bool_false in N. pose proof (Qabs_pos_iff q N) as Ap.
  pose proof (round64_nonneg (Qabs q) ltac:(lra)) as R0.
  destruct (Qle_bool (Qpow 2 1024) (round64 (Qabs q))) eqn:O; [discriminate|].
  intros [= E].
  assert (A : (Qabs q == round64 (Qabs q))%Q).
  { rewrite <- E at 1. rewrite Qred_correct. apply Qabs_with_sign, R0. }
  split; [symmetry; exact A|].
  rewrite (Qleb_comp _ _ (Qeq_refl (Qpow 2 1024)) _ _ A). exact O.
Qed.

(** Two magnitudes with the same binary64 rounding give the same number. *)
Lemma to_double_signed (s : bool) (S a : Q) :
  (0 < a)%Q -> (0 < S)%Q -> (round64 S == round64 a)%Q ->
  to_double (with_sign s S) = to_double (with_sign s a).
Proof.
  intros Ha HS E. unfold to_double.
  assert (N1 : Qeq_bool (with_sign s S) 0 = false)
    by (apply Qeq_bool_false; destruct s; cbn [with_sign]; lra).
  assert (N2 : Qeq_bool (with_sign s a) 0 = false)
    by (apply Qeq_bool_false; destruct s; cbn [with_sign]; lra).
  rewrite N1, N2, !Qneg_with_sign by assumption.
  assert (R : (round64 (Qabs (with_sign s S)) == round64 (Qabs (with_sign s a)))%Q).
  { rewrite (round64_comp (Qabs (with_sign s S)) S), (round64_comp (Qabs (with_sign s a)) a);
      try (apply Qabs_with_sign; lra); try (rewrite Qabs_with_sign; lra). exact E. }
  rewrite (Qleb_comp _ _ (Qeq_refl (Qpow 2 1024)) _ _ R).
  destruct (Qle_bool (Qpow 2 1024) (round64 (Qabs (with_sign s a)))); [reflexivity|].
  f_equal. apply Qred_complete. destruct s; cbn [with_sign]; rewrite R; reflexivity.
Qed.

Lemma toNumber_of_number (x : number) : is_double x = true -> toNumber (of_number x) = x.
Proof.
  destruct x as [| |q]; try reflexivity.
  intros D. apply is_double_Fin in D. cbn [of_number].
  destruct (Qeq_bool q 0) eqn:Z.
  - cbn [toNumber]. rewrite <- D. apply to_double_comp. symmetry.
    apply Qeq_bool_iff, Z.
  - apply Qeq_bool_false in Z.
    destruct (is_double_round64 q Z D) as [R _].
    pose proof (Qabs_pos_iff q Z) as Ap.
    cbn [toNumber]. rewrite <- D.
    rewrite (to_double_comp _ _ (Qred_correct _)).
    rewrite (to_double_comp q _ (Qeq_sym _ _ (with_sign_abs q))).
    apply to_double_signed; [assumption|apply shortest_pos; assumption|].
    rewrite R. apply shortest_spec, R.
Qed.

(** ** [parseFloat] and [getNumericValue] *)

Lemma parseFloat_is_double (s : string) : is_double (parseFloat s) = true.
Proof.
  unfold parseFloat.
  destruct (read_sign (trim_start s)) as [neg r].
  destruct (String.prefix "Infinity" r); [reflexivity|].
  destruct (read_digits r 0 0) as [[i ni] r1].
  destruct (match r1 with
            | String "."%char r' => read_digits r' i 0
            | _ => (i, 0, r1)
            end) as [[m nf] r2].
  destruct (ni + nf =? 0); [reflexivity|].
  apply to_double_is_double.
Qed.

Lemma truthy_false (x : number) : is_double x = true -> truthy x = false ->
  x = NaN \/ x = Fin 0.
Proof.
  destruct x as [| |q]; cbn [truthy]; try discriminate; auto.
  intros D T. right. apply negb_false_iff in T.
  apply is_double_Fin in D. rewrite <- D. unfold to_double. rewrite T. reflexivity.
Qed.

Lemma getNumericValue_spec (raw : string) :
  getNumericValue raw = match parseFloat raw with NaN => Fin 0 | x => x end.
Proof.
  unfold getNumericValue, or_else.
  pose proof (parseFloat_is_double raw) as D.
  destruct (truthy (parseFloat raw)) eqn:T.
  - rewrite (toNumber_of_number _ D). destruct (parseFloat raw); try reflexivity. discriminate.
  - destruct (truthy_false _ D T) as [-> | ->]; reflexivity.
Qed.

(** [finalise] on a positive rational. *)
Lemma finalise_pos (q : Q) : (0 < q)%Q ->
  finalise q =
    if maxE <? Qlog 10 (round28 q) then DInf false
    else if Qlog 10 (round28 q) <? minE then DFin 0
    else DFin (Qred (round28 q)).
Proof.
  intros Hq. unfold finalise.
  assert (N : Qeq_bool q 0 = false) by (apply Qeq_bool_false; lra).
  assert (S : Qneg q = false) by (apply Qneg_false; lra).
  assert (A : (Qabs q == q)%Q) by (apply Qabs_pos; lra).
  assert (R : (round28 (Qabs q) == round28 q)%Q) by (apply round28_comp; lra).
  assert (P : (0 < round28 (Qabs q))%Q) by (rewrite R; apply round28_pos, Hq).
  rewrite N, S, (Qlog_comp 10 _ _ ltac:(lia) P R).
  cbn [with_sign]. rewrite (Qred_complete _ _ R). reflexivity.
Qed.

Lemma finalise_zero (q : Q) : (q == 0)%Q -> finalise q = DFin 0.
Proof. intros E. unfold finalise. apply Qeq_bool_iff in E. rewrite E. reflexivity. Qed.

Lemma finalise_nonneg (q : Q) : (0 <= q)%Q -> Dnn (finalise q).
Proof.
  intros H. destruct (Qle_lt_or_eq _ _ H) as [P|Z].
  - rewrite finalise_pos by assumption. pose proof (round28_pos q P).
    destruct (maxE <? _); [reflexivity|]. destruct (_ <? minE); cbn [Dnn]; [lra|].
    rewrite Qred_correct. lra.
  - rewrite finalise_zero by (symmetry; exact Z). cbn [Dnn]. lra.
Qed.

Lemma finalise_mono (p q : Q) : (0 <= p)%Q -> (p <= q)%Q -> Dle (finalise p) (finalise q).
Proof.
  intros Hp H. destruct (Qle_lt_or_eq _ _ Hp) as [P|Z].
  - assert (Q0 : (0 < q)%Q) by lra.
    rewrite !finalise_pos by assumption.
    pose proof (round28_pos p P) as Rp. pose proof (round28_pos q Q0) as Rq.
    pose proof (round28_mono p q P H) as M.
    pose proof (Qlog_mono 10 _ _ ltac:(lia) Rp M) as L.
    destruct (Z.ltb_spec maxE (Qlog 10 (round28 p)));
      destruct (Z.ltb_spec maxE (Qlog 10 (round28 q))); try lia; cbn [Dle]; auto.
    + destruct (_ <? minE); exact I.
    + destruct (Z.ltb_spec (Qlog 10 (round28 p)) minE);
        destruct (Z.ltb_spec (Qlog 10 (round28 q)) minE); try lia; cbn [Dle];
        rewrite ?Qred_correct; lra.
  - rewrite (finalise_zero p) by (symmetry; exact Z).
    pose proof (finalise_nonneg q ltac:(lra)) as N.
    destruct (finalise q) as [|[]|r]; cbn in *; auto; discriminate.
Qed.

Lemma finalise_stable (q : Q) : (0 <= q)%Q -> Dstable (finalise q).
Proof.
  intros H. destruct (Qle_lt_or_eq _ _ H) as [P|Z].
  - rewrite finalise_pos by assumption. pose proof (round28_pos q P) as R.
    destruct (Z.ltb_spec maxE (Qlog 10 (round28 q))) as [|A]; [exact I|].
    destruct (Z.ltb_spec (Qlog 10 (round28 q)) minE) as [|B]; [reflexivity|].
    cbn [Dstable].
    assert (E : (Qred (round28 q) == round28 q)%Q) by apply Qred_correct.
    assert (I : (round28 (Qred (round28 q)) == round28 q)%Q).
    { rewrite (round28_comp _ (round28 q)); [apply round28_idem, P|lra|exact E]. }
    rewrite finalise_pos by lra.
    assert (R' : (0 < round28 (Qred (round28 q)))%Q) by (rewrite I; exact R).
    rewrite (Qlog_comp 10 _ _ ltac:(lia) R' I).
    destruct (Z.ltb_spec maxE (Qlog 10 (round28 q))); [lia|].
    destruct (Z.ltb_spec (Qlog 10 (round28 q)) minE); [lia|].
    f_equal. apply Qred_complete, I.
  - rewrite finalise_zero by (symmetry; exact Z). reflexivity.
Qed.

Lemma Dle_refl (x : Decimal) : Dnn x -> Dle x x.
Proof. destruct x as [|[]|q]; cbn; intros; try lra; auto; discriminate. Qed.

Lemma Dle_nn (x y : Decimal) : Dnn x -> Dle x y -> Dnn y.
Proof.
  destruct x as [|[]|a], y as [|[]|b]; cbn; intros; try lra; auto; try contradiction; discriminate.
Qed.

(** ** Monotonicity of the operations on non-negative decimals *)

Lemma Dle_top (x : Decimal) : Dnn x -> Dle x (DInf false).
Proof. destruct x as [|[]|a]; cbn; intros; auto; discriminate. Qed.

Lemma Decimal_plus_mono (x x' y y' : Decimal) :
  Dnn x -> Dnn y -> Dle x x' -> Dle y y' ->
  Dle (Decimal_plus x y) (Decimal_plus x' y').
Proof.
  destruct x as [|[]|a], x' as [|[]|a'], y as [|[]|b], y' as [|[]|b'];
    cbn [Dnn Dle Decimal_plus Bool.eqb]; intros; try contradiction; try discriminate; auto;
    first [ apply finalise_mono; lra | apply Dle_top, finalise_nonneg; lra ].
Qed.

Lemma Decimal_plus_nn (x y : Decimal) : Dnn x -> Dnn y -> Dnn (Decimal_plus x y).
Proof.
  destruct x as [|[]|a], y as [|[]|b]; cbn [Dnn Decimal_plus Bool.eqb]; intros;
    try contradiction; try discriminate; auto.
  apply finalise_nonneg. lra.
Qed.

Lemma Decimal_plus_stable (x y : Decimal) : Dnn x -> Dnn y -> Dstable (Decimal_plus x y).
Proof.
  destruct x as [|[]|a], y as [|[]|b]; cbn [Dnn Decimal_plus Bool.eqb]; intros;
    try contradiction; try discriminate; try exact I.
  apply finalise_stable. lra.
Qed.

(** Adding a non-negative decimal to a stable one does not decrease it. *)
Lemma Decimal_plus_increasing (x x' y : Decimal) :
  Dnn x -> Dstable x -> Dle x x' -> Dnn y -> Dle x (Decimal_plus x' y).
Proof.
  destruct x as [|[]|a], x' as [|[]|a'], y as [|[]|b];
    cbn [Dnn Dle Dstable Decimal_plus Bool.eqb]; intros N S L N';
    try contradiction; try discriminate; auto.
  change (Dle (DFin a) (finalise (a' + b))).
  rewrite <- S. apply finalise_mono; lra.
Qed.

Lemma Decimal_mul_mono (x x' : Decimal) (r : Q) :
  (0 <= r)%Q -> Dnn x -> Dle x x' -> x' <> DInf false ->
  Dle (Decimal_mul x (DFin r)) (Decimal_mul x' (DFin r)).
Proof.
  destruct x as [|[]|a], x' as [|[]|a']; cbn [Dnn Dle Decimal_mul]; intros Hr N L F;
    try contradiction; try discriminate; try congruence.
  apply finalise_mono.
  - apply Qmult_le_0_compat; assumption.
  - apply Qmult_le_compat_r; assumption.
Qed.

Lemma Decimal_div_mono (x x' : Decimal) (r : Q) :
  (0 < r)%Q -> Dnn x -> Dle x x' ->
  Dle (Decimal_div x (DFin r)) (Decimal_div x' (DFin r)).
Proof.
  intros Hr.
  assert (Z : Qeq_bool r 0 = false) by (apply Qeq_bool_false; lra).
  assert (S : Qneg r = false) by (apply Qneg_false; lra).
  assert (I : (0 < / r)%Q) by (apply Qinv_lt_0_compat, Hr).
  destruct x as [|[]|a], x' as [|[]|a']; cbn [Dnn Dle Decimal_div]; rewrite ?Z, ?S;
    cbn [xorb]; intros N L; try contradiction; try discriminate; auto;
    first [ apply finalise_mono;
            [apply Qmult_le_0_compat; lra | apply Qmult_le_compat_r; lra]
          | apply Dle_top, finalise_nonneg, Qmult_le_0_compat; lra ].
Qed.

Lemma Decimal_lt_Fin (a b : Q) : Decimal_lt (DFin a) (DFin b) = true <-> (a < b)%Q.
Proof.
  cbn [Decimal_lt]. rewrite negb_true_iff. apply Qle_bool_false.
Qed.

Lemma Decimal_lt_Fin_false (a b : Q) : Decimal_lt (DFin a) (DFin b) = false <-> (b <= a)%Q.
Proof.
  cbn [Decimal_lt]. rewrite negb_false_iff. apply Qle_bool_iff.
Qed.

(** The smaller of a non-negative decimal and a finite bound [w]. *)
Lemma Decimal_min_bound (x : Decimal) (w : Q) : Dnn x -> (0 <= w)%Q ->
  exists y, Decimal_min x (DFin w) = DFin y /\ (0 <= y <= w)%Q /\ Dle (DFin y) x.
Proof.
  destruct x as [|[]|a]; cbn [Dnn]; intros N Hw; try contradiction; try discriminate.
  - exists w. cbn. repeat split; lra.
  - unfold Decimal_min, Decimal_gt.
    destruct (Decimal_lt (DFin w) (DFin a)) eqn:E.
    + apply Decimal_lt_Fin in E. exists w. cbn. repeat split; lra.
    + apply Decimal_lt_Fin_false in E. exists a. cbn. repeat split; lra.
Qed.

Lemma Decimal_min_mono (x x' : Decimal) (w : Q) :
  Dnn x -> (0 <= w)%Q -> Dle x x' ->
  Dle (Decimal_min x (DFin w)) (Decimal_min x' (DFin w)).
Proof.
  intros N Hw L.
  destruct (Decimal_min_bound x w N Hw) as (y & -> & By & Ly).
  destruct (Decimal_min_bound x' w (Dle_nn _ _ N L) Hw) as (y' & E' & By' & Ly').
  rewrite E'. cbn [Dle].
  destruct x as [|[]|a], x' as [|[]|a']; cbn [Dnn Dle] in *;
    try contradiction; try discriminate.
  - unfold Decimal_min, Decimal_gt in E'. cbn in E'. injection E' as <-. lra.
  - unfold Decimal_min, Decimal_gt in E'. cbn in E'. injection E' as <-. lra.
  - unfold Decimal_min, Decimal_gt in E'.
    destruct (Decimal_lt (DFin w) (DFin a')) eqn:C; injection E' as <-; [lra|].
    lra.
Qed.

(** ** Order on numbers *)

Lemma number_le_Fin (a b : Q) : number_le (Fin a) (Fin b) = true <-> (a <= b)%Q.
Proof.
  unfold number_le. cbn [number_lt number_eq].
  rewrite orb_true_iff, negb_true_iff, Qle_bool_false, Qeq_bool_iff. split.
  - intros [|]; lra.
  - intros H. destruct (Qle_lt_or_eq _ _ H); auto.
Qed.

Lemma number_lt_Fin (a b : Q) : number_lt (Fin a) (Fin b) = true <-> (a < b)%Q.
Proof. cbn [number_lt]. rewrite negb_true_iff. apply Qle_bool_false. Qed.

(** [to_double] on a positive rational. *)
Lemma to_double_pos (q : Q) : (0 < q)%Q ->
  to_double q =
    if Qle_bool (Qpow 2 1024) (round64 q) then Inf false
    else Fin (Qred (round64 q)).
Proof.
  intros Hq. unfold to_double.
  assert (N : Qeq_bool q 0 = false) by (apply Qeq_bool_false; lra).
  assert (S : Qneg q = false) by (apply Qneg_false; lra).
  assert (R : (round64 (Qabs q) == round64 q)%Q)
    by (apply round64_comp; [rewrite Qabs_pos; lra|apply Qabs_pos; lra]).
  rewrite N, S, (Qleb_comp _ _ (Qeq_refl (Qpow 2 1024)) _ _ R).
  cbn [with_sign]. rewrite (Qred_complete _ _ R). reflexivity.
Qed.

Lemma to_double_mono (p q : Q) : (0 <= p)%Q -> (p <= q)%Q ->
  number_le (to_double p) (to_double q) = true.
Proof.
  intros Hp H. destruct (Qle_lt_or_eq _ _ Hp) as [P|Z].
  - assert (Q0 : (0 < q)%Q) by lra.
    rewrite !to_double_pos by assumption.
    pose proof (round64_mono p q P H) as M.
    destruct (Qle_bool (Qpow 2 1024) (round64 p)) eqn:Op;
      destruct (Qle_bool (Qpow 2 1024) (round64 q)) eqn:Oq; try reflexivity.
    + apply Qle_bool_iff in Op. apply Qle_bool_false in Oq. lra.
    + apply number_le_Fin. rewrite !Qred_correct. exact M.
  - rewrite (to_double_comp p 0) by (symmetry; exact Z). rewrite to_double_zero.
    destruct (Qle_lt_or_eq 0 q ltac:(lra)) as [Q0|Zq].
    + rewrite to_double_pos by assumption.
      destruct (Qle_bool (Qpow 2 1024) (round64 q)); [reflexivity|].
      apply number_le_Fin. rewrite Qred_correct. apply round64_nonneg. lra.
    + rewrite (to_double_comp q 0) by (symmetry; exact Zq). reflexivity.
Qed.

Lemma toNumber_mono (x y : Decimal) : Dnn x -> Dle x y ->
  number_le (toNumber x) (toNumber y) = true.
Proof.
  destruct x as [|[]|a], y as [|[]|b]; cbn [Dnn Dle toNumber]; intros N L;
    try contradiction; try discriminate; try reflexivity.
  - destruct (Qle_lt_or_eq _ _ N) as [P|Z].
    + rewrite to_double_pos by assumption. destruct (Qle_bool _ _); reflexivity.
    + rewrite (to_double_comp a 0) by (symmetry; exact Z). reflexivity.
  - apply to_double_mono; assumption.
Qed.

(** ** [new Decimal(v)] on non-negative numbers *)

Lemma is_double_eq (p q : Q) :
  is_double (Fin p) = true -> is_double (Fin q) = true -> (p == q)%Q -> p = q.
Proof.
  intros Dp Dq E. apply is_double_Fin in Dp, Dq.
  rewrite (to_double_comp p q E), Dq in Dp. injection Dp. auto.
Qed.

Lemma of_number_zero (q : Q) : (q == 0)%Q -> of_number (Fin q) = DFin 0.
Proof. intros E. cbn [of_number]. apply Qeq_bool_iff in E. rewrite E. reflexivity. Qed.

Lemma of_number_pos (q : Q) : is_double (Fin q) = true -> (0 < q)%Q ->
  exists d, of_number (Fin q) = DFin d /\ (0 < d)%Q /\ (round64 d == q)%Q.
Proof.
  intros D Hq. apply is_double_Fin in D.
  assert (N : ~ (q == 0)%Q) by lra.
  destruct (is_double_round64 q N D) as [R _].
  assert (A : (Qabs q == q)%Q) by (apply Qabs_pos; lra).
  assert (S : Qneg q = false) by (apply Qneg_false; lra).
  pose proof (shortest_pos (Qabs q) ltac:(lra) R) as SP.
  pose proof (shortest_spec (Qabs q) R) as SS.
  exists (Qred (shortest (Qabs q))).
  cbn [of_number]. apply Qeq_bool_false in N. rewrite N, S. cbn [with_sign].
  split; [reflexivity|]. split.
  - rewrite Qred_correct. exact SP.
  - rewrite (round64_comp _ (shortest (Qabs q))); [lra| |apply Qred_correct].
    rewrite Qred_correct. exact SP.
Qed.

Lemma of_number_mono (p q : Q) :
  is_double (Fin p) = true -> is_double (Fin q) = true ->
  (0 <= p)%Q -> (p <= q)%Q -> Dle (of_number (Fin p)) (of_number (Fin q)).
Proof.
  intros Dp Dq Hp H.
  destruct (Qle_lt_or_eq _ _ Hp) as [P|Z].
  - destruct (Qle_lt_or_eq _ _ H) as [Lt|E].
    + destruct (of_number_pos p Dp P) as (dp & -> & Pp & Rp).
      destruct (of_number_pos q Dq ltac:(lra)) as (dq & -> & Pq & Rq).
      cbn [Dle]. destruct (Qlt_le_dec dq dp) as [L|]; [|assumption].
      pose proof (round64_mono dq dp Pq ltac:(lra)). lra.
    + rewrite (is_double_eq p q Dp Dq E).
      destruct (of_number_pos q Dq ltac:(lra)) as (dq & -> & Pq & Rq). cbn. lra.
  - rewrite (of_number_zero p) by (symmetry; exact Z).
    destruct (Qle_lt_or_eq 0 q ltac:(lra)) as [Q0|Zq].
    + destruct (of_number_pos q Dq Q0) as (dq & -> & Pq & Rq). cbn. lra.
    + rewrite (of_number_zero q) by (symmetry; exact Zq). cbn. lra.
Qed.

Lemma of_number_nn (q : Q) : is_double (Fin q) = true -> (0 <= q)%Q -> Dnn (of_number (Fin q)).
Proof.
  intros D H. destruct (Qle_lt_or_eq _ _ H) as [P|Z].
  - destruct (of_number_pos q D P) as (d & -> & Pd & _). cbn. lra.
  - rewrite (of_number_zero q) by (symmetry; exact Z). cbn. lra.
Qed.

(** ** Rounding errors *)


Lemma round28_err (x : Q) : (0 < x)%Q ->
  (x * (1 - u28) <= round28 x /\ round28 x <= x * (1 + u28))%Q.
Proof.
  intros Hx. destruct (Qlog_spec 10 x ltac:(lia) Hx) as [Lo _].
  pose proof (round_at_err half_up 10 ltac:(lia) (fexp28 (Qlog 10 x)) x) as E.
  fold (round_to half_up 10 fexp28 x) in E. fold (round28 x) in E.
  apply Qabs_Qle_condition in E.
  assert (P : (Qpow 10 (Qlog 10 x) == Qpow 10 (fexp28 (Qlog 10 x)) * Qpow 10 27)%Q).
  { rewrite <- Qpow_add by lia. unfold fexp28, precision.
    replace (Qlog 10 x - (28 - 1) + 27) with (Qlog 10 x) by lia. reflexivity. }
  pose proof (Qpow_pos 10 (fexp28 (Qlog 10 x)) ltac:(lia)) as Pk.
  replace (Qpow 10 27) with (1000000000000000000000000000%Q) in P by (vm_compute; reflexivity).
  unfold u28. set (t := Qpow 10 (fexp28 (Qlog 10 x))) in *.
  destruct E as [E1 E2]. split; lra.
Qed.

Lemma round64_err (x : Q) : (0 < x)%Q ->
  (x * (1 - u53) - Qpow 2 (-1075) <= round64 x /\
   round64 x <= x * (1 + u53) + Qpow 2 (-1075))%Q.
Proof.
  intros Hx. destruct (Qlog_spec 2 x ltac:(lia) Hx) as [Lo _].
  pose proof (round_at_err half_even 2 ltac:(lia) (fexp64 (Qlog 2 x)) x) as E.
  fold (round_to half_even 2 fexp64 x) in E. fold (round64 x) in E.
  apply Qabs_Qle_condition in E.
  assert (Z : (Qpow 2 (-1074) == 2 * Qpow 2 (-1075))%Q).
  { change (-1074) with (1 + -1075). rewrite Qpow_add by lia. reflexivity. }
  pose proof (Qpow_pos 2 (-1075) ltac:(lia)) as Pz.
  set (z := Qpow 2 (-1075)) in *.
  unfold fexp64 in E.
  destruct (Z.max_spec (Qlog 2 x - 52) (-1074)) as [[_ M]|[_ M]]; rewrite M in E.
  - rewrite Z in E. unfold u53.
    pose proof (Qmult_le_0_compat x (1 # 9007199254740992) ltac:(lra) ltac:(lra)).
    destruct E as [E1 E2]. split; lra.
  - assert (P : (Qpow 2 (Qlog 2 x) == Qpow 2 (Qlog 2 x - 52) * Qpow 2 52)%Q).
    { rewrite <- Qpow_add by lia.
      replace (Qlog 2 x - 52 + 52) with (Qlog 2 x) by lia. reflexivity. }
    pose proof (Qpow_pos 2 (Qlog 2 x - 52) ltac:(lia)) as Pk.
    replace (Qpow 2 52) with (4503599627370496%Q) in P by (vm_compute; reflexivity).
    unfold u53. set (t := Qpow 2 (Qlog 2 x - 52)) in *.
    destruct E as [E1 E2]. split; lra.
Qed.

(** [finalise] on a non-negative rational below [10 ^ 400]: finite, with a
    relative error of [u28], or an absolute one below [10 ^ -700]. *)
Lemma finalise_err (x : Q) : (0 <= x)%Q -> (x <= Qpow 10 400)%Q ->
  exists r, finalise x = DFin r /\ (0 <= r)%Q /\
    (x * (1 - u28) - Qpow 10 (-700) <= r /\ r <= x * (1 + u28) + Qpow 10 (-700))%Q.
Proof.
  intros H0 Hx.
  pose proof (Qpow_pos 10 (-700) ltac:(lia)) as Pe.
  destruct (Qle_lt_or_eq _ _ H0) as [P|Z].
  2:{ exists 0%Q. rewrite finalise_zero by (symmetry; exact Z).
      unfold u28. repeat split; lra. }
  rewrite finalise_pos by assumption.
  pose proof (round28_pos x P) as R. destruct (round28_err x P) as [E1 E2].
  destruct (Qlog_spec 10 (round28 x) ltac:(lia) R) as [Lo Hi].
  assert (Up : (round28 x <= Qpow 10 400)%Q).
  { unfold round28, round_to.
    rewrite <- (round_at_pow half_up 10 ltac:(lia)
                  (fexp28 (Qlog 10 x)) 400).
    - apply round_at_mono; [exact _|lia|exact Hx].
    - pose proof (Qlog_mono 10 x (Qpow 10 400) ltac:(lia) P Hx) as M.
      rewrite (Qlog_unique 10 (Qpow 10 400) 400) in M;
        [unfold fexp28, precision; lia|lia|lra|apply Qpow_lt; lia]. }
  assert (Qlog 10 (round28 x) < 401).
  { apply (Qpow_lt_inv 10); [lia|].
    pose proof (Qpow_lt 10 400 401 ltac:(lia) ltac:(lia)). lra. }
  destruct (Z.ltb_spec maxE (Qlog 10 (round28 x))) as [A|A]; [unfold maxE in A; lia|].
  destruct (Z.ltb_spec (Qlog 10 (round28 x)) minE) as [B|B].
  - exists 0%Q. split; [reflexivity|]. split; [lra|].
    assert (S : (round28 x < Qpow 10 (-701))%Q).
    { pose proof (Qpow_le 10 (Qlog 10 (round28 x) + 1) (-701) ltac:(lia)
                    ltac:(unfold minE in B; lia)). lra. }
    assert (T : (Qpow 10 (-700) == 10 * Qpow 10 (-701))%Q).
    { change (-700) with (1 + -701). rewrite Qpow_add by lia. reflexivity. }
    pose proof (Qpow_pos 10 (-701) ltac:(lia)).
    unfold u28 in *. set (t := Qpow 10 (-701)) in *. set (e := Qpow 10 (-700)) in *.
    split; lra.
  - exists (Qred (round28 x)). split; [reflexivity|].
    rewrite Qred_correct. repeat split; lra.
Qed.

(** [to_double] on a non-negative rational, when the result is finite. *)
Lemma to_double_err (x r : Q) : (0 <= x)%Q -> to_double x = Fin r ->
  (0 <= r)%Q /\
  (x * (1 - u53) - Qpow 2 (-1075) <= r /\ r <= x * (1 + u53) + Qpow 2 (-1075))%Q.
Proof.
  intros H0 E.
  pose proof (Qpow_pos 2 (-1075) ltac:(lia)) as Pz.
  destruct (Qle_lt_or_eq _ _ H0) as [P|Z].
  2:{ rewrite (to_double_comp x 0) in E by (symmetry; exact Z).
      rewrite to_double_zero in E. injection E as <-.
      unfold u53. repeat split; lra. }
  rewrite to_double_pos in E by assumption.
  destruct (Qle_bool (Qpow 2 1024) (round64 x)); [discriminate|].
  assert (E' : r = Qred (round64 x)) by congruence.
  rewrite E', Qred_correct.
  destruct (round64_err x P). pose proof (round64_nonneg x H0).
  repeat split; lra.
Qed.

(** ** The tax loop against the specification's *)

(** A bracket with a finite upper bound is read the same way by both. *)
Lemma taxStep_bounded (income tax : Decimal) (b : TaxBracket.t) :
  number_eq (TaxBracket.max b) (Inf false) = false ->
  taxStep income tax b =
  Spec.taxStep income tax
    (Spec.Build (of_number (TaxBracket.min b)) (of_number (TaxBracket.max b))
                (of_number (TaxBracket.rate b))).
Proof.
  intros H. unfold taxStep, Spec.taxStep. rewrite H. reflexivity.
Qed.

Lemma of_number_nonpos (q d : Q) :
  is_double (Fin q) = true -> (q <= 0)%Q -> of_number (Fin q) = DFin d -> (d <= 0)%Q.
Proof.
  intros D H. cbn [of_number]. destruct (Qeq_bool q 0) eqn:Z.
  - intros [= <-]. lra.
  - apply Qeq_bool_false in Z. apply is_double_Fin in D.
    destruct (is_double_round64 q Z D) as [R _].
    pose proof (shortest_pos (Qabs q) (Qabs_pos_iff q Z) R) as P.
    assert (S : Qneg q = true) by (apply Qneg_true; lra).
    rewrite S. cbn [with_sign]. intros E.
    assert (E' : d = Qred (- shortest (Qabs q))) by congruence.
    rewrite E', Qred_correct. lra.
Qed.

(** Up to [Number.MAX_SAFE_INTEGER] the cap on the last bracket does not
    bind. *)
Lemma taxStep_last (x : number) (tax : Decimal) :
  is_double x = true -> number_le x MAX_SAFE_INTEGER = true ->
  taxStep (of_number x) tax
    (TaxBracket.Build (lit 2400000) (Inf false) (lit 15)) =
  Spec.taxStep (of_number x) tax
    (Spec.Build (DFin 2400000) (DInf false) (DFin 15)).
Proof.
  intros D H. unfold taxStep, Spec.taxStep.
  cbn [TaxBracket.min TaxBracket.max TaxBracket.rate
       Spec.lowerBound Spec.upperBound Spec.rate number_eq Bool.eqb].
  replace (of_number (lit 2400000)) with (DFin 2400000) by (vm_compute; reflexivity).
  replace (of_number (lit 15)) with (DFin 15) by (vm_compute; reflexivity).
  replace (of_number (lit 100)) with (DFin 100) by (vm_compute; reflexivity).
  replace (Decimal_minus (of_number MAX_SAFE_INTEGER) (DFin 2400000))
    with (DFin 9007199252340991) by (vm_compute; reflexivity).
  replace (Decimal_minus (DInf false) (DFin 2400000)) with (DInf false) by reflexivity.
  destruct (Decimal_gt (of_number x) (DFin 2400000)) eqn:G; [|reflexivity].
  do 3 f_equal.
  destruct x as [| |q]; try discriminate.
  { destruct neg; discriminate. }
  unfold MAX_SAFE_INTEGER in H. apply number_le_Fin in H.
  destruct (of_number (Fin q)) as [| |d] eqn:E;
    try (cbn [of_number] in E; destruct (Qeq_bool q 0); discriminate).
  apply Decimal_lt_Fin in G.
  assert (Hq : (0 < q)%Q).
  { destruct (Qlt_le_dec 0 q) as [|L]; [assumption|].
    pose proof (of_number_nonpos q d D L E). lra. }
  assert (Hd : (d <= 9007199254740991)%Q).
  { pose proof (of_number_mono q (inject_Z 9007199254740991) D
                  ltac:(vm_compute; reflexivity) ltac:(lra) H) as M.
    rewrite E in M.
    replace (of_number (Fin (inject_Z 9007199254740991)))
      with (DFin 9007199254740991) in M by (vm_compute; reflexivity).
    exact M. }
  cbn [Decimal_minus].
  pose proof (finalise_mono (d - 2400000) 9007199252340991 ltac:(lra) ltac:(lra)) as M.
  replace (finalise 9007199252340991) with (DFin 9007199252340991) in M
    by (vm_compute; reflexivity).
  destruct (finalise (d - 2400000)) as [|[]|y]; cbn [Dle] in M; try contradiction.
  unfold Decimal_min, Decimal_gt.
  replace (Decimal_lt (DFin 9007199252340991) (DFin y)) with false
    by (symmetry; apply Decimal_lt_Fin_false, M).
  reflexivity.
Qed.

Lemma calculateIncomeTax_refines (x : number) :
  is_double x = true -> number_le x MAX_SAFE_INTEGER = true ->
  calculateIncomeTax x = Spec.incomeTax x.
Proof.
  intros D H. unfold calculateIncomeTax, Spec.incomeTax.
  replace (of_number (lit 0)) with (DFin 0) by (vm_compute; reflexivity).
  replace (of_number (lit 12)) with (DFin 12) by (vm_compute; reflexivity).
  do 2 f_equal.
  unfold taxBrackets, Spec.table. cbn [fold_left].
  rewrite (taxStep_last x _ D H).
  rewrite !taxStep_bounded by reflexivity.
  cbn [TaxBracket.min TaxBracket.max TaxBracket.rate].
  replace (of_number (lit 0)) with (DFin 0) by (vm_compute; reflexivity).
  replace (of_number (lit 720000)) with (DFin 720000) by (vm_compute; reflexivity).
  replace (of_number (lit 1200000)) with (DFin 1200000) by (vm_compute; reflexivity).
  replace (of_number (lit 1800000)) with (DFin 1800000) by (vm_compute; reflexivity).
  replace (of_number (lit 2400000)) with (DFin 2400000) by (vm_compute; reflexivity).
  replace (of_number (lit (55 # 10))) with (DFin (11 # 2)) by (vm_compute; reflexivity).
  replace (of_number (lit 8)) with (DFin 8) by (vm_compute; reflexivity).
  replace (of_number (lit 12)) with (DFin 12) by (vm_compute; reflexivity).
  reflexivity.
Qed.

(** ** The tax loop is monotone *)


Lemma Decimal_gt_mono (x y : Decimal) (m : Q) :
  Dle x y -> Decimal_gt x (DFin m) = true -> Decimal_gt y (DFin m) = true.
Proof.
  unfold Decimal_gt.
  destruct x as [|[]|a], y as [|[]|b]; cbn [Dle]; intros L; try contradiction; auto.
  rewrite !Decimal_lt_Fin. lra.
Qed.

Lemma Decimal_minus_above (x : Decimal) (m : Q) :
  Dnn x -> Decimal_gt x (DFin m) = true -> Dnn (Decimal_minus x (DFin m)).
Proof.
  unfold Decimal_gt.
  destruct x as [|[]|a]; cbn [Dnn Decimal_minus]; intros N G;
    try contradiction; try discriminate; auto.
  apply Decimal_lt_Fin in G. apply finalise_nonneg. lra.
Qed.

Lemma Decimal_minus_mono (x y : Decimal) (m : Q) :
  Dnn x -> Dle x y -> Decimal_gt x (DFin m) = true ->
  Dle (Decimal_minus x (DFin m)) (Decimal_minus y (DFin m)).
Proof.
  unfold Decimal_gt.
  destruct x as [|[]|a], y as [|[]|b]; cbn [Dnn Dle Decimal_minus]; intros N L G;
    try contradiction; try discriminate; auto.
  - apply Decimal_lt_Fin in G. apply Dle_top, finalise_nonneg. lra.
  - apply Decimal_lt_Fin in G. apply finalise_mono; lra.
Qed.

Lemma Decimal_mul_nn (a r : Q) :
  (0 <= a)%Q -> (0 <= r)%Q -> Dnn (Decimal_mul (DFin a) (DFin r)).
Proof. intros. cbn [Decimal_mul]. apply finalise_nonneg, Qmult_le_0_compat; lra. Qed.

Lemma Decimal_div_nn (x : Decimal) (r : Q) :
  Dnn x -> (0 < r)%Q -> Dnn (Decimal_div x (DFin r)).
Proof.
  intros N Hr.
  assert (Z : Qeq_bool r 0 = false) by (apply Qeq_bool_false; lra).
  assert (S : Qneg r = false) by (apply Qneg_false; lra).
  assert (I : (0 < / r)%Q) by (apply Qinv_lt_0_compat, Hr).
  destruct x as [|[]|a]; cbn [Dnn Decimal_div] in *; rewrite ?Z, ?S;
    try contradiction; try discriminate; auto.
  apply finalise_nonneg, Qmult_le_0_compat; lra.
Qed.

(** The tax of one bracket: non-negative and monotone in the income. *)
Lemma bracketTax_mono (m w r : Q) (x y : Decimal) :
  (0 <= w)%Q -> (0 <= r)%Q -> Dnn x -> Dle x y -> Decimal_gt x (DFin m) = true ->
  let bt i :=
    Decimal_div
      (Decimal_mul (Decimal_min (Decimal_minus i (DFin m)) (DFin w)) (DFin r))
      (DFin 100) in
  Dnn (bt x) /\ Dnn (bt y) /\ Dle (bt x) (bt y).
Proof.
  intros Hw Hr N L G bt.
  pose proof (Decimal_gt_mono x y m L G) as G'.
  pose proof (Dle_nn _ _ N L) as N'.
  pose proof (Decimal_minus_above x m N G) as Mx.
  pose proof (Decimal_minus_above y m N' G') as My.
  pose proof (Decimal_minus_mono x y m N L G) as Mxy.
  pose proof (Decimal_min_mono _ _ w Mx Hw Mxy) as Mm.
  destruct (Decimal_min_bound _ w Mx Hw) as (a & Ea & Ba & _).
  destruct (Decimal_min_bound _ w My Hw) as (b & Eb & Bb & _).
  subst bt. cbv beta. rewrite Ea, Eb in *.
  pose proof (Decimal_mul_nn a r ltac:(lra) Hr) as Na.
  pose proof (Decimal_mul_nn b r ltac:(lra) Hr) as Nb.
  split; [|split].
  - apply Decimal_div_nn; [assumption|lra].
  - apply Decimal_div_nn; [assumption|lra].
  - apply Decimal_div_mono; [lra|assumption|].
    apply Decimal_mul_mono; [assumption|cbn; lra|assumption|discriminate].
Qed.

Lemma bracketStep_mono (m w r : Q) (x y tx ty : Decimal) :
  (0 <= w)%Q -> (0 <= r)%Q -> Dnn x -> Dle x y ->
  Dnn tx -> Dstable tx -> Dstable ty -> Dle tx ty ->
  Dnn (bracketStep m w r x tx) /\ Dstable (bracketStep m w r x tx) /\
  Dstable (bracketStep m w r y ty) /\
  Dle (bracketStep m w r x tx) (bracketStep m w r y ty).
Proof.
  intros Hw Hr N L Nt St St' Lt. unfold bracketStep.
  pose proof (Dle_nn _ _ Nt Lt) as Nt'.
  destruct (Decimal_gt x (DFin m)) eqn:G.
  - rewrite (Decimal_gt_mono x y m L G).
    destruct (bracketTax_mono m w r x y Hw Hr N L G) as (B1 & B2 & B3).
    cbv beta zeta in B1, B2, B3.
    repeat split.
    + apply Decimal_plus_nn; assumption.
    + apply Decimal_plus_stable; assumption.
    + apply Decimal_plus_stable; assumption.
    + apply Decimal_plus_mono; assumption.
  - destruct (Decimal_gt y (DFin m)) eqn:G'.
    + destruct (bracketTax_mono m w r y y Hw Hr (Dle_nn _ _ N L)
                  (Dle_refl _ (Dle_nn _ _ N L)) G') as (B1 & _ & _).
      cbv beta zeta in B1.
      repeat split; try assumption.
      * apply Decimal_plus_stable; assumption.
      * apply Decimal_plus_increasing; assumption.
    + repeat split; assumption.
Qed.

(** The five brackets, read as decimals. *)
Lemma taxStep_brackets (income tax : Decimal) :
  fold_left (taxStep income) taxBrackets tax =
  bracketStep 2400000 9007199252340991 15 income
    (bracketStep 1800000 600000 12 income
       (bracketStep 1200000 600000 8 income
          (bracketStep 720000 480000 (11 # 2) income
             (bracketStep 0 720000 0 income tax)))).
Proof. reflexivity. Qed.

Lemma taxTotal_mono (x y : Decimal) : Dnn x -> Dle x y ->
  let total i := fold_left (taxStep i) taxBrackets (DFin 0) in
  Dnn (total x) /\ Dle (total x) (total y).
Proof.
  intros N L total. subst total. cbv beta. rewrite !taxStep_brackets.
  assert (S0 : Dstable (DFin 0)) by reflexivity.
  assert (N0 : Dnn (DFin 0)) by (cbn; lra).
  assert (L0 : Dle (DFin 0) (DFin 0)) by (cbn; lra).
  destruct (bracketStep_mono 0 720000 0 x y (DFin 0) (DFin 0)
              ltac:(lra) ltac:(lra) N L N0 S0 S0 L0) as (N1 & S1 & S1' & L1).
  destruct (bracketStep_mono 720000 480000 (11 # 2) x y _ _
              ltac:(lra) ltac:(lra) N L N1 S1 S1' L1) as (N2 & S2 & S2' & L2).
  destruct (bracketStep_mono 1200000 600000 8 x y _ _
              ltac:(lra) ltac:(lra) N L N2 S2 S2' L2) as (N3 & S3 & S3' & L3).
  destruct (bracketStep_mono 1800000 600000 12 x y _ _
              ltac:(lra) ltac:(lra) N L N3 S3 S3' L3) as (N4 & S4 & S4' & L4).
  destruct (bracketStep_mono 2400000 9007199252340991 15 x y _ _
              ltac:(lra) ltac:(lra) N L N4 S4 S4' L4) as (N5 & S5 & S5' & L5).
  split; assumption.
Qed.

Lemma calculateIncomeTax_mono (a b : number) :
  is_double a = true -> is_double b = true ->
  number_le (lit 0) a = true -> number_lt a b = true ->
  number_le (calculateIncomeTax a) (calculateIncomeTax b) = true.
Proof.
  intros Da Db H0 H. unfold calculateIncomeTax.
  replace (of_number (lit 0)) with (DFin 0) by (vm_compute; reflexivity).
  replace (of_number (lit 12)) with (DFin 12) by (vm_compute; reflexivity).
  assert (NL : Dnn (of_number a) /\ Dle (of_number a) (of_number b)).
  { destruct a as [| |p]; try discriminate.
    { destruct neg; try discriminate. destruct b as [|[]|]; discriminate. }
    change (lit 0) with (Fin 0) in H0. apply number_le_Fin in H0.
    split; [apply of_number_nn; assumption|].
    destruct b as [|[]|q]; try discriminate.
    - apply Dle_top, of_number_nn; assumption.
    - apply number_lt_Fin in H. apply of_number_mono; try assumption. lra. }
  destruct NL as [N L].
  destruct (taxTotal_mono _ _ N L) as [NT LT]. cbv beta zeta in NT, LT.
  apply toNumber_mono.
  - apply Decimal_div_nn; [assumption|lra].
  - apply Decimal_div_mono; [lra|assumption|assumption].
Qed.

(** ** The equity complement *)

(** The decimal reading of a non-negative number is as close to it as the
    binary64 rounding allows. *)
Lemma of_number_reading (c : Q) : is_double (Fin c) = true -> (0 <= c)%Q ->
  exists C, of_number (Fin c) = DFin C /\ (0 <= C)%Q /\ (C <= Qpow 2 1025)%Q /\
    (C * (1 - u53) - Qpow 2 (-1075) <= c /\ c <= C * (1 + u53) + Qpow 2 (-1075))%Q.
Proof.
  intros D H.
  pose proof (Qpow_pos 2 (-1075) ltac:(lia)) as Pz.
  pose proof (Qpow_pos 2 1025 ltac:(lia)) as Pt.
  destruct (Qle_lt_or_eq _ _ H) as [P|Z].
  2:{ exists 0%Q. rewrite of_number_zero by (symmetry; exact Z).
      unfold u53. repeat split; lra. }
  destruct (of_number_pos c D P) as (C & E & PC & R).
  exists C. split; [exact E|]. split; [lra|].
  destruct (round64_err C PC) as [E1 E2]. rewrite R in E1, E2.
  split; [|split; assumption].
  apply is_double_Fin in D.
  destruct (is_double_round64 c ltac:(lra) D) as [_ O].
  apply Qle_bool_false in O. rewrite Qabs_pos in O by lra.
  destruct (Qlt_le_dec (Qpow 2 1025) C) as [L|]; [|assumption].
  pose proof (round64_mono (Qpow 2 1025) C Pt ltac:(lra)) as M.
  assert (F : (round64 (Qpow 2 1025) == Qpow 2 1025)%Q).
  { unfold round64, round_to.
    rewrite (Qlog_unique 2 (Qpow 2 1025) 1025);
      [|lia|lra|apply Qpow_lt; lia].
    apply round_at_pow; [exact _|lia|unfold fexp64; lia]. }
  pose proof (Qpow_lt 2 1024 1025 ltac:(lia) ltac:(lia)). lra.
Qed.

Lemma Qmult_le_l_weak (x y z : Q) : (0 <= z)%Q -> (x <= y)%Q -> (z * x <= z * y)%Q.
Proof.
  intros Hz H. rewrite (Qmult_comm z x), (Qmult_comm z y).
  apply Qmult_le_compat_r; assumption.
Qed.

Lemma finalise_le_one (x : Q) (r : Q) :
  (0 <= x)%Q -> (x <= 1)%Q -> finalise x = DFin r -> (r <= 1)%Q.
Proof.
  intros H0 H1 E. pose proof (finalise_mono x 1 H0 H1) as M.
  rewrite E in M. replace (finalise 1) with (DFin 1) in M by (vm_compute; reflexivity).
  exact M.
Qed.


Lemma equity_complement_bound (c e b q : Q) :
  is_double (Fin c) = true -> is_double (Fin e) = true ->
  (0 <= c)%Q -> (0 <= e)%Q -> (e <= 100)%Q ->
  calculateBankFinanceAmount (Fin c) (Fin e) = Fin b ->
  calculateEquityAmount (Fin c) (Fin e) = Fin q ->
  (Qabs (b + q - c) <= equity_tolerance c)%Q.
Proof.
  intros Dc De Hc He He' Eb Eq.
  destruct (of_number_reading c Dc Hc) as (C & EC & C0 & CT & Cl & Cu).
  assert (E100 : of_number (Fin 100) = DFin 100) by (vm_compute; reflexivity).
  assert (HE : exists E, of_number (Fin e) = DFin E /\ (0 <= E <= 100)%Q).
  { pose proof (of_number_nn e De He) as N.
    pose proof (of_number_mono e 100 De ltac:(vm_compute; reflexivity) He He') as M.
    rewrite E100 in M.
    destruct (of_number (Fin e)) as [|[]|E]; cbn in N, M; try contradiction.
    exists E. split; [reflexivity|lra]. }
  destruct HE as (E & EE & E0 & E1).
  (* constants *)
  pose proof (Qpow_pos 2 (-1075) ltac:(lia)) as Pz.
  pose proof (Qpow_pos 10 (-700) ltac:(lia)) as Pe.
  assert (Z4 : (Qpow 2 (-1073) == 4 * Qpow 2 (-1075))%Q).
  { change (-1073) with (2 + -1075). rewrite Qpow_add by lia. reflexivity. }
  assert (EZ : (10 * Qpow 10 (-700) <= Qpow 2 (-1075))%Q)
    by (apply Qle_bool_iff; vm_compute; reflexivity).
  assert (EU : (Qpow 10 (-700) <= 1 # 10000000000000000000000000000000000000000)%Q)
    by (apply Qle_bool_iff; vm_compute; reflexivity).
  assert (T1 : (4 * Qpow 2 1025 <= Qpow 10 400)%Q)
    by (apply Qle_bool_iff; vm_compute; reflexivity).
  assert (T2 : (1 <= Qpow 10 400)%Q)
    by (apply Qle_bool_iff; vm_compute; reflexivity).
  assert (T3 : (200 * Qpow 2 1025 <= Qpow 10 400)%Q)
    by (apply Qle_bool_iff; vm_compute; reflexivity).
  (* the bank finance amount *)
  unfold calculateBankFinanceAmount in Eb.
  replace (of_number (lit 100)) with (DFin 100) in Eb by (vm_compute; reflexivity).
  replace (of_number (lit 1)) with (DFin 1) in Eb by (vm_compute; reflexivity).
  rewrite EC, EE in Eb. cbn [Decimal_div] in Eb.
  replace (Qeq_bool 100 0) with false in Eb by reflexivity.
  assert (X1 : (0 <= E / 100 <= 1)%Q).
  { unfold Qdiv. change (/ 100)%Q with (1 # 100)%Q. split; lra. }
  destruct (finalise_err (E / 100) ltac:(lra) ltac:(lra)) as (r1 & F1 & R1 & L1 & U1).
  pose proof (finalise_le_one (E / 100) r1 ltac:(lra) ltac:(lra) F1) as R1'.
  rewrite F1 in Eb. cbn [Decimal_minus] in Eb.
  destruct (finalise_err (1 - r1) ltac:(lra) ltac:(lra)) as (r2 & F2 & R2 & L2 & U2).
  rewrite F2 in Eb. cbn [Decimal_mul] in Eb.
  assert (X1' : (E / 100 == E * (1 # 100))%Q) by (unfold Qdiv; reflexivity).
  assert (B2 : (r2 <= 2)%Q) by (unfold u28 in *; lra).
  assert (X3 : (0 <= C * r2 <= 2 * Qpow 2 1025)%Q).
  { split; [apply Qmult_le_0_compat; assumption|].
    rewrite (Qmult_comm 2). apply Qmult_le_compat_nonneg; split; assumption. }
  destruct (finalise_err (C * r2) ltac:(lra) ltac:(lra)) as (B & F3 & B0 & L3 & U3).
  rewrite F3 in Eb. cbn [toNumber] in Eb.
  destruct (to_double_err B b B0 Eb) as (b0 & Lb & Ub).
  (* the equity amount *)
  unfold calculateEquityAmount in Eq.
  replace (of_number (lit 100)) with (DFin 100) in Eq by (vm_compute; reflexivity).
  rewrite EC, EE in Eq. cbn [Decimal_mul] in Eq.
  assert (X4 : (0 <= C * E <= 100 * C)%Q).
  { split; [apply Qmult_le_0_compat; assumption|].
    rewrite (Qmult_comm 100). apply Qmult_le_compat_nonneg; split; try assumption; lra. }
  destruct (finalise_err (C * E) ltac:(lra) ltac:(lra)) as (p1 & F4 & P0 & L4 & U4).
  rewrite F4 in Eq. cbn [Decimal_div] in Eq.
  replace (Qeq_bool 100 0) with false in Eq by reflexivity.
  assert (X5' : (p1 / 100 == p1 * (1 # 100))%Q) by (unfold Qdiv; reflexivity).
  assert (X5 : (0 <= p1 / 100 <= Qpow 10 400)%Q) by (unfold u28 in *; split; lra).
  destruct (finalise_err (p1 / 100) ltac:(lra) ltac:(lra)) as (Q & F5 & Q0 & L5 & U5).
  rewrite F5 in Eq. cbn [toNumber] in Eq.
  destruct (to_double_err Q q Q0 Eq) as (q0 & Lq & Uq).
  (* the product [C * r2] against [C] and [C * E] *)
  assert (S3u : (C * r2 <= C - C * E * (1 # 100) + C * (3 * u28))%Q).
  { setoid_replace (C - C * E * (1 # 100) + C * (3 * u28))%Q
      with (C * (1 - E * (1 # 100) + 3 * u28))%Q by ring.
    apply Qmult_le_l_weak; [assumption|]. unfold u28 in *. lra. }
  assert (S3l : (C - C * E * (1 # 100) - C * (3 * u28) <= C * r2)%Q).
  { setoid_replace (C - C * E * (1 # 100) - C * (3 * u28))%Q
      with (C * (1 - E * (1 # 100) - 3 * u28))%Q by ring.
    apply Qmult_le_l_weak; [assumption|]. unfold u28 in *. lra. }
  unfold equity_tolerance. apply Qabs_Qle_condition.
  rewrite Z4. unfold u28, u53 in *.
  set (z := Qpow 2 (-1075)) in *. set (h := Qpow 10 (-700)) in *.
  set (s3 := (C * r2)%Q) in *. set (P := (C * E)%Q) in *.
  clear - Cl Cu C0 Pz Pe EZ EU L3 U3 Lb Ub L4 U4 L5 U5 Lq Uq S3u S3l X4 X5' Hc B0 P0 Q0.
  split; lra.
Qed.

Lemma is_double_le_max (c : Q) : is_double (Fin c) = true -> (0 <= c)%Q ->
  (c <= MAX_VALUE)%Q.
Proof.
  intros D H. destruct (Qlt_le_dec MAX_VALUE c) as [L|]; [exfalso|assumption].
  assert (M1 : (Qpow 2 1023 <= MAX_VALUE)%Q) by (apply Qle_bool_iff; vm_compute; reflexivity).
  assert (M2 : (MAX_VALUE == inject_Z 9007199254740991 * Qpow 2 971)%Q).
  { unfold MAX_VALUE. rewrite inject_Z_mult, (Qpow_Z 2 971) by lia. reflexivity. }
  assert (M3 : (Qpow 2 1024 == inject_Z 9007199254740992 * Qpow 2 971)%Q).
  { change 9007199254740992 with (2 ^ 53). rewrite <- (Qpow_Z 2 53) by lia.
    rewrite <- Qpow_add by lia. reflexivity. }
  pose proof (Qpow_pos 2 1023 ltac:(lia)) as P0.
  apply is_double_Fin in D.
  destruct (is_double_round64 c ltac:(lra) D) as [R O].
  apply Qle_bool_false in O.
  assert (A0 : (Qabs c == c)%Q) by (apply Qabs_pos; lra).
  assert (R' : (round64 c == c)%Q).
  { rewrite <- (round64_comp (Qabs c) c); [lra|lra|exact A0]. }
  clear R. rename R' into R.
  assert (El : Qlog 2 c = 1023)
    by (apply Qlog_unique; [lia|lra|change (1023 + 1) with 1024; lra]).
  unfold round64, round_to, round_at in R. rewrite El in R.
  change (fexp64 1023) with 971 in R.
  pose proof (Qpow_pos 2 971 ltac:(lia)) as P.
  set (m := half_even (c / Qpow 2 971)) in *.
  assert (A : (inject_Z 9007199254740991 < inject_Z m)%Q).
  { apply Qmult_lt_r with (z := Qpow 2 971); [assumption|]. lra. }
  assert (B : (inject_Z m < inject_Z 9007199254740992)%Q).
  { apply Qmult_lt_r with (z := Qpow 2 971); [assumption|]. lra. }
  rewrite <- Zlt_Qlt in A, B. lia.
Qed.

Lemma to_double_finite (x y m : Q) : (0 <= x)%Q -> (x <= y)%Q -> to_double y = Fin m ->
  exists r, to_double x = Fin r.
Proof.
  intros H0 H E. pose proof (to_double_mono x y H0 H) as M. rewrite E in M.
  destruct (Qle_lt_or_eq _ _ H0) as [P|Z].
  - rewrite to_double_pos in * by assumption.
    destruct (Qle_bool (Qpow 2 1024) (round64 x)); [discriminate|]. eauto.
  - rewrite (to_double_comp x 0) by (symmetry; exact Z). rewrite to_double_zero. eauto.
Qed.

Lemma of_number_MAX_VALUE : of_number (Fin MAX_VALUE) = DFin MAX_VALUE_decimal.
Proof. vm_compute. reflexivity. Qed.

Lemma is_double_MAX_VALUE : is_double (Fin MAX_VALUE) = true.
Proof. vm_compute. reflexivity. Qed.

Lemma finalise_MAX_VALUE_decimal : finalise MAX_VALUE_decimal = DFin MAX_VALUE_decimal.
Proof. vm_compute. reflexivity. Qed.

Lemma finalise_MAX_VALUE_decimal_100 :
  finalise (MAX_VALUE_decimal * 100) = DFin (MAX_VALUE_decimal * 100).
Proof. vm_compute. reflexivity. Qed.

Lemma to_double_MAX_VALUE_decimal : to_double MAX_VALUE_decimal = Fin MAX_VALUE.
Proof. vm_compute. reflexivity. Qed.

Lemma Dle_Fin_inv (x : Decimal) (b : Q) : Dnn x -> Dle x (DFin b) ->
  exists a, x = DFin a /\ (0 <= a <= b)%Q.
Proof.
  destruct x as [|[]|a]; cbn; intros N L; try contradiction; try discriminate.
  exists a. split; [reflexivity|lra].
Qed.

(** Both amounts are finite numbers. *)
Lemma equity_amounts_finite (c e : Q) :
  is_double (Fin c) = true -> is_double (Fin e) = true ->
  (0 <= c)%Q -> (0 <= e)%Q -> (e <= 100)%Q ->
  exists b q, calculateBankFinanceAmount (Fin c) (Fin e) = Fin b /\
              calculateEquityAmount (Fin c) (Fin e) = Fin q.
Proof.
  intros Dc De Hc He He'.
  pose proof (is_double_le_max c Dc Hc) as Hm.
  pose proof (of_number_nn c Dc Hc) as NC.
  pose proof (of_number_mono c MAX_VALUE Dc is_double_MAX_VALUE Hc Hm) as LC.
  rewrite of_number_MAX_VALUE in LC.
  destruct (Dle_Fin_inv _ _ NC LC) as (C & EC & C0 & C1).
  pose proof (of_number_nn e De He) as NE.
  pose proof (of_number_mono e 100 De ltac:(vm_compute; reflexivity) He He') as LE.
  replace (of_number (Fin 100)) with (DFin 100) in LE by (vm_compute; reflexivity).
  destruct (Dle_Fin_inv _ _ NE LE) as (E & EE & E0 & E1).
  assert (M0 : (0 < MAX_VALUE_decimal)%Q) by (vm_compute; reflexivity).
  pose proof finalise_MAX_VALUE_decimal as F1.
  pose proof finalise_MAX_VALUE_decimal_100 as F2.
  pose proof to_double_MAX_VALUE_decimal as F3.
  set (Mx := MAX_VALUE_decimal) in *. clearbody Mx.
  unfold calculateBankFinanceAmount, calculateEquityAmount.
  replace (of_number (lit 100)) with (DFin 100) by (vm_compute; reflexivity).
  replace (of_number (lit 1)) with (DFin 1) by (vm_compute; reflexivity).
  rewrite EC, EE.
  (* the bank finance ratio is between 0 and 1 *)
  assert (X1 : (0 <= E / 100 <= 1)%Q).
  { unfold Qdiv. change (/ 100)%Q with (1 # 100)%Q. split; lra. }
  cbn [Decimal_div]. replace (Qeq_bool 100 0) with false by reflexivity.
  pose proof (finalise_nonneg (E / 100) ltac:(lra)) as N1.
  pose proof (finalise_mono (E / 100) 1 ltac:(lra) ltac:(lra)) as L1.
  replace (finalise 1) with (DFin 1) in L1 by (vm_compute; reflexivity).
  destruct (Dle_Fin_inv _ _ N1 L1) as (r1 & -> & R0 & R1).
  cbn [Decimal_minus].
  pose proof (finalise_nonneg (1 - r1) ltac:(lra)) as N2.
  pose proof (finalise_mono (1 - r1) 1 ltac:(lra) ltac:(lra)) as L2.
  replace (finalise 1) with (DFin 1) in L2 by (vm_compute; reflexivity).
  destruct (Dle_Fin_inv _ _ N2 L2) as (r2 & -> & R20 & R21).
  cbn [Decimal_mul].
  assert (X3 : (0 <= C * r2 <= Mx)%Q).
  { split; [apply Qmult_le_0_compat; assumption|].
    rewrite <- (Qmult_1_r Mx).
    apply Qmult_le_compat_nonneg; split; assumption. }
  pose proof (finalise_nonneg (C * r2) ltac:(lra)) as N3.
  pose proof (finalise_mono (C * r2) _ ltac:(lra) (proj2 X3)) as L3.
  rewrite F1 in L3.
  destruct (Dle_Fin_inv _ _ N3 L3) as (B & -> & B0 & B1).
  cbn [toNumber].
  destruct (to_double_finite B _ _ B0 B1 F3) as (b & ->).
  exists b.
  (* the equity amount *)
  assert (X4 : (0 <= C * E <= Mx * 100)%Q).
  { split; [apply Qmult_le_0_compat; assumption|].
    apply Qmult_le_compat_nonneg; split; assumption. }
  pose proof (finalise_nonneg (C * E) ltac:(lra)) as N4.
  pose proof (finalise_mono (C * E) _ ltac:(lra) (proj2 X4)) as L4.
  rewrite F2 in L4.
  destruct (Dle_Fin_inv _ _ N4 L4) as (p1 & -> & P0 & P1).
  cbn [Decimal_div]. replace (Qeq_bool 100 0) with false by reflexivity.
  assert (X5 : (0 <= p1 / 100 <= Mx)%Q).
  { unfold Qdiv. change (/ 100)%Q with (1 # 100)%Q. split; lra. }
  pose proof (finalise_nonneg (p1 / 100) ltac:(lra)) as N5.
  pose proof (finalise_mono (p1 / 100) _ ltac:(lra) (proj2 X5)) as L5.
  rewrite F1 in L5.
  destruct (Dle_Fin_inv _ _ N5 L5) as (Q & -> & Q0 & Q1).
  cbn [toNumber].
  destruct (to_double_finite Q _ _ Q0 Q1 F3) as (q & ->).
  exists q. split; reflexivity.
Qed.

Lemma number_finite_nonneg (x : number) :
  number_le (lit 0) x = true -> number_lt x (Inf false) = true ->
  exists c, x = Fin c /\ (0 <= c)%Q.
Proof.
  replace (lit 0) with (Fin 0) by (vm_compute; reflexivity).
  destruct x as [|[]|c]; cbn [number_le number_lt number_eq orb andb negb];
    try discriminate.
  intros H _. apply number_le_Fin in H. eauto.
Qed.

Lemma number_le_Fin_finite (x : number) (b : Q) :
  number_le x (Fin b) = true -> number_lt x (Inf false) = true.
Proof. destruct x as [|[]|a]; cbn; intros H; try discriminate; reflexivity. Qed.

Lemma equity_complement_holds (cost equity : number) :
  is_double cost = true -> is_double equity = true ->
  number_le (lit 0) cost = true -> number_lt cost (Inf false) = true ->
  number_le (lit 0) equity = true -> number_le equity (lit 100) = true ->
  exists c b q,
    cost = Fin c /\
    calculateBankFinanceAmount cost equity = Fin b /\
    calculateEquityAmount cost equity = Fin q /\
    (Qabs (b + q - c) <= equity_tolerance c)%Q.
Proof.
  intros Dc De C0 Cf E0 E1.
  destruct (number_finite_nonneg cost C0 Cf) as (c & -> & Hc).
  replace (lit 100) with (Fin 100) in E1 by (vm_compute; reflexivity).
  pose proof (number_le_Fin_finite equity 100 E1) as Ef.
  destruct (number_finite_nonneg equity E0 Ef) as (e & -> & He).
  apply number_le_Fin in E1.
  destruct (equity_amounts_finite c e Dc De Hc He E1) as (b & q & Eb & Eq).
  exists c, b, q. repeat split; try assumption.
  apply (equity_complement_bound c e); assumption.
Qed.

(** ** Values that rounding to 28 digits leaves alone *)

Lemma finalise_comp (p q : Q) : (p == q)%Q -> finalise p = finalise q.
Proof.
  intros E. unfold finalise.
  rewrite <- (Qeqb_comp p q E 0%Q 0%Q (Qeq_refl 0)).
  destruct (Qeq_bool p 0) eqn:Z; [reflexivity|].
  apply Qeq_bool_false in Z.
  assert (A : (0 < Qabs p)%Q) by (apply Qabs_pos_iff, Z).
  assert (R : (round28 (Qabs p) == round28 (Qabs q))%Q).
  { apply round28_comp; [exact A|]. rewrite E. reflexivity. }
  assert (P : (0 < round28 (Qabs p))%Q) by (apply round28_pos, A).
  rewrite <- (Qlog_comp 10 _ _ ltac:(lia) P R), <- (Qneg_comp p q E).
  destruct (maxE <? _); [reflexivity|]. destruct (_ <? minE); [reflexivity|].
  f_equal. apply Qred_complete. destruct (Qneg p); cbn [with_sign]; rewrite R; reflexivity.
Qed.

(** A multiple of [10 ^ t] below [10 ^ (t + 28)] has at most 28 digits. *)
Lemma round28_fix_digits (n t : Z) (x : Q) :
  (x == inject_Z n * Qpow 10 t)%Q -> (0 < x)%Q -> (x < Qpow 10 (t + 28))%Q ->
  (round28 x == x)%Q.
Proof.
  intros E P U.
  destruct (Qlog_spec 10 x ltac:(lia) P) as [Lo _].
  assert (L : Qlog 10 x < t + 28) by (apply (Qpow_lt_inv 10); [lia|lra]).
  unfold round28, round_to.
  apply round_at_fix with (m := n * 10 ^ (t - fexp28 (Qlog 10 x))); [exact _|lia|].
  eapply Qeq_trans; [exact E|].
  set (k := fexp28 (Qlog 10 x)).
  assert (K : k <= t) by (unfold k, fexp28, precision; lia).
  rewrite inject_Z_mult, <- (Qpow_Z 10 (t - k)) by lia.
  rewrite <- Qmult_assoc, <- Qpow_add by lia.
  replace (t - k + k) with t by lia.
  reflexivity.
Qed.

(** The magnitude of [Qlog 10] on a range. *)
Lemma Qlog10_range (j k : Z) (x : Q) : (Qpow 10 j <= x)%Q -> (x <= Qpow 10 k)%Q ->
  j <= Qlog 10 x <= k.
Proof.
  intros Lo Hi. pose proof (Qpow_pos 10 j ltac:(lia)) as P.
  destruct (Qlog_spec 10 x ltac:(lia) ltac:(lra)) as [A B].
  split.
  - assert (j < Qlog 10 x + 1) by (apply (Qpow_lt_inv 10); [lia|lra]). lia.
  - assert (Qlog 10 x < k + 1).
    { apply (Qpow_lt_inv 10); [lia|].
      pose proof (Qpow_lt 10 k (k + 1) ltac:(lia) ltac:(lia)). lra. }
    lia.
Qed.

(** On a range inside the exponent limits of the library [finalise] is the
    rounding to 28 digits. *)
Lemma round28_exponent (j k : Z) (x : Q) :
  -8000000000000000 < j -> k < 8000000000000000 ->
  (Qpow 10 j <= x)%Q -> (x <= Qpow 10 k)%Q ->
  (maxE <? Qlog 10 (round28 x)) = false /\ (Qlog 10 (round28 x) <? minE) = false.
Proof.
  intros J K Lo Hi.
  pose proof (Qpow_pos 10 j ltac:(lia)) as P.
  assert (Px : (0 < x)%Q) by lra.
  destruct (round28_err x Px) as [E1 E2].
  assert (A : (Qpow 10 (j - 1) <= round28 x)%Q).
  { assert (T : (Qpow 10 j == 10 * Qpow 10 (j - 1))%Q).
    { replace j with (1 + (j - 1)) at 1 by lia. rewrite Qpow_add by lia. reflexivity. }
    pose proof (Qpow_pos 10 (j - 1) ltac:(lia)).
    unfold u28 in *. set (a := Qpow 10 j) in *. set (b := Qpow 10 (j - 1)) in *.
    lra. }
  assert (B : (round28 x <= Qpow 10 (k + 1))%Q).
  { assert (T : (Qpow 10 (k + 1) == 10 * Qpow 10 k)%Q).
    { replace (k + 1) with (1 + k) by lia. rewrite Qpow_add by lia. reflexivity. }
    pose proof (Qpow_pos 10 k ltac:(lia)).
    unfold u28 in *. set (a := Qpow 10 k) in *. set (b := Qpow 10 (k + 1)) in *.
    lra. }
  destruct (Qlog10_range _ _ _ A B) as [C D].
  split; [apply Z.ltb_ge|apply Z.ltb_ge]; unfold maxE, minE; lia.
Qed.

Lemma finalise_in_range (j k : Z) (x : Q) :
  -8000000000000000 < j -> k < 8000000000000000 ->
  (Qpow 10 j <= x)%Q -> (x <= Qpow 10 k)%Q ->
  finalise x = DFin (Qred (round28 x)).
Proof.
  intros J K Lo Hi.
  pose proof (Qpow_pos 10 j ltac:(lia)) as P.
  rewrite finalise_pos by lra.
  destruct (round28_exponent j k x J K Lo Hi) as [A B]. rewrite A, B. reflexivity.
Qed.

Lemma inject_Z_pred (M : Z) : (inject_Z (M - 1) == inject_Z M - 1)%Q.
Proof. unfold Z.sub. rewrite inject_Z_plus, inject_Z_opp. reflexivity. Qed.

Lemma inject_Z_succ (M : Z) : (inject_Z (M + 1) == inject_Z M + 1)%Q.
Proof. rewrite inject_Z_plus. reflexivity. Qed.

Lemma Qpow_split (b j k : Z) : 0 < b -> k <= j ->
  (Qpow b j == inject_Z (b ^ (j - k)) * Qpow b k)%Q.
Proof.
  intros B K. rewrite <- Qpow_Z by lia. rewrite <- Qpow_add by lia.
  replace (j - k + k) with j by lia. reflexivity.
Qed.

Lemma half_even_near (M : Z) (x : Q) :
  (inject_Z M - (1 # 2) < x)%Q -> (x < inject_Z M + (1 # 2))%Q -> half_even x = M.
Proof.
  intros Lo Hi. unfold half_even.
  destruct (Qlt_le_dec x (inject_Z M)) as [B | A].
  - assert (F : Qfloor x = M - 1).
    { apply Qfloor_unique.
      - rewrite inject_Z_pred. lra.
      - replace (M - 1 + 1) with M by lia. exact B. }
    rewrite F.
    assert (C : (x - inject_Z (M - 1) ?= 1 # 2)%Q = Gt).
    { apply (proj1 (Qgt_alt _ _)). rewrite inject_Z_pred. lra. }
    rewrite C. lia.
  - assert (F : Qfloor x = M).
    { apply Qfloor_unique; [exact A|]. rewrite inject_Z_succ. lra. }
    rewrite F.
    assert (C : (x - inject_Z M ?= 1 # 2)%Q = Lt) by (apply (proj1 (Qlt_alt _ _)); lra).
    rewrite C. reflexivity.
Qed.

(** A value within [10 ^ -20], relatively, of a binary64 value rounds to
    it: half the distance to the next binary64 value is larger. *)
Lemma round64_near (q y : Q) :
  (0 < q)%Q -> (round64 q == q)%Q ->
  (q * (1 - (1 # 100000000000000000000)) <= y)%Q ->
  (y <= q * (1 + (1 # 100000000000000000000)))%Q ->
  (round64 y == q)%Q.
Proof.
  intros Pq R Lo Hi.
  set (L := Qlog 2 q). set (k := fexp64 L).
  set (m := half_even (q / Qpow 2 k)).
  assert (Hq : (inject_Z m * Qpow 2 k == q)%Q) by exact R.
  destruct (Qlog_spec 2 q ltac:(lia) Pq) as [QL QU]. fold L in QL, QU.
  pose proof (Qpow_pos 2 k ltac:(lia)) as Pk.
  assert (Pm : 1 <= m).
  { destruct (Z_lt_le_dec m 1) as [N|]; [|assumption]. exfalso.
    assert (inject_Z m <= inject_Z 0)%Q by (rewrite <- Zle_Qle; lia).
    change (inject_Z 0) with 0%Q in *.
    assert (inject_Z m * Qpow 2 k <= 0 * Qpow 2 k)%Q by (apply Qmult_le_compat_r; lra).
    lra. }
  assert (G : (Qpow 2 k <= q)%Q).
  { rewrite <- Hq.
    assert (1 * Qpow 2 k <= inject_Z m * Qpow 2 k)%Q.
    { apply Qmult_le_compat_r; [|lra]. change 1%Q with (inject_Z 1). rewrite <- Zle_Qle. exact Pm. }
    lra. }
  assert (KL : k <= L).
  { assert (k < L + 1) by (apply (Qpow_lt_inv 2); [lia|lra]). lia. }
  assert (KL' : L - 52 <= k) by (unfold k, fexp64; lia).
  assert (Grid : (q + Qpow 2 k <= Qpow 2 (L + 1))%Q).
  { assert (E : (Qpow 2 (L + 1) == inject_Z (2 ^ (L + 1 - k)) * Qpow 2 k)%Q).
    { apply Qpow_split; lia. }
    assert (m < 2 ^ (L + 1 - k)).
    { rewrite Zlt_Qlt. apply Qmult_lt_r with (z := Qpow 2 k); [exact Pk|]. rewrite Hq, <- E. exact QU. }
    assert (A : (inject_Z (m + 1) <= inject_Z (2 ^ (L + 1 - k)))%Q) by (rewrite <- Zle_Qle; lia).
    rewrite inject_Z_succ in A.
    assert ((inject_Z m + 1) * Qpow 2 k <= inject_Z (2 ^ (L + 1 - k)) * Qpow 2 k)%Q
      by (apply Qmult_le_compat_r; lra).
    rewrite E, <- Hq. lra. }
  assert (Top : (Qpow 2 (L + 1) <= 9007199254740992 * Qpow 2 k)%Q).
  { rewrite (Qpow_split 2 (L + 1) k) by lia. apply Qmult_le_compat_r; [|lra].
    change (9007199254740992%Q) with (inject_Z (2 ^ 53)). rewrite <- Zle_Qle.
    apply Z.pow_le_mono_r; lia. }
  assert (Uy : (y < Qpow 2 (L + 1))%Q) by lra.
  assert (Ly : (Qpow 2 (L - 1) <= y)%Q).
  { assert (E : (Qpow 2 L == 2 * Qpow 2 (L - 1))%Q).
    { replace L with (1 + (L - 1)) at 1 by lia. rewrite Qpow_add by lia. reflexivity. }
    lra. }
  pose proof (Qpow_pos 2 (L - 1) ltac:(lia)) as PL.
  assert (Py : (0 < y)%Q) by lra.
  destruct (Qlog_spec 2 y ltac:(lia) Py) as [YL YU].
  set (l := Qlog 2 y) in *.
  assert (B1 : l < L + 1) by (apply (Qpow_lt_inv 2); [lia|lra]).
  assert (B2 : L - 1 < l + 1) by (apply (Qpow_lt_inv 2); [lia|lra]).
  unfold round64, round_to, round_at. fold l.
  set (j := fexp64 l).
  assert (J1 : j <= k) by (unfold j, k, fexp64; lia).
  assert (J2 : L - 53 <= j) by (unfold j, fexp64; lia).
  pose proof (Qpow_pos 2 j ltac:(lia)) as Pj.
  assert (Ek : (Qpow 2 k == inject_Z (2 ^ (k - j)) * Qpow 2 j)%Q).
  { apply Qpow_split; lia. }
  assert (Eq' : (inject_Z (m * 2 ^ (k - j)) * Qpow 2 j == q)%Q).
  { rewrite inject_Z_mult, <- Qmult_assoc, <- Ek. exact Hq. }
  assert (Top' : (Qpow 2 (L + 1) <= 18014398509481984 * Qpow 2 j)%Q).
  { rewrite (Qpow_split 2 (L + 1) j) by lia. apply Qmult_le_compat_r; [|lra].
    change (18014398509481984%Q) with (inject_Z (2 ^ 54)). rewrite <- Zle_Qle.
    apply Z.pow_le_mono_r; lia. }
  rewrite (half_even_near (m * 2 ^ (k - j))); [exact Eq'| |].
  - apply Qlt_shift_div_l; [exact Pj|].
    setoid_replace ((inject_Z (m * 2 ^ (k - j)) - (1 # 2)) * Qpow 2 j)%Q
      with (inject_Z (m * 2 ^ (k - j)) * Qpow 2 j - (1 # 2) * Qpow 2 j)%Q by ring.
    rewrite Eq'. lra.
  - apply Qlt_shift_div_r; [exact Pj|].
    setoid_replace ((inject_Z (m * 2 ^ (k - j)) + (1 # 2)) * Qpow 2 j)%Q
      with (inject_Z (m * 2 ^ (k - j)) * Qpow 2 j + (1 # 2) * Qpow 2 j)%Q by ring.
    rewrite Eq'. lra.
Qed.

(** ** The digits of [new Decimal(v)] *)

(** A decimal that the search finds has at most 18 digits. *)
Lemma shortest_at_digits (k : Z) (a d : Q) :
  (0 < a)%Q -> k <= 17 -> shortest_at k a = Some d ->
  exists n t, (d == inject_Z n * Qpow 10 t)%Q /\ (d < Qpow 10 (t + 18))%Q.
Proof.
  intros Pa K. unfold shortest_at.
  set (t := Qlog 10 a - (k - 1)). set (s := Qfloor (a / Qpow 10 t)).
  set (lo := (inject_Z s * Qpow 10 t)%Q). set (hi := (inject_Z (s + 1) * Qpow 10 t)%Q).
  pose proof (Qpow_pos 10 t ltac:(lia)) as Pt.
  assert (Hhi : (hi < Qpow 10 (t + 18))%Q).
  { destruct (Qlog_spec 10 a ltac:(lia) Pa) as [_ U].
    assert (A : (hi <= a + Qpow 10 t)%Q).
    { unfold hi. rewrite inject_Z_succ.
      assert (F : (inject_Z s * Qpow 10 t <= a / Qpow 10 t * Qpow 10 t)%Q)
        by (apply Qmult_le_compat_r; [apply Qfloor_le|lra]).
      assert (D : (a / Qpow 10 t * Qpow 10 t == a)%Q) by (field; lra).
      rewrite D in F.
      setoid_replace ((inject_Z s + 1) * Qpow 10 t)%Q
        with (Qpow 10 t * inject_Z s + Qpow 10 t)%Q by ring. lra. }
    pose proof (Qpow_le 10 (Qlog 10 a + 1) (t + 17) ltac:(lia) ltac:(lia)).
    pose proof (Qpow_le 10 t (t + 17) ltac:(lia) ltac:(lia)).
    assert (E : (Qpow 10 (t + 18) == 10 * Qpow 10 (t + 17))%Q).
    { replace (t + 18) with (1 + (t + 17)) by lia. rewrite Qpow_add by lia. reflexivity. }
    pose proof (Qpow_pos 10 (t + 17) ltac:(lia)). lra. }
  assert (Hlo : (lo < Qpow 10 (t + 18))%Q).
  { assert (lo <= hi)%Q; [|lra]. unfold lo, hi.
    apply Qmult_le_compat_r; [|lra]. rewrite <- Zle_Qle. lia. }
  assert (Lo : exists n t, (lo == inject_Z n * Qpow 10 t)%Q /\ (lo < Qpow 10 (t + 18))%Q)
    by (exists s, t; split; [reflexivity|exact Hlo]).
  assert (Hi : exists n t, (hi == inject_Z n * Qpow 10 t)%Q /\ (hi < Qpow 10 (t + 18))%Q)
    by (exists (s + 1), t; split; [reflexivity|exact Hhi]).
  destruct (Qeq_bool (round64 lo) a); destruct (Qeq_bool (round64 hi) a);
    try discriminate.
  - destruct (Qcompare (a - lo) (hi - a)); [destruct (Z.even s)| |];
      intros [= <-]; assumption.
  - intros [= <-]; assumption.
  - intros [= <-]; assumption.
Qed.

Lemma shortest_from_digits (fuel : nat) (k : Z) (a : Q) :
  (0 < a)%Q -> k + Z.of_nat fuel <= 18 ->
  shortest_from fuel k a = a \/
  exists n t, (shortest_from fuel k a == inject_Z n * Qpow 10 t)%Q /\
              (shortest_from fuel k a < Qpow 10 (t + 18))%Q.
Proof.
  intros Pa. revert k. induction fuel as [|f IH]; intros k K; cbn [shortest_from].
  - left. reflexivity.
  - destruct (shortest_at k a) as [d|] eqn:E.
    + right. apply (shortest_at_digits k a d Pa); [lia|exact E].
    + apply IH. lia.
Qed.

(** A positive binary64 value is a multiple of its unit, so not below it. *)
Lemma round64_min (q : Q) : (0 < q)%Q -> (round64 q == q)%Q -> (Qpow 2 (-1074) <= q)%Q.
Proof.
  intros Pq R.
  set (k := fexp64 (Qlog 2 q)). set (m := half_even (q / Qpow 2 k)).
  assert (Hq : (inject_Z m * Qpow 2 k == q)%Q) by exact R.
  pose proof (Qpow_pos 2 k ltac:(lia)) as Pk.
  assert (Pm : 1 <= m).
  { destruct (Z_lt_le_dec m 1) as [N|]; [|assumption]. exfalso.
    assert (inject_Z m <= inject_Z 0)%Q by (rewrite <- Zle_Qle; lia).
    change (inject_Z 0) with 0%Q in *.
    assert (inject_Z m * Qpow 2 k <= 0 * Qpow 2 k)%Q by (apply Qmult_le_compat_r; lra).
    lra. }
  assert (1 * Qpow 2 k <= inject_Z m * Qpow 2 k)%Q.
  { apply Qmult_le_compat_r; [|lra]. change 1%Q with (inject_Z 1). rewrite <- Zle_Qle. exact Pm. }
  pose proof (Qpow_le 2 (-1074) k ltac:(lia) ltac:(unfold k, fexp64; lia)).
  lra.
Qed.

(** The range of the decimal of a positive binary64 value. *)
Lemma shortest_range (a : Q) :
  (0 < a)%Q -> (round64 a == a)%Q -> Qle_bool (Qpow 2 1024) a = false ->
  (Qpow 10 (-390) <= shortest a)%Q /\ (shortest a <= Qpow 10 390)%Q.
Proof.
  intros Pa R O.
  pose proof (shortest_pos a Pa R) as PS.
  pose proof (shortest_spec a R) as S.
  destruct (round64_err (shortest a) PS) as [E1 E2]. rewrite S in E1, E2.
  pose proof (round64_min a Pa R) as M.
  apply Qle_bool_false in O.
  assert (T1 : (Qpow 2 (-1074) == 2 * Qpow 2 (-1075))%Q) by reflexivity.
  assert (T2 : (Qpow 10 (-390) <= (1 # 4) * Qpow 2 (-1075))%Q)
    by (apply Qle_bool_iff; vm_compute; reflexivity).
  assert (T3 : (4 * Qpow 2 1024 <= Qpow 10 390)%Q)
    by (apply Qle_bool_iff; vm_compute; reflexivity).
  assert (T4 : (Qpow 2 (-1075) <= Qpow 2 1024)%Q) by (apply Qpow_le; lia).
  pose proof (Qpow_pos 2 (-1075) ltac:(lia)) as P5.
  unfold u53 in *.
  set (e := Qpow 2 (-1075)) in *. set (h := Qpow 2 1024) in *.
  set (lo := Qpow 10 (-390)) in *. set (hi := Qpow 10 390) in *.
  clearbody e h lo hi. split; lra.
Qed.

Lemma shortest_digits (a : Q) : (0 < a)%Q ->
  shortest a = a \/
  exists n t, (shortest a == inject_Z n * Qpow 10 t)%Q /\ (shortest a < Qpow 10 (t + 18))%Q.
Proof. intros Pa. apply shortest_from_digits; [exact Pa|cbn; lia]. Qed.

(** Rounding the decimal of a binary64 value to 28 digits does not change
    the number it converts to. *)
Lemma shortest_round28 (a : Q) :
  (0 < a)%Q -> (round64 a == a)%Q -> (round64 (round28 (shortest a)) == a)%Q.
Proof.
  intros Pa R. pose proof (shortest_pos a Pa R) as PS.
  destruct (shortest_digits a Pa) as [E | (n & t & E & U)].
  - rewrite E. destruct (round28_err a Pa) as [E1 E2]. unfold u28 in *.
    apply round64_near; [exact Pa|exact R| |]; lra.
  - rewrite (round64_comp (round28 (shortest a)) (shortest a)).
    + apply shortest_spec, R.
    + apply round28_pos, PS.
    + apply (round28_fix_digits n t); [exact E|exact PS|].
      pose proof (Qpow_lt 10 (t + 18) (t + 28) ltac:(lia) ltac:(lia)). lra.
Qed.

(** The same after a multiplication by 100 and a division by 100, each
    rounded to 28 digits. *)
Lemma shortest_round28_100 (a r : Q) :
  (0 < a)%Q -> (round64 a == a)%Q -> (r == round28 (shortest a * 100))%Q ->
  (round64 (round28 (r / 100)) == a)%Q.
Proof.
  intros Pa R Er. pose proof (shortest_pos a Pa R) as PS.
  assert (P100 : (0 < shortest a * 100)%Q) by lra.
  pose proof (round28_pos _ P100) as Pr. rewrite <- Er in Pr.
  assert (Pd : (0 < r / 100)%Q) by (apply Qlt_shift_div_l; lra).
  destruct (shortest_digits a Pa) as [E | (n & t & E & U)].
  - rewrite E in *. destruct (round28_err _ P100) as [E1 E2]. rewrite <- Er in E1, E2.
    destruct (round28_err _ Pd) as [E3 E4]. unfold u28 in *.
    assert (D : (r / 100 == r * (1 # 100))%Q) by (field; lra).
    set (z := (r / 100)%Q) in *. set (w := round28 z) in *. clearbody w z.
    apply round64_near; [exact Pa|exact R| |]; lra.
  - assert (F : (round28 (shortest a * 100) == shortest a * 100)%Q).
    { apply (round28_fix_digits (n * 100) t); [|exact P100|].
      - rewrite inject_Z_mult, E. change (inject_Z 100) with 100%Q. ring.
      - assert (T : (Qpow 10 (t + 28) == 10000000000 * Qpow 10 (t + 18))%Q).
        { replace (t + 28) with (10 + (t + 18)) by lia. rewrite Qpow_add by lia. reflexivity. }
        pose proof (Qpow_pos 10 (t + 18) ltac:(lia)). lra. }
    assert (D : (r / 100 == shortest a)%Q) by (rewrite Er, F; field).
    rewrite (round64_comp (round28 (r / 100)) (shortest a)).
    + apply shortest_spec, R.
    + apply round28_pos, Pd.
    + rewrite (round28_comp _ _ Pd D).
      apply (round28_fix_digits n t); [exact E|exact PS|].
      pose proof (Qpow_lt 10 (t + 18) (t + 28) ltac:(lia) ltac:(lia)). lra.
Qed.

(** [finalise] on a signed magnitude in the range of the numbers. *)
Lemma finalise_signed (s : bool) (S : Q) :
  (Qpow 10 (-390) <= S)%Q -> (S <= Qpow 10 390)%Q ->
  finalise (with_sign s S) = DFin (Qred (with_sign s (round28 S))).
Proof.
  intros Lo Hi. pose proof (Qpow_pos 10 (-390) ltac:(lia)) as P.
  assert (PS : (0 < S)%Q) by lra.
  destruct s; cbn [with_sign]; [|apply (finalise_in_range (-390) 390); [lia|lia|assumption|assumption]].
  destruct (round28_exponent (-390) 390 S ltac:(lia) ltac:(lia) Lo Hi) as [X1 X2].
  unfold finalise.
  assert (N : Qeq_bool (- S) 0 = false) by (apply Qeq_bool_false; lra).
  rewrite N.
  assert (A : (Qabs (- S) == S)%Q) by (rewrite Qabs_opp; apply Qabs_pos; lra).
  assert (PA : (0 < Qabs (- S))%Q) by lra.
  pose proof (round28_comp _ _ PA A) as RA.
  rewrite (Qlog_comp 10 _ _ ltac:(lia) (round28_pos _ PA) RA), X1, X2.
  f_equal. apply Qred_complete.
  assert (Sg : Qneg (- S) = true).
  { unfold Qneg. destruct (Qle_bool 0 (- S)) eqn:B; [|reflexivity].
    apply Qle_bool_iff in B. lra. }
  rewrite Sg. cbn [with_sign]. rewrite RA. reflexivity.
Qed.

(** ** [new Decimal(v).times(1).toNumber()] is [v] *)

Lemma Decimal_mul_one (x : number) : is_double x = true ->
  toNumber (Decimal_mul (of_number x) (DFin 1)) = x.
Proof.
  destruct x as [|s|q]; [reflexivity|destruct s; reflexivity|].
  intros D. cbn [of_number].
  destruct (Qeq_bool q 0) eqn:Z.
  - cbn [Decimal_mul]. rewrite finalise_zero by reflexivity. cbn [toNumber].
    apply Qeq_bool_iff in Z. rewrite to_double_zero. f_equal. symmetry.
    apply is_double_eq; [exact D|reflexivity|exact Z].
  - apply is_double_Fin in D. apply Qeq_bool_false in Z.
    destruct (is_double_round64 q Z D) as [R O].
    pose proof (Qabs_pos_iff q Z) as Ap.
    destruct (shortest_range _ Ap R O) as [Lo Hi].
    pose proof (shortest_pos _ Ap R) as PS.
    cbn [Decimal_mul].
    rewrite (finalise_comp _ (with_sign (Qneg q) (shortest (Qabs q)))).
    2:{ rewrite Qred_correct. ring. }
    rewrite finalise_signed by assumption.
    cbn [toNumber]. rewrite <- D.
    rewrite (to_double_comp _ _ (Qred_correct _)).
    rewrite (to_double_comp q _ (Qeq_sym _ _ (with_sign_abs q))).
    apply to_double_signed; [exact Ap|apply round28_pos, PS|].
    rewrite R. apply shortest_round28; assumption.
Qed.

Lemma toNumber_is_double (d : Decimal) : is_double (toNumber d) = true.
Proof. destruct d; [reflexivity|reflexivity|apply to_double_is_double]. Qed.

Lemma getNumericValue_is_double (raw : string) : is_double (getNumericValue raw) = true.
Proof. apply toNumber_is_double. Qed.


(** ** The decimal of a positive number *)

Lemma finalise_times_100 (S : Q) : (Qpow 10 (-390) <= S)%Q -> (S <= Qpow 10 390)%Q ->
  finalise (S * 100) = DFin (Qred (round28 (S * 100))).
Proof.
  intros Lo Hi.
  pose proof (Qpow_pos 10 (-390) ltac:(lia)) as P390.
  assert (T1 : (Qpow 10 (-392) <= Qpow 10 (-390))%Q) by (apply Qpow_le; lia).
  assert (T2 : (100 * Qpow 10 390 == Qpow 10 392)%Q).
  { change 392 with (2 + 390). rewrite Qpow_add by lia. reflexivity. }
  apply (finalise_in_range (-392) 392); try lia; lra.
Qed.

Lemma finalise_over_100 (S r : Q) : (Qpow 10 (-390) <= S)%Q -> (S <= Qpow 10 390)%Q ->
  (r == round28 (S * 100))%Q ->
  finalise (r / 100) = DFin (Qred (round28 (r / 100))) /\ (0 < r / 100)%Q.
Proof.
  intros Lo Hi Er.
  pose proof (Qpow_pos 10 (-390) ltac:(lia)) as P390.
  destruct (round28_err (S * 100) ltac:(lra)) as [E1 E2].
  rewrite <- Er in E1, E2. unfold u28 in E1, E2.
  assert (Dv : (r / 100 == r * (1 # 100))%Q) by (field; lra).
  assert (T3 : (Qpow 10 (-391) <= (1 # 2) * Qpow 10 (-390))%Q).
  { change (-390) with (1 + -391). rewrite Qpow_add by lia.
    pose proof (Qpow_pos 10 (-391) ltac:(lia)).
    change (Qpow 10 1) with 10%Q. lra. }
  assert (T4 : (2 * Qpow 10 390 <= Qpow 10 391)%Q).
  { change 391 with (1 + 390). rewrite Qpow_add by lia.
    pose proof (Qpow_pos 10 390 ltac:(lia)).
    change (Qpow 10 1) with 10%Q. lra. }
  split; [apply (finalise_in_range (-391) 391); try lia; lra|lra].
Qed.

Lemma of_number_positive (c : Q) : is_double (Fin c) = true -> (0 < c)%Q ->
  exists C, of_number (Fin c) = DFin C /\
    (Qpow 10 (-390) <= C)%Q /\ (C <= Qpow 10 390)%Q /\
    toNumber (Decimal_div (Decimal_mul (DFin C) (DFin 100)) (DFin 100)) = Fin c.
Proof.
  intros D Pc. apply is_double_Fin in D.
  destruct (is_double_round64 c ltac:(lra) D) as [R O].
  assert (Ea : (Qabs c == c)%Q) by (apply Qabs_pos; lra).
  assert (Pa : (0 < Qabs c)%Q) by lra.
  destruct (shortest_range _ Pa R O) as [Lo Hi].
  pose proof (shortest_pos _ Pa R) as PS.
  exists (Qred (shortest (Qabs c))).
  assert (Z : Qeq_bool c 0 = false) by (apply Qeq_bool_false; lra).
  assert (Sg : Qneg c = false) by (apply Qneg_false; lra).
  split; [|split; [|split]].
  - cbn [of_number]. rewrite Z, Sg. reflexivity.
  - rewrite Qred_correct. exact Lo.
  - rewrite Qred_correct. exact Hi.
  - cbn [Decimal_mul].
    rewrite (finalise_comp _ (shortest (Qabs c) * 100)) by (rewrite Qred_correct; reflexivity).
    rewrite (finalise_times_100 _ Lo Hi).
    cbn [Decimal_div]. replace (Qeq_bool 100 0) with false by reflexivity.
    destruct (finalise_over_100 _ _ Lo Hi (Qred_correct _)) as [F Pr].
    rewrite F. cbn [toNumber]. rewrite (to_double_comp _ _ (Qred_correct _)).
    rewrite <- D. rewrite (to_double_comp c _ (Qeq_sym _ _ Ea)).
    apply (to_double_signed false); [exact Pa|apply round28_pos; exact Pr|].
    eapply Qeq_trans; [|symmetry; exact R].
    apply (shortest_round28_100 _ _ Pa R (Qred_correct _)).
Qed.


(** ** Positive decimals of moderate magnitude *)



(** * The properties of the specification *)

(** ** C1: the concrete scenario *)

(** C1 (as amended).  For salary 80000, no other income, no existing loans,
    project cost 1800000, equity 10 percent, rate 9.0, 240 months, scenario
    normal and the grace period over, the bank finance amount is 1620000, the
    total income 80000, the total expenditure 28000 (the 35 percent rate), the
    repayment after grace is 14575.560484772803, that is 14575.56 to the
    cent, and the DSCR is the net income over that repayment. *)
Theorem concrete_scenario (pow_other : Decimal -> number -> Decimal) :
  let r := performCalculations pow_other concrete_input normal true in
  Calculations.bankFinanceAmount r = Fin 1620000 /\
  Calculations.totalIncome r = Fin 80000 /\
  Calculations.totalExpenditure r = Fin 28000 /\
  of_number (Calculations.afterGraceRepayment r) = DFin (14575560484772803 # 1000000000000) /\
  within (1 # 200) (Calculations.afterGraceRepayment r) (1457556 # 100) = true /\
  Calculations.netIncome r = Fin 50900 /\
  Calculations.dscr r =
    decimal_quotient (Calculations.netIncome r) (Calculations.afterGraceRepayment r).
Proof.
  vm_compute. repeat split; reflexivity.
Qed.

(** C1, the stated value: the repayment after grace is not within a quarter
    of a unit of 14575.19. *)
Lemma concrete_scenario_not_14575_19 :
  within (1 # 4)
    (Calculations.afterGraceRepayment
       (performCalculations pow_other_nan concrete_input normal true))
    (1457519 # 100) = false.
Proof. vm_compute. reflexivity. Qed.

(** ** C2: the tax loop and the bracket integration *)

(** C2 (as amended).  For every annual income up to
    [Number.MAX_SAFE_INTEGER], [calculateIncomeTax] is the progressive
    bracket integration over the five-bracket table with the last bracket
    unbounded, divided by 12; and [calculateIncomeTax(0) = 0]. *)
Theorem calculateIncomeTax_bracket_integration (annualIncome : number) :
  is_double annualIncome = true ->
  number_le annualIncome MAX_SAFE_INTEGER = true ->
  calculateIncomeTax annualIncome = Spec.incomeTax annualIncome /\
  calculateIncomeTax (lit 0) = Fin 0.
Proof.
  intros D H. split.
  - apply calculateIncomeTax_refines; assumption.
  - vm_compute. reflexivity.
Qed.

Lemma calculateIncomeTax_bracket_integration_witness :
  is_double (lit 1500000) = true /\
  number_le (lit 1500000) MAX_SAFE_INTEGER = true /\
  calculateIncomeTax (lit 1500000) = Spec.incomeTax (lit 1500000) /\
  calculateIncomeTax (lit 0) = Fin 0.
Proof.
  split; [vm_compute; reflexivity|]. split; [vm_compute; reflexivity|].
  apply (calculateIncomeTax_bracket_integration (lit 1500000));
    vm_compute; reflexivity.
Defined.

(** C2, as stated: at the annual income 10000000000000000 the code taxes the
    last bracket only up to [Number.MAX_SAFE_INTEGER] and returns
    112589990666462.39, where the integration with an unbounded last bracket
    gives 124999999982200. *)
Lemma calculateIncomeTax_caps_last_bracket :
  number_le (lit 0) (lit 10000000000000000) = true /\
  of_number (calculateIncomeTax (lit 10000000000000000)) =
    DFin (11258999066646239 # 100) /\
  Spec.incomeTax (lit 10000000000000000) = Fin 124999999982200 /\
  number_eq (calculateIncomeTax (lit 10000000000000000))
            (Spec.incomeTax (lit 10000000000000000)) = false.
Proof. vm_compute. repeat split; reflexivity. Qed.

(** ** C3: the zero-rate branch *)

(** C3.  For every principal [P >= 0] and every tenure [n > 0],
    [calculateEMI(P, 0, n)] is [P / n]: the rate 0 takes the straight-line
    branch, and the amortization formula, with its division, is not
    evaluated. *)
Theorem calculateEMI_zero_rate
  (pow_other : Decimal -> number -> Decimal) (P n : number) :
  number_le (lit 0) P = true -> number_gt n (lit 0) = true ->
  calculateEMI pow_other P (lit 0) n = decimal_quotient P n.
Proof.
  intros _ _. unfold calculateEMI, decimal_quotient.
  replace (Decimal_isZero
             (Decimal_div (Decimal_div (of_number (lit 0)) (of_number (lit 100)))
                          (of_number (lit 12))))
    with true by (vm_compute; reflexivity).
  reflexivity.
Qed.

Lemma calculateEMI_zero_rate_witness :
  number_le (lit 0) (lit 1200000) = true /\
  number_gt (lit 240) (lit 0) = true /\
  calculateEMI pow_other_nan (lit 1200000) (lit 0) (lit 240) = Fin 5000.
Proof.
  split; [vm_compute; reflexivity|]. split; [vm_compute; reflexivity|].
  rewrite (calculateEMI_zero_rate pow_other_nan (lit 1200000) (lit 240));
    vm_compute; reflexivity.
Defined.

(** ** C4: the guard of the DSCR *)








(** ** C5: project income during the grace period *)

(** C5.  With [graceState = false] the total project income of the result is
    0, whatever the project income entered and whatever the scenario. *)
Theorem totalProjectIncome_during_grace
  (pow_other : Decimal -> number -> Decimal)
  (formData : FormDataStrings.t) (scenario : Scenario) :
  Calculations.totalProjectIncome
    (performCalculations pow_other formData scenario false) = Fin 0.
Proof. reflexivity. Qed.

(** ** C6: the scenario does not reach the cost side *)

(** C6.  For a fixed input and grace state, the bank finance amount of the
    result and the equity amount are the same under [normal] and under
    [income_reduce]: both are computed from the project cost and the equity
    percentage as entered. *)
Theorem scenario_invariance_of_cost
  (pow_other : Decimal -> number -> Decimal)
  (formData : FormDataStrings.t) (isAfterGrace : bool) :
  let cost := getNumericValue (FormDataStrings.totalProjectCost formData) in
  let equity := getNumericValue (FormDataStrings.equityPercentage formData) in
  Calculations.bankFinanceAmount
    (performCalculations pow_other formData normal isAfterGrace) =
  Calculations.bankFinanceAmount
    (performCalculations pow_other formData income_reduce isAfterGrace) /\
  Calculations.bankFinanceAmount
    (performCalculations pow_other formData normal isAfterGrace) =
  calculateBankFinanceAmount cost equity /\
  Derived.equityAmount
    (derivedValues (HookState.Build formData isAfterGrace normal)) =
  Derived.equityAmount
    (derivedValues (HookState.Build formData isAfterGrace income_reduce)) /\
  Derived.equityAmount
    (derivedValues (HookState.Build formData isAfterGrace normal)) =
  calculateEquityAmount cost equity.
Proof. repeat split. Qed.

(** ** C7: the equity complement *)

(** C7 (as amended).  For every finite project cost [>= 0] and every equity
    percentage in [0, 100], the bank finance amount and the equity amount
    are finite and their sum differs from the cost by at most
    [cost * 2^-51 + 2^-1073], the rounding of the binary64 results. *)
Theorem equity_complement (cost equity : number) :
  is_double cost = true -> is_double equity = true ->
  number_le (lit 0) cost = true -> number_lt cost (Inf false) = true ->
  number_le (lit 0) equity = true -> number_le equity (lit 100) = true ->
  complement_within (binary64_tolerance cost) cost equity = true.
Proof.
  intros Dc De C0 Cf E0 E1.
  destruct (equity_complement_holds cost equity Dc De C0 Cf E0 E1)
    as (c & b & q & -> & Eb & Eq & H).
  unfold complement_within. rewrite Eb, Eq. cbn [binary64_tolerance].
  apply Qle_bool_iff, H.
Qed.

Lemma equity_complement_witness :
  is_double (lit 1) = true /\ is_double (lit (1 # 3)) = true /\
  number_le (lit 0) (lit 1) = true /\ number_lt (lit 1) (Inf false) = true /\
  number_le (lit 0) (lit (1 # 3)) = true /\ number_le (lit (1 # 3)) (lit 100) = true /\
  complement_within (binary64_tolerance (lit 1)) (lit 1) (lit (1 # 3)) = true.
Proof.
  repeat (split; [vm_compute; reflexivity|]).
  apply (equity_complement (lit 1) (lit (1 # 3))); vm_compute; reflexivity.
Defined.

(** C7, as stated.  At cost 1 and equity 0.3333333333333333 percent the two
    amounts are 0.9966666666666667 and 0.003333333333333333: their sum is
    not within a unit in the 28th digit of the cost.  At cost 1 and equity
    1000000000000000000 percent the amounts are -10000000000000000 and
    10000000000000000: their sum is 0. *)
Lemma equity_complement_not_to_28_digits :
  of_number (calculateBankFinanceAmount (lit 1) (lit (1 # 3))) =
    DFin (9966666666666667 # 10000000000000000) /\
  of_number (calculateEquityAmount (lit 1) (lit (1 # 3))) =
    DFin (3333333333333333 # 1000000000000000000) /\
  complement_within (decimal_tolerance (lit 1)) (lit 1) (lit (1 # 3)) = false /\
  calculateBankFinanceAmount (lit 1) (lit 1000000000000000000) =
    Fin (-10000000000000000) /\
  calculateEquityAmount (lit 1) (lit 1000000000000000000) = Fin 10000000000000000 /\
  complement_within (binary64_tolerance (lit 1)) (lit 1) (lit 1000000000000000000) = false.
Proof. vm_compute. repeat split; reflexivity. Qed.

(** ** C8: the tax is monotone *)

(** C8.  For all annual incomes [a] and [b] with [0 <= a < b],
    [calculateIncomeTax(a) <= calculateIncomeTax(b)]. *)
Theorem calculateIncomeTax_monotone (a b : number) :
  is_double a = true -> is_double b = true ->
  number_le (lit 0) a = true -> number_lt a b = true ->
  number_le (calculateIncomeTax a) (calculateIncomeTax b) = true.
Proof. apply calculateIncomeTax_mono. Qed.

Lemma calculateIncomeTax_monotone_witness :
  is_double (lit 900000) = true /\ is_double (lit 1500000) = true /\
  number_le (lit 0) (lit 900000) = true /\
  number_lt (lit 900000) (lit 1500000) = true /\
  number_le (calculateIncomeTax (lit 900000)) (calculateIncomeTax (lit 1500000)) = true.
Proof.
  repeat (split; [vm_compute; reflexivity|]).
  apply (calculateIncomeTax_monotone (lit 900000) (lit 1500000));
    vm_compute; reflexivity.
Defined.

(** ** C9: [getNumericValue] *)


(** ** C10: the repayments depend on neither scenario nor grace state *)

(** C10.  For a fixed input, the repayment after grace, the repayment during
    grace and the bank finance amount are the same for all four combinations
    of scenario and grace state. *)
Theorem repayments_independent
  (pow_other : Decimal -> number -> Decimal) (formData : FormDataStrings.t)
  (s1 s2 : Scenario) (g1 g2 : bool) :
  let r1 := performCalculations pow_other formData s1 g1 in
  let r2 := performCalculations pow_other formData s2 g2 in
  Calculations.afterGraceRepayment r1 = Calculations.afterGraceRepayment r2 /\
  Calculations.gracePeriodRepayment r1 = Calculations.gracePeriodRepayment r2 /\
  Calculations.bankFinanceAmount r1 = Calculations.bankFinanceAmount r2.
Proof. repeat split. Qed.

(** * Further properties of the code *)

From Stdlib Require DecimalString DecimalN.

(** ** The income tax: exempt incomes and the bound *)

(** An income that exceeds no lower bound pays no tax. *)
Lemma calculateIncomeTax_below (a : number) :
  (forall m, (0 <= m)%Q -> Decimal_gt (of_number a) (DFin m) = false) ->
  calculateIncomeTax a = Fin 0.
Proof.
  intros G. unfold calculateIncomeTax.
  replace (of_number (lit 0)) with (DFin 0) by (vm_compute; reflexivity).
  replace (of_number (lit 12)) with (DFin 12) by (vm_compute; reflexivity).
  rewrite taxStep_brackets. unfold bracketStep.
  rewrite !G by lra. reflexivity.
Qed.

Lemma of_number_not_above (a : number) :
  is_double a = true -> number_le a (lit 0) = true ->
  forall m, (0 <= m)%Q -> Decimal_gt (of_number a) (DFin m) = false.
Proof.
  intros D L m Hm. change (lit 0) with (Fin 0) in L.
  destruct a as [|[]|q]; try discriminate; try reflexivity.
  apply number_le_Fin in L.
  destruct (of_number (Fin q)) as [| |d] eqn:E.
  - reflexivity.
  - cbn [of_number] in E. destruct (Qeq_bool q 0); discriminate.
  - pose proof (of_number_nonpos q d D L E).
    unfold Decimal_gt. apply Decimal_lt_Fin_false. lra.
Qed.

Lemma Dle_zero (x : Decimal) : Dnn x -> Dle (DFin 0) x.
Proof. destruct x as [|[]|q]; cbn; auto; try discriminate. Qed.

(** The monthly tax as a function of the decimal income. *)
Lemma taxTotal_number (x y : Decimal) : Dnn x -> Dle x y ->
  let tax i := toNumber (Decimal_div (fold_left (taxStep i) taxBrackets (DFin 0)) (DFin 12)) in
  number_le (Fin 0) (tax x) = true /\ number_le (tax x) (tax y) = true.
Proof.
  intros N L tax. subst tax. cbv beta.
  destruct (taxTotal_mono _ _ N L) as [NT LT]. cbv beta zeta in NT, LT.
  split.
  - rewrite <- to_double_zero. change (to_double 0) with (toNumber (DFin 0)).
    apply toNumber_mono; [cbn; lra|].
    apply Dle_zero, Decimal_div_nn; [assumption|lra].
  - apply toNumber_mono.
    + apply Decimal_div_nn; [assumption|lra].
    + apply Decimal_div_mono; [lra|assumption|assumption].
Qed.

Lemma calculateIncomeTax_total (a : number) :
  calculateIncomeTax a =
  toNumber (Decimal_div (fold_left (taxStep (of_number a)) taxBrackets (DFin 0)) (DFin 12)).
Proof. reflexivity. Qed.

(** No tax up to the first threshold. *)
Lemma calculateIncomeTax_first_bracket (a : number) :
  is_double a = true -> number_le a (lit 720000) = true ->
  calculateIncomeTax a = lit 0.
Proof.
  intros D L. change (lit 0) with (Fin 0).
  destruct (number_le a (lit 0)) eqn:Z.
  { apply calculateIncomeTax_below, of_number_not_above; assumption. }
  change (lit 0) with (Fin 0) in Z.
  replace (lit 720000) with (Fin 720000) in L by (vm_compute; reflexivity).
  destruct a as [|[]|q]; try discriminate.
  apply number_le_Fin in L.
  assert (Pq : (0 < q)%Q).
  { destruct (Qlt_le_dec 0 q) as [|N]; [assumption|].
    apply number_le_Fin in N. congruence. }
  assert (D7 : is_double (Fin 720000) = true) by (vm_compute; reflexivity).
  pose proof (of_number_nn q D ltac:(lra)) as N.
  pose proof (of_number_mono q 720000 D D7 ltac:(lra) L) as M.
  destruct (taxTotal_number _ _ N M) as [T0 T1]. cbv beta zeta in T0, T1.
  change (number_le (Fin 0) (calculateIncomeTax (Fin q)) = true) in T0.
  change (number_le (calculateIncomeTax (Fin q)) (calculateIncomeTax (Fin 720000)) = true)
    in T1.
  replace (calculateIncomeTax (Fin 720000)) with (Fin 0) in T1 by (vm_compute; reflexivity).
  assert (Dt : is_double (calculateIncomeTax (Fin q)) = true)
    by (rewrite calculateIncomeTax_total; apply toNumber_is_double).
  clear D7 M N.
  destruct (calculateIncomeTax (Fin q)) as [|[]|t]; try discriminate.
  apply number_le_Fin in T0, T1. f_equal.
  apply is_double_eq; [exact Dt|reflexivity|lra].
Qed.

(** X1.  [calculateIncomeTax] is 0 for every annual income up to 720000, the
    upper bound of the bracket taxed at 0 percent; negative incomes and
    [-Infinity] are among them. *)
Theorem calculateIncomeTax_exempt (a : number) :
  is_double a = true -> number_le a (lit 720000) = true ->
  calculateIncomeTax a = lit 0.
Proof. apply calculateIncomeTax_first_bracket. Qed.

Lemma calculateIncomeTax_exempt_witness :
  is_double (lit 500000) = true /\ number_le (lit 500000) (lit 720000) = true /\
  calculateIncomeTax (lit 500000) = lit 0.
Proof.
  split; [vm_compute; reflexivity|]. split; [vm_compute; reflexivity|].
  apply calculateIncomeTax_exempt; vm_compute; reflexivity.
Defined.

Lemma number_le_trans_Fin (x : number) (a b : Q) :
  number_le x (Fin a) = true -> (a <= b)%Q -> number_le x (Fin b) = true.
Proof.
  destruct x as [|[]|q]; try discriminate; try reflexivity.
  rewrite !number_le_Fin. lra.
Qed.

(** X2.  Whatever number [calculateIncomeTax] is given, [NaN] and the
    infinities included, the monthly tax it returns is a finite number from
    0 to 112589990666462.39, the tax of an infinite income: the last bracket
    is capped at [Number.MAX_SAFE_INTEGER]. *)
Theorem calculateIncomeTax_bounded (a : number) :
  is_double a = true ->
  number_le (lit 0) (calculateIncomeTax a) = true /\
  number_le (calculateIncomeTax a) (lit (11258999066646239 # 100)) = true.
Proof.
  intros D.
  destruct (number_le a (lit 0)) eqn:Z.
  { rewrite (calculateIncomeTax_below a (of_number_not_above a D Z)).
    split; vm_compute; reflexivity. }
  destruct a as [|[]|q]; try discriminate.
  - rewrite calculateIncomeTax_below by reflexivity. split; vm_compute; reflexivity.
  - split; vm_compute; reflexivity.
  - change (lit 0) with (Fin 0) in *.
    assert (Pq : (0 < q)%Q).
    { destruct (Qlt_le_dec 0 q) as [|N]; [assumption|].
      apply number_le_Fin in N. congruence. }
    pose proof (of_number_nn q D ltac:(lra)) as N.
    destruct (taxTotal_number _ _ N (Dle_top _ N)) as [T0 T1]. cbv beta zeta in T0, T1.
    change (number_le (Fin 0) (calculateIncomeTax (Fin q)) = true) in T0.
    split; [exact T0|].
    replace (lit (11258999066646239 # 100))
      with (toNumber (Decimal_div (fold_left (taxStep (DInf false)) taxBrackets (DFin 0))
                        (DFin 12))) by (vm_compute; reflexivity).
    exact T1.
Qed.

Lemma calculateIncomeTax_bounded_witness :
  is_double (lit 3000000) = true /\
  number_le (lit 0) (calculateIncomeTax (lit 3000000)) = true /\
  number_le (calculateIncomeTax (lit 3000000)) (lit (11258999066646239 # 100)) = true.
Proof.
  split; [vm_compute; reflexivity|].
  apply calculateIncomeTax_bounded. vm_compute; reflexivity.
Defined.

(** ** The scenario multipliers *)

(** X3.  In the normal scenario [applyScenarioMultipliers] returns the four
    incomes as they are: multiplying the decimal of a number by 1 and
    converting back gives the number, also for [NaN], the infinities and
    negative numbers. *)
Theorem applyScenarioMultipliers_normal (formData : FormData.t) :
  is_double (FormData.salary formData) = true ->
  is_double (FormData.rent formData) = true ->
  is_double (FormData.other formData) = true ->
  is_double (FormData.projectIncome formData) = true ->
  applyScenarioMultipliers formData normal =
  {| Adjusted.adjustedSalary := FormData.salary formData;
     Adjusted.adjustedRent := FormData.rent formData;
     Adjusted.adjustedOther := FormData.other formData;
     Adjusted.adjustedProjectIncome := FormData.projectIncome formData |}.
Proof.
  intros D1 D2 D3 D4. unfold applyScenarioMultipliers.
  replace (of_number (lit 1)) with (DFin 1) by (vm_compute; reflexivity).
  rewrite !Decimal_mul_one by assumption. reflexivity.
Qed.

(** A non-negative number scaled by a factor in (0, 1]. *)
Lemma scale_down (x : number) (r : Q) :
  is_double x = true -> number_le (Fin 0) x = true -> (0 < r)%Q -> (r <= 1)%Q ->
  number_le (Fin 0) (toNumber (Decimal_mul (of_number x) (DFin r))) = true /\
  number_le (toNumber (Decimal_mul (of_number x) (DFin r))) x = true.
Proof.
  intros D H0 R0 R1.
  assert (Z : Qeq_bool r 0 = false) by (apply Qeq_bool_false; lra).
  assert (Sg : Qneg r = false) by (apply Qneg_false; lra).
  destruct x as [|[]|q]; try discriminate.
  - cbn [of_number Decimal_mul]. rewrite Z, Sg. split; reflexivity.
  - apply number_le_Fin in H0.
    pose proof (Decimal_mul_one (Fin q) D) as One.
    pose proof (of_number_nn q D H0) as N.
    destruct (of_number (Fin q)) as [| |d]; try contradiction.
    { cbn [Dnn] in N. subst. cbn [Decimal_mul] in One. discriminate. }
    cbn [Dnn] in N. cbn [Decimal_mul] in *.
    assert (A : (0 <= d * r)%Q) by (apply Qmult_le_0_compat; lra).
    assert (B : (d * r <= d * 1)%Q) by (apply Qmult_le_l_weak; lra).
    split.
    + rewrite <- to_double_zero. change (to_double 0) with (toNumber (DFin 0)).
      apply toNumber_mono; [cbn; lra|]. apply Dle_zero, finalise_nonneg, A.
    + rewrite <- One.
      apply toNumber_mono; [apply finalise_nonneg, A|apply finalise_mono; assumption].
Qed.

(** X4.  In the scenario [income_reduce] each adjusted income is between 0 and
    the income entered, for incomes that are not negative. *)
Theorem applyScenarioMultipliers_income_reduce (formData : FormData.t) :
  let adjusted := applyScenarioMultipliers formData income_reduce in
  is_double (FormData.salary formData) = true ->
  is_double (FormData.rent formData) = true ->
  is_double (FormData.other formData) = true ->
  is_double (FormData.projectIncome formData) = true ->
  number_le (lit 0) (FormData.salary formData) = true ->
  number_le (lit 0) (FormData.rent formData) = true ->
  number_le (lit 0) (FormData.other formData) = true ->
  number_le (lit 0) (FormData.projectIncome formData) = true ->
  (number_le (lit 0) (Adjusted.adjustedSalary adjusted) = true /\
   number_le (Adjusted.adjustedSalary adjusted) (FormData.salary formData) = true) /\
  (number_le (lit 0) (Adjusted.adjustedRent adjusted) = true /\
   number_le (Adjusted.adjustedRent adjusted) (FormData.rent formData) = true) /\
  (number_le (lit 0) (Adjusted.adjustedOther adjusted) = true /\
   number_le (Adjusted.adjustedOther adjusted) (FormData.other formData) = true) /\
  (number_le (lit 0) (Adjusted.adjustedProjectIncome adjusted) = true /\
   number_le (Adjusted.adjustedProjectIncome adjusted)
             (FormData.projectIncome formData) = true).
Proof.
  intros adjusted D1 D2 D3 D4 H1 H2 H3 H4.
  subst adjusted. cbv zeta. unfold applyScenarioMultipliers.
  cbn [Adjusted.adjustedSalary Adjusted.adjustedRent Adjusted.adjustedOther
       Adjusted.adjustedProjectIncome].
  replace (of_number (lit (8 # 10))) with (DFin (4 # 5)) by (vm_compute; reflexivity).
  change (lit 0) with (Fin 0) in *.
  repeat split; apply scale_down; try assumption; lra.
Qed.

Lemma applyScenarioMultipliers_income_reduce_witness :
  let formData :=
    {| FormData.salary := lit 80000; FormData.rent := lit 1500; FormData.other := lit 0;
       FormData.projectIncome := lit 25000; FormData.existingLoans := lit 0;
       FormData.totalProjectCost := lit 1800000; FormData.equityPercentage := lit 10;
       FormData.rate := lit 9; FormData.repaymentPeriod := lit 240;
       FormData.gracePeriod := lit 0 |} in
  number_le (Adjusted.adjustedSalary (applyScenarioMultipliers formData income_reduce))
            (FormData.salary formData) = true.
Proof.
  intros formData.
  apply (applyScenarioMultipliers_income_reduce formData); vm_compute; reflexivity.
Defined.

Lemma applyScenarioMultipliers_normal_witness :
  let formData :=
    {| FormData.salary := lit 80000; FormData.rent := lit 1500; FormData.other := lit 0;
       FormData.projectIncome := lit 25000; FormData.existingLoans := lit 0;
       FormData.totalProjectCost := lit 1800000; FormData.equityPercentage := lit 10;
       FormData.rate := lit 9; FormData.repaymentPeriod := lit 240;
       FormData.gracePeriod := lit 0 |} in
  Adjusted.adjustedSalary (applyScenarioMultipliers formData normal) = lit 80000.
Proof.
  intros formData.
  rewrite (applyScenarioMultipliers_normal formData); [reflexivity|..]; vm_compute; reflexivity.
Defined.

(** ** The decimal of a non-negative number, infinite or not *)

Lemma of_number_le (x y : number) :
  is_double x = true -> is_double y = true ->
  number_le (Fin 0) x = true -> number_le x y = true ->
  Dnn (of_number x) /\ Dle (of_number x) (of_number y).
Proof.
  intros Dx Dy H0 H.
  destruct x as [|[]|p]; try discriminate.
  - destruct y as [|[]|q]; try discriminate. cbn. auto.
  - apply number_le_Fin in H0.
    pose proof (of_number_nn p Dx H0) as N. split; [exact N|].
    destruct y as [|[]|q]; try discriminate.
    + apply Dle_top, N.
    + apply number_le_Fin in H. apply of_number_mono; assumption.
Qed.

(** ** Total income under the two scenarios *)

Lemma totalIncome_eq (pow_other : Decimal -> number -> Decimal)
  (formData : FormDataStrings.t) (scenario : Scenario) (isAfterGrace : bool) :
  Calculations.totalIncome (performCalculations pow_other formData scenario isAfterGrace) =
  let adjusted := applyScenarioMultipliers (convertToNumericFormData formData) scenario in
  toNumber (Decimal_plus (Decimal_plus (of_number (Adjusted.adjustedSalary adjusted))
                                       (of_number (Adjusted.adjustedRent adjusted)))
                         (of_number (Adjusted.adjustedOther adjusted))).
Proof. reflexivity. Qed.

(** X5.  For a form whose salary, rent and other income are not negative, the
    total income of [performCalculations] under [income_reduce] is at most
    the total income under [normal], for either grace state. *)
Theorem totalIncome_income_reduce (pow_other : Decimal -> number -> Decimal)
  (formData : FormDataStrings.t) (isAfterGrace : bool) :
  number_le (lit 0) (getNumericValue (FormDataStrings.salary formData)) = true ->
  number_le (lit 0) (getNumericValue (FormDataStrings.rent formData)) = true ->
  number_le (lit 0) (getNumericValue (FormDataStrings.other formData)) = true ->
  number_le
    (Calculations.totalIncome
       (performCalculations pow_other formData income_reduce isAfterGrace))
    (Calculations.totalIncome
       (performCalculations pow_other formData normal isAfterGrace)) = true.
Proof.
  intros H1 H2 H3. rewrite !totalIncome_eq. cbv zeta.
  unfold applyScenarioMultipliers, convertToNumericFormData.
  cbn [Adjusted.adjustedSalary Adjusted.adjustedRent Adjusted.adjustedOther
       FormData.salary FormData.rent FormData.other].
  replace (of_number (lit (8 # 10))) with (DFin (4 # 5)) by (vm_compute; reflexivity).
  replace (of_number (lit 1)) with (DFin 1) by (vm_compute; reflexivity).
  change (lit 0) with (Fin 0) in *.
  set (s := getNumericValue (FormDataStrings.salary formData)) in *.
  set (r := getNumericValue (FormDataStrings.rent formData)) in *.
  set (o := getNumericValue (FormDataStrings.other formData)) in *.
  assert (Ds : is_double s = true) by apply getNumericValue_is_double.
  assert (Dr : is_double r = true) by apply getNumericValue_is_double.
  assert (Do : is_double o = true) by apply getNumericValue_is_double.
  clearbody s r o.
  rewrite !Decimal_mul_one by assumption.
  destruct (scale_down s (4 # 5) Ds H1 ltac:(lra) ltac:(lra)) as [S0 S1].
  destruct (scale_down r (4 # 5) Dr H2 ltac:(lra) ltac:(lra)) as [R0 R1].
  destruct (scale_down o (4 # 5) Do H3 ltac:(lra) ltac:(lra)) as [O0 O1].
  destruct (of_number_le _ s (toNumber_is_double _) Ds S0 S1) as [NS LS].
  destruct (of_number_le _ r (toNumber_is_double _) Dr R0 R1) as [NR LR].
  destruct (of_number_le _ o (toNumber_is_double _) Do O0 O1) as [NO LO].
  apply toNumber_mono.
  - apply Decimal_plus_nn; [apply Decimal_plus_nn|]; assumption.
  - apply Decimal_plus_mono; try assumption.
    + apply Decimal_plus_nn; assumption.
    + apply Decimal_plus_mono; assumption.
Qed.

Lemma totalIncome_income_reduce_witness :
  number_le
    (Calculations.totalIncome
       (performCalculations pow_other_nan DEFAULT_FORM_DATA income_reduce true))
    (Calculations.totalIncome
       (performCalculations pow_other_nan DEFAULT_FORM_DATA normal true)) = true.
Proof.
  apply (totalIncome_income_reduce pow_other_nan DEFAULT_FORM_DATA true);
    vm_compute; reflexivity.
Defined.

(** ** The bank finance and the equity amount against the cost *)

(** The bank finance ratio of an equity between 0 and 100. *)
Lemma bankFinanceRatio_bounds (e : Q) :
  is_double (Fin e) = true -> (0 <= e)%Q -> (e <= 100)%Q ->
  exists E r, of_number (Fin e) = DFin E /\ (0 <= E <= 100)%Q /\
    Decimal_minus (DFin 1) (Decimal_div (DFin E) (DFin 100)) = DFin r /\
    (0 <= r <= 1)%Q.
Proof.
  intros De He He'.
  pose proof (of_number_nn e De He) as NE.
  pose proof (of_number_mono e 100 De ltac:(vm_compute; reflexivity) He He') as LE.
  replace (of_number (Fin 100)) with (DFin 100) in LE by (vm_compute; reflexivity).
  destruct (Dle_Fin_inv _ _ NE LE) as (E & EE & E0 & E1).
  assert (X1 : (0 <= E / 100 <= 1)%Q).
  { unfold Qdiv. change (/ 100)%Q with (1 # 100)%Q. split; lra. }
  pose proof (finalise_nonneg (E / 100) ltac:(lra)) as N1.
  pose proof (finalise_mono (E / 100) 1 ltac:(lra) ltac:(lra)) as L1.
  replace (finalise 1) with (DFin 1) in L1 by (vm_compute; reflexivity).
  destruct (Dle_Fin_inv _ _ N1 L1) as (r1 & F1 & R0 & R1).
  pose proof (finalise_nonneg (1 - r1) ltac:(lra)) as N2.
  pose proof (finalise_mono (1 - r1) 1 ltac:(lra) ltac:(lra)) as L2.
  replace (finalise 1) with (DFin 1) in L2 by (vm_compute; reflexivity).
  destruct (Dle_Fin_inv _ _ N2 L2) as (r2 & F2 & R20 & R21).
  exists E, r2. repeat split; try assumption.
  cbn [Decimal_div]. replace (Qeq_bool 100 0) with false by reflexivity.
  rewrite F1. cbn [Decimal_minus]. exact F2.
Qed.

Lemma equity_amounts_le_cost (c e : Q) :
  is_double (Fin c) = true -> is_double (Fin e) = true ->
  (0 <= c)%Q -> (0 <= e)%Q -> (e <= 100)%Q ->
  (number_le (Fin 0) (calculateBankFinanceAmount (Fin c) (Fin e)) = true /\
   number_le (calculateBankFinanceAmount (Fin c) (Fin e)) (Fin c) = true) /\
  (number_le (Fin 0) (calculateEquityAmount (Fin c) (Fin e)) = true /\
   number_le (calculateEquityAmount (Fin c) (Fin e)) (Fin c) = true).
Proof.
  intros Dc De Hc He He'.
  destruct (bankFinanceRatio_bounds e De He He') as (E & r & EE & [E0 E1] & Er & [R0 R1]).
  pose proof (Decimal_mul_one (Fin c) Dc) as One.
  pose proof (of_number_nn c Dc Hc) as NC.
  unfold calculateBankFinanceAmount, calculateEquityAmount.
  replace (of_number (lit 100)) with (DFin 100) by (vm_compute; reflexivity).
  replace (of_number (lit 1)) with (DFin 1) by (vm_compute; reflexivity).
  rewrite EE, Er.
  assert (Z0 : number_le (Fin 0) (Fin 0) = true) by reflexivity.
  destruct (Qlt_le_dec 0 c) as [Pc|Nc].
  - destruct (of_number_positive c Dc Pc) as (C & EC & CL & CH & Hundred).
    pose proof (Qpow_pos 10 (-390) ltac:(lia)) as P390.
    rewrite EC in *. cbn [Decimal_mul] in *.
    assert (A : (0 <= C * r)%Q) by (apply Qmult_le_0_compat; lra).
    assert (B : (C * r <= C * 1)%Q) by (apply Qmult_le_l_weak; lra).
    assert (A' : (0 <= C * E)%Q) by (apply Qmult_le_0_compat; lra).
    assert (B' : (C * E <= C * 100)%Q) by (apply Qmult_le_l_weak; lra).
    split; split.
    + rewrite <- to_double_zero. change (to_double 0) with (toNumber (DFin 0)).
      apply toNumber_mono; [cbn; lra|]. apply Dle_zero, finalise_nonneg, A.
    + rewrite <- One.
      apply toNumber_mono; [apply finalise_nonneg, A|apply finalise_mono; assumption].
    + rewrite <- to_double_zero. change (to_double 0) with (toNumber (DFin 0)).
      apply toNumber_mono; [cbn; lra|].
      apply Dle_zero, Decimal_div_nn; [apply finalise_nonneg, A'|lra].
    + rewrite <- Hundred.
      apply toNumber_mono.
      * apply Decimal_div_nn; [apply finalise_nonneg, A'|lra].
      * apply Decimal_div_mono; [lra|apply finalise_nonneg, A'|].
        apply finalise_mono; assumption.
  - assert (c = 0%Q) by (apply is_double_eq; [exact Dc|reflexivity|lra]). subst c.
    replace (of_number (Fin 0)) with (DFin 0) by reflexivity.
    cbn [Decimal_mul]. rewrite (finalise_zero (0 * r)), (finalise_zero (0 * E)) by ring.
    cbn [Decimal_div]. replace (Qeq_bool 100 0) with false by reflexivity.
    rewrite (finalise_zero (0 / 100)) by reflexivity.
    cbn [toNumber]. rewrite to_double_zero. repeat split.
Qed.

(** X6.  For a finite project cost that is not negative and an equity
    percentage from 0 to 100, the bank finance amount and the equity amount
    are both between 0 and the project cost. *)
Theorem equity_amounts_bounded (cost equity : number) :
  is_double cost = true -> is_double equity = true ->
  number_le (lit 0) cost = true -> number_lt cost (Inf false) = true ->
  number_le (lit 0) equity = true -> number_le equity (lit 100) = true ->
  (number_le (lit 0) (calculateBankFinanceAmount cost equity) = true /\
   number_le (calculateBankFinanceAmount cost equity) cost = true) /\
  (number_le (lit 0) (calculateEquityAmount cost equity) = true /\
   number_le (calculateEquityAmount cost equity) cost = true).
Proof.
  intros Dc De C0 Cf E0 E1.
  destruct (number_finite_nonneg cost C0 Cf) as (c & -> & Hc).
  replace (lit 100) with (Fin 100) in E1 by (vm_compute; reflexivity).
  pose proof (number_le_Fin_finite equity 100 E1) as Ef.
  destruct (number_finite_nonneg equity E0 Ef) as (e & -> & He).
  apply number_le_Fin in E1.
  change (lit 0) with (Fin 0).
  apply equity_amounts_le_cost; assumption.
Qed.

Lemma equity_amounts_bounded_witness :
  number_le (calculateBankFinanceAmount (lit 1800000) (lit 10)) (lit 1800000) = true /\
  number_le (calculateEquityAmount (lit 1800000) (lit 10)) (lit 1800000) = true.
Proof.
  destruct (equity_amounts_bounded (lit 1800000) (lit 10)) as [[_ B] [_ Q]];
    try (vm_compute; reflexivity).
  split; assumption.
Defined.

(** X7.  At the ends of the equity range the split is exact, for every finite
    cost that is not negative: with 0 percent equity the bank finances the
    whole cost and the equity amount is 0; with 100 percent the bank finances
    nothing and the equity amount is the whole cost. *)
Theorem equity_extremes (cost : number) :
  is_double cost = true ->
  number_le (lit 0) cost = true -> number_lt cost (Inf false) = true ->
  (calculateBankFinanceAmount cost (lit 0) = cost /\
   calculateEquityAmount cost (lit 0) = lit 0) /\
  (calculateBankFinanceAmount cost (lit 100) = lit 0 /\
   calculateEquityAmount cost (lit 100) = cost).
Proof.
  intros Dc C0 Cf.
  destruct (number_finite_nonneg cost C0 Cf) as (c & -> & Hc).
  unfold calculateBankFinanceAmount, calculateEquityAmount.
  replace (of_number (lit 100)) with (DFin 100) by (vm_compute; reflexivity).
  replace (of_number (lit 1)) with (DFin 1) by (vm_compute; reflexivity).
  replace (of_number (lit 0)) with (DFin 0) by (vm_compute; reflexivity).
  replace (Decimal_minus (DFin 1) (Decimal_div (DFin 0) (DFin 100))) with (DFin 1)
    by (vm_compute; reflexivity).
  replace (Decimal_minus (DFin 1) (Decimal_div (DFin 100) (DFin 100))) with (DFin 0)
    by (vm_compute; reflexivity).
  replace (lit 0) with (Fin 0) by (vm_compute; reflexivity).
  pose proof (Decimal_mul_one (Fin c) Dc) as One.
  pose proof (of_number_nn c Dc Hc) as NC.
  destruct (Qlt_le_dec 0 c) as [Pc|Nc].
  - destruct (of_number_positive c Dc Pc) as (C & EC & CL & CH & Hundred).
    rewrite EC in *. cbn [Decimal_mul] in *.
    rewrite !(finalise_zero (C * 0)) by ring.
    cbn [Decimal_div] in *. replace (Qeq_bool 100 0) with false in * by reflexivity.
    rewrite (finalise_zero (0 / 100)) by reflexivity.
    cbn [toNumber] in *. rewrite to_double_zero. repeat split; assumption.
  - assert (c = 0%Q) by (apply is_double_eq; [exact Dc|reflexivity|lra]). subst c.
    vm_compute. repeat split.
Qed.

Lemma equity_extremes_witness :
  calculateBankFinanceAmount (lit 1800000) (lit 0) = lit 1800000 /\
  calculateEquityAmount (lit 1800000) (lit 100) = lit 1800000.
Proof.
  destruct (equity_extremes (lit 1800000)) as [[A _] [_ B]];
    try (vm_compute; reflexivity).
  split; assumption.
Defined.

(** ** The repayment during the grace period *)

Lemma of_number_finite_nn (x : number) :
  is_double x = true -> number_le (Fin 0) x = true -> number_lt x (Inf false) = true ->
  exists c d, x = Fin c /\ (0 <= c)%Q /\ of_number x = DFin d /\ (0 <= d)%Q.
Proof.
  intros D H0 Hf.
  destruct x as [|[]|c]; try discriminate.
  apply number_le_Fin in H0.
  pose proof (of_number_nn c D H0) as N.
  destruct (of_number (Fin c)) as [|s|d] eqn:E.
  - contradiction.
  - cbn [of_number] in E. destruct (Qeq_bool c 0); discriminate.
  - exists c, d. repeat split; assumption.
Qed.

Lemma Dle_Fin (a b : Q) : Dle (DFin a) (DFin b) <-> (a <= b)%Q.
Proof. reflexivity. Qed.

Lemma number_le_finite (x y : number) :
  number_le x y = true -> number_lt y (Inf false) = true -> number_lt x (Inf false) = true.
Proof. destruct x as [|[]|a], y as [|[]|b]; cbn; intros; try discriminate; reflexivity. Qed.

(** X8.  The repayment during the grace period is not negative and does not
    decrease when the principal or the rate grows, for finite principals and
    rates that are not negative. *)
Theorem calculateGracePeriodPayment_monotone (P1 P2 r1 r2 : number) :
  is_double P1 = true -> is_double P2 = true ->
  is_double r1 = true -> is_double r2 = true ->
  number_le (lit 0) P1 = true -> number_le P1 P2 = true ->
  number_lt P2 (Inf false) = true ->
  number_le (lit 0) r1 = true -> number_le r1 r2 = true ->
  number_lt r2 (Inf false) = true ->
  number_le (lit 0) (calculateGracePeriodPayment P1 r1) = true /\
  number_le (calculateGracePeriodPayment P1 r1) (calculateGracePeriodPayment P2 r2) = true.
Proof.
  intros DP1 DP2 Dr1 Dr2 HP0 HP HPf Hr0 Hr Hrf.
  change (lit 0) with (Fin 0) in *.
  destruct (of_number_le P1 P2 DP1 DP2 HP0 HP) as [_ LP].
  destruct (of_number_le r1 r2 Dr1 Dr2 Hr0 Hr) as [_ Lr].
  destruct (of_number_finite_nn P1 DP1 HP0 (number_le_finite _ _ HP HPf))
    as (c1 & p1 & -> & C1 & E1 & N1).
  destruct (of_number_finite_nn r1 Dr1 Hr0 (number_le_finite _ _ Hr Hrf))
    as (d1 & q1 & -> & D1 & F1 & M1).
  destruct P2 as [|[]|c2]; try discriminate.
  destruct r2 as [|[]|d2]; try discriminate.
  apply number_le_Fin in HP, Hr.
  destruct (of_number_finite_nn (Fin c2) DP2 ltac:(apply number_le_Fin; lra) HPf)
    as (c2' & p2 & _ & _ & E2 & N2).
  destruct (of_number_finite_nn (Fin d2) Dr2 ltac:(apply number_le_Fin; lra) Hrf)
    as (d2' & q2 & _ & _ & F2 & M2).
  unfold calculateGracePeriodPayment.
  replace (of_number (lit 100)) with (DFin 100) by (vm_compute; reflexivity).
  replace (of_number (lit 12)) with (DFin 12) by (vm_compute; reflexivity).
  rewrite E1, E2, F1, F2 in *. cbn [Dle] in LP, Lr. cbn [Decimal_mul].
  assert (A : (0 <= p1 * q1)%Q) by (apply Qmult_le_0_compat; lra).
  assert (B : (p1 * q1 <= p2 * q2)%Q) by (apply Qmult_le_compat_nonneg; split; lra).
  pose proof (finalise_nonneg _ A) as G1.
  pose proof (finalise_mono _ _ A B) as H1.
  pose proof (Decimal_div_nn _ 100 G1 ltac:(lra)) as G2.
  pose proof (Decimal_div_mono _ _ 100 ltac:(lra) G1 H1) as H2.
  pose proof (Decimal_div_nn _ 12 G2 ltac:(lra)) as G3.
  pose proof (Decimal_div_mono _ _ 12 ltac:(lra) G2 H2) as H3.
  split.
  - rewrite <- to_double_zero. change (to_double 0) with (toNumber (DFin 0)).
    apply toNumber_mono; [cbn; lra|]. apply Dle_zero, G3.
  - apply toNumber_mono; assumption.
Qed.

Lemma calculateGracePeriodPayment_monotone_witness :
  number_le (calculateGracePeriodPayment (lit 1000000) (lit 9))
            (calculateGracePeriodPayment (lit 1620000) (lit 9)) = true.
Proof.
  apply (calculateGracePeriodPayment_monotone (lit 1000000) (lit 1620000) (lit 9) (lit 9));
    vm_compute; reflexivity.
Defined.

(** ** A tenure of zero months *)








(** ** The order of the numbers that are not [NaN] *)

Lemma Qle_bool_total (a b : Q) : Qle_bool a b = negb (Qle_bool b a) || Qeq_bool a b.
Proof.
  destruct (Qle_bool a b) eqn:A, (Qle_bool b a) eqn:B, (Qeq_bool a b) eqn:E;
    try reflexivity; exfalso;
    rewrite ?Qle_bool_iff, ?Qle_bool_false, ?Qeq_bool_iff, ?Qeq_bool_false in *; lra.
Qed.

Lemma number_gt_le (x y : number) : x <> NaN -> y <> NaN ->
  number_gt x y = negb (number_le x y).
Proof.
  intros X Y. unfold number_gt, number_le.
  destruct x as [|[]|a], y as [|[]|b]; try contradiction; try reflexivity.
  cbn [number_lt number_eq]. rewrite (Qle_bool_total a b). reflexivity.
Qed.

Lemma number_lt_le (x y : number) : x <> NaN -> y <> NaN ->
  number_lt x y = negb (number_le y x).
Proof. intros X Y. apply (number_gt_le y x Y X). Qed.

Lemma number_le_trans (x y z : number) :
  number_le x y = true -> number_le y z = true -> number_le x z = true.
Proof.
  destruct x as [|[]|a], y as [|[]|b], z as [|[]|c]; try discriminate; try reflexivity.
  rewrite !number_le_Fin. lra.
Qed.

Lemma getNumericValue_not_NaN (raw : string) : getNumericValue raw <> NaN.
Proof.
  rewrite getNumericValue_spec. destruct (parseFloat raw); discriminate.
Qed.

(** ** The validation of the form *)

Lemma required_field (raw : string) :
  string_falsy raw || number_le (getNumericValue raw) (lit 0) =
  negb (isPositiveNumber (getNumericValue raw)).
Proof.
  unfold isPositiveNumber.
  rewrite number_gt_le, negb_involutive
    by (try apply getNumericValue_not_NaN; vm_compute; discriminate).
  destruct raw as [|c r]; [vm_compute|]; reflexivity.
Qed.

Lemma set_error_length (key message : string) (errors : list (string * string)) :
  Nat.eqb (List.length (set_error key message errors)) 0 = false.
Proof. destruct errors as [|[k m] rest]; cbn; [|destruct (String.eqb k key)]; reflexivity. Qed.

Lemma errors_length (b : bool) (key message : string) (errors : list (string * string)) :
  Nat.eqb (List.length (if b then set_error key message errors else errors)) 0 =
  negb b && Nat.eqb (List.length errors) 0.
Proof. destruct b; [apply set_error_length|reflexivity]. Qed.

(** X10.  The form is valid exactly when salary, project cost, rate and
    tenure are positive, the rate is at most 50, the tenure at most 600, the
    equity percentage is a valid percentage and the grace period is at most
    the tenure, all read by [getNumericValue]; the tests for empty fields add
    nothing, as an empty field reads as 0. *)
Theorem validation_isFormValid (formData : FormDataStrings.t) :
  let salary := getNumericValue (FormDataStrings.salary formData) in
  let cost := getNumericValue (FormDataStrings.totalProjectCost formData) in
  let equity := getNumericValue (FormDataStrings.equityPercentage formData) in
  let rate := getNumericValue (FormDataStrings.rate formData) in
  let tenure := getNumericValue (FormDataStrings.repaymentPeriod formData) in
  let grace := getNumericValue (FormDataStrings.gracePeriod formData) in
  Validation.isFormValid (validation formData) =
    isPositiveNumber salary && isPositiveNumber cost &&
    isPositiveNumber rate && number_le rate (lit 50) &&
    isPositiveNumber tenure && number_le tenure (lit 600) &&
    isValidPercentage equity && number_le grace tenure.
Proof.
  intros salary cost equity rate tenure grace.
  unfold validation. rewrite !required_field.
  fold salary cost equity rate tenure grace.
  unfold isValidPercentage, number_ge.
  assert (Ns : salary <> NaN) by apply getNumericValue_not_NaN.
  assert (Nc : cost <> NaN) by apply getNumericValue_not_NaN.
  assert (Ne : equity <> NaN) by apply getNumericValue_not_NaN.
  assert (Nr : rate <> NaN) by apply getNumericValue_not_NaN.
  assert (Nt : tenure <> NaN) by apply getNumericValue_not_NaN.
  assert (Ng : grace <> NaN) by apply getNumericValue_not_NaN.
  rewrite (number_lt_le equity (lit 0)) by (try assumption; vm_compute; discriminate).
  rewrite (number_gt_le equity (lit 100)) by (try assumption; vm_compute; discriminate).
  rewrite (number_gt_le rate (lit 50)) by (try assumption; vm_compute; discriminate).
  rewrite (number_gt_le tenure (lit 600)) by (try assumption; vm_compute; discriminate).
  rewrite (number_gt_le grace tenure) by assumption.
  cbn [Validation.isFormValid]. rewrite !errors_length.
  change (Nat.eqb (@List.length (string * string) []) 0) with true.
  destruct (isPositiveNumber salary), (isPositiveNumber cost), (isPositiveNumber rate),
    (isPositiveNumber tenure), (number_le (lit 0) equity), (number_le equity (lit 100)),
    (number_le rate (lit 50)), (number_le tenure (lit 600)), (number_le grace tenure);
    reflexivity.
Qed.

(** ** The status of the DSCR *)

(** X11.  The status of the DSCR is monotone: if [d1 <= d2] and [d1] is
    rated [Excellent] then so is [d2], and if [d2] is rated
    [Needs Improvement] then so is [d1]. *)
Theorem getDSCRStatus_monotone (d1 d2 : number) :
  number_le d1 d2 = true ->
  (DSCRStatus.status (getDSCRStatus d1) = "Excellent"%string ->
   DSCRStatus.status (getDSCRStatus d2) = "Excellent"%string) /\
  (DSCRStatus.status (getDSCRStatus d2) = "Needs Improvement"%string ->
   DSCRStatus.status (getDSCRStatus d1) = "Needs Improvement"%string).
Proof.
  intros L. unfold getDSCRStatus, number_ge.
  generalize (lit (125 # 100)) (lit 1). intros a b.
  destruct (number_le a d1) eqn:A1.
  { rewrite (number_le_trans _ _ _ A1 L). cbn [DSCRStatus.status].
    split; [reflexivity|discriminate]. }
  destruct (number_le b d1) eqn:B1.
  { rewrite (number_le_trans _ _ _ B1 L).
    destruct (number_le a d2); cbn [DSCRStatus.status]; split; discriminate. }
  cbn [DSCRStatus.status]. split; [discriminate|reflexivity].
Qed.

Lemma getDSCRStatus_monotone_witness :
  DSCRStatus.status (getDSCRStatus (lit 2)) = "Excellent"%string.
Proof.
  apply (getDSCRStatus_monotone (lit (13 # 10)) (lit 2)); vm_compute; reflexivity.
Defined.

(** X12.  When existing loans plus the repayment after grace is zero, the
    DSCR that [performCalculations] returns is rated [Needs Improvement] by
    [getDSCRStatus], which the component shows: the guard of the division
    sets the DSCR to 0. *)
Theorem getDSCRStatus_without_obligation
  (pow_other : Decimal -> number -> Decimal)
  (formData : FormDataStrings.t) (scenario : Scenario) (isAfterGrace : bool) :
  let r := performCalculations pow_other formData scenario isAfterGrace in
  Decimal_isZero
    (Decimal_plus (of_number (getNumericValue (FormDataStrings.existingLoans formData)))
                  (of_number (Calculations.afterGraceRepayment r))) = true ->
  getDSCRStatus (Calculations.dscr r) =
  {| DSCRStatus.status := "Needs Improvement"; DSCRStatus.color := "text-red-600" |}.
Proof.
  intros r Z.
  change (Calculations.dscr r) with
    (if Decimal_isZero
          (Decimal_plus (of_number (getNumericValue (FormDataStrings.existingLoans formData)))
                        (of_number (Calculations.afterGraceRepayment r)))
     then lit 0
     else toNumber
            (Decimal_div (of_number (Calculations.netIncome r))
               (Decimal_plus
                  (of_number (getNumericValue (FormDataStrings.existingLoans formData)))
                  (of_number (Calculations.afterGraceRepayment r))))).
  rewrite Z. vm_compute. reflexivity.
Qed.

Lemma getDSCRStatus_without_obligation_witness :
  getDSCRStatus
    (Calculations.dscr (performCalculations pow_other_nan no_loan_input normal true)) =
  {| DSCRStatus.status := "Needs Improvement"; DSCRStatus.color := "text-red-600" |}.
Proof.
  apply (getDSCRStatus_without_obligation pow_other_nan no_loan_input normal true).
  vm_compute. reflexivity.
Defined.

(** ** [parseNumericValue] *)

(** X13.  With the fallback 0, [parseNumericValue] of the formatters and
    [getNumericValue] of the service read every string as the same number. *)
Theorem parseNumericValue_getNumericValue (raw : string) :
  parseNumericValue raw (lit 0) = getNumericValue raw.
Proof.
  rewrite getNumericValue_spec. unfold parseNumericValue.
  destruct (parseFloat raw); reflexivity.
Qed.

(** ** The loan types that [loadLoanTypes] returns *)

Lemma getDefaultLoanTypes_valid : isValidLoanTypesArray (VArray getDefaultLoanTypes) = true.
Proof. vm_compute. reflexivity. Qed.

(** X14.  Whatever the storage holds and whatever [JSON.parse] returns,
    [loadLoanTypes] returns a non-empty array of valid loan types. *)
Theorem loadLoanTypes_valid
  (now : nat -> string) (JSON_parse : string -> option value)
  (hasWindow : bool) (savedLoanTypes : getItem_result) :
  isValidLoanTypesArray (VArray (loadLoanTypes now JSON_parse hasWindow savedLoanTypes)) = true.
Proof.
  unfold loadLoanTypes.
  destruct (negb hasWindow); [apply getDefaultLoanTypes_valid|].
  destruct savedLoanTypes as [| |text]; try apply getDefaultLoanTypes_valid.
  destruct (negb (string_falsy text)); [|apply getDefaultLoanTypes_valid].
  destruct (JSON_parse text) as [[| | | | |parsed|]|]; try apply getDefaultLoanTypes_valid.
  destruct (Nat.ltb 0 (List.length parsed)); [|apply getDefaultLoanTypes_valid].
  destruct (migrateAll now 0 parsed) as [migratedTypes|]; [|apply getDefaultLoanTypes_valid].
  destruct (isValidLoanTypesArray (VArray migratedTypes)) eqn:V;
    [exact V|apply getDefaultLoanTypes_valid].
Qed.

Lemma migrateAll_valid (now : nat -> string) (index : nat) (loans : list value) :
  forallb isValidLoanType loans = true -> migrateAll now index loans = Some loans.
Proof.
  revert index. induction loans as [|loan rest IH]; intros index; [reflexivity|].
  cbn [forallb migrateAll]. rewrite andb_true_iff. intros [V R].
  unfold migrateLoanType. rewrite V, (IH _ R). reflexivity.
Qed.

(** X15.  When the stored text parses to a non-empty array of valid loan
    types, [loadLoanTypes] returns that array unchanged. *)
Theorem loadLoanTypes_stored
  (now : nat -> string) (JSON_parse : string -> option value)
  (text : string) (loans : list value) :
  string_falsy text = false ->
  JSON_parse text = Some (VArray loans) ->
  isValidLoanTypesArray (VArray loans) = true ->
  loadLoanTypes now JSON_parse true (GetItem text) = loans.
Proof.
  intros T P V. unfold loadLoanTypes. cbn [negb]. rewrite T, P. cbn [negb].
  pose proof V as V'. cbn [isValidLoanTypesArray] in V'.
  apply andb_true_iff in V'. destruct V' as [L A].
  rewrite L, (migrateAll_valid now 0 loans A), V. reflexivity.
Qed.

Lemma loadLoanTypes_stored_witness :
  loadLoanTypes (fun _ => "0"%string) parse_stored_loans true (GetItem stored_loans_text)
    = stored_loans /\
  stored_loans <> getDefaultLoanTypes.
Proof.
  split.
  - apply loadLoanTypes_stored; vm_compute; reflexivity.
  - intros E. apply (f_equal (@List.length value)) in E. vm_compute in E. discriminate E.
Defined.

Lemma typeof_object (v : value) :
  String.eqb (typeof v) "object" =
  match v with
  | VNull | VArray _ | VObject _ => true
  | _ => false
  end.
Proof. destruct v; reflexivity. Qed.

Lemma migrateLoanType_throws (timestamp : string) (loan : value) :
  migrateLoanType timestamp loan = None <-> loan = VNull.
Proof.
  split.
  - unfold migrateLoanType. rewrite typeof_object.
    destruct (isValidLoanType loan); [discriminate|].
    destruct loan as [| |b|n|s|items|fields]; cbn [get value_truthy];
      try discriminate; try reflexivity.
    destruct (value_truthy (lookup "id" fields)); [|discriminate].
    destruct (value_truthy (lookup "name" fields)); discriminate.
  - intros ->. reflexivity.
Qed.

Lemma migrateAll_throws (now : nat -> string) (index : nat) (parsed : list value) :
  In VNull parsed -> migrateAll now index parsed = None.
Proof.
  revert index. induction parsed as [|loan rest IH]; intros index; [contradiction|].
  intros [-> | I]; cbn [migrateAll].
  - reflexivity.
  - destruct (migrateLoanType (now index) loan); [|reflexivity]. rewrite (IH _ I). reflexivity.
Qed.

(** X16.  When the stored array has a [null] entry, [loadLoanTypes] returns
    the default loan types, whatever the other entries are: the migration of
    [null] reads [loan.id] and throws, and the [catch] block discards the
    array. *)
Theorem loadLoanTypes_null_entry
  (now : nat -> string) (JSON_parse : string -> option value)
  (hasWindow : bool) (text : string) (parsed : list value) :
  JSON_parse text = Some (VArray parsed) -> In VNull parsed ->
  loadLoanTypes now JSON_parse hasWindow (GetItem text) = getDefaultLoanTypes.
Proof.
  intros P I. unfold loadLoanTypes.
  destruct (negb hasWindow); [reflexivity|].
  destruct (negb (string_falsy text)); [|reflexivity].
  rewrite P, (migrateAll_throws now 0 parsed I).
  destruct (Nat.ltb 0 (List.length parsed)); reflexivity.
Qed.

Lemma loadLoanTypes_null_entry_witness :
  loadLoanTypes (fun _ => "0"%string)
    (fun _ => Some (VArray (getDefaultLoanTypes ++ [VNull]))) true (GetItem "x")
  = getDefaultLoanTypes.
Proof.
  apply (loadLoanTypes_null_entry _ _ true "x" (getDefaultLoanTypes ++ [VNull]));
    [reflexivity|]. apply in_or_app. right. left. reflexivity.
Defined.

(** ** The migration of an entry without rate and tenure *)

Lemma find_default (d : LoanType.t) : In d DEFAULT_LOAN_TYPES ->
  find (fun x => string_strict_eq (LoanType.id x) (VString (LoanType.id d)))
       DEFAULT_LOAN_TYPES = Some d /\
  value_truthy (VString (LoanType.id d)) = true /\
  or_else (LoanType.interestRate d) (lit 10) = LoanType.interestRate d /\
  or_else (LoanType.tenure d) (lit 60) = LoanType.tenure d.
Proof.
  intros I. repeat (destruct I as [<- | I]; [vm_compute; repeat split|]). contradiction.
Qed.

(** X17.  An object that is no valid loan type, whose [id] is the one of a
    default loan type and whose [name] is truthy, is migrated to the object
    with its [id] and [name] and the interest rate and the tenure of that
    default loan type. *)
Theorem migrateLoanType_legacy
  (timestamp : string) (fields : list (string * value)) (d : LoanType.t) (name : value) :
  isValidLoanType (VObject fields) = false ->
  In d DEFAULT_LOAN_TYPES ->
  lookup "id" fields = VString (LoanType.id d) ->
  lookup "name" fields = name -> value_truthy name = true ->
  migrateLoanType timestamp (VObject fields) =
  Some (VObject [ ("id", VString (LoanType.id d)); ("name", name);
                  ("interestRate", VNumber (LoanType.interestRate d));
                  ("tenure", VNumber (LoanType.tenure d)) ]%string).
Proof.
  intros V I Hid Hname T.
  destruct (find_default d I) as (F & Ti & R1 & R2).
  unfold migrateLoanType. rewrite V, typeof_object. cbn [get].
  rewrite Hid, Hname, Ti, T, F, R1, R2. reflexivity.
Qed.

Lemma migrateLoanType_legacy_witness :
  migrateLoanType "0" (VObject [("id", VString "car-loan"); ("name", VString "Auto")]%string)
  = Some (VObject [ ("id", VString "car-loan"); ("name", VString "Auto");
                    ("interestRate", VNumber (lit (95 # 10)));
                    ("tenure", VNumber (lit 60)) ]%string).
Proof.
  apply (migrateLoanType_legacy "0" _
           (LoanType.Build "car-loan" "Car Loan" (lit (95 # 10)) (lit 60))).
  - vm_compute. reflexivity.
  - right. left. reflexivity.
  - reflexivity.
  - reflexivity.
  - reflexivity.
Defined.

(** ** White space around a name *)

Lemma trim_start_head (s : string) :
  match trim_start s with
  | String c _ => is_space c = false
  | EmptyString => True
  end.
Proof.
  induction s as [|c r IH]; cbn [trim_start]; [exact I|].
  destruct (is_space c) eqn:E; [exact IH|exact E].
Qed.

Lemma trim_end_head (c : ascii) (r : string) : is_space c = false ->
  exists r', trim_end (String c r) = String c r'.
Proof.
  intros E. cbn [trim_end]. destruct (trim_end r) as [|c' r'].
  - rewrite E. eauto.
  - eauto.
Qed.

Lemma trim_end_idem (s : string) : trim_end (trim_end s) = trim_end s.
Proof.
  induction s as [|c r IH]; [reflexivity|].
  cbn [trim_end]. destruct (trim_end r) as [|c' r'] eqn:E.
  - destruct (is_space c) eqn:S; [reflexivity|]. cbn [trim_end]. rewrite S. reflexivity.
  - cbn [trim_end]. cbn [trim_end] in IH.
    destruct (trim_end r') as [|c'' r''] eqn:E'.
    + destruct (is_space c'); [discriminate|]. rewrite IH. reflexivity.
    + rewrite IH. reflexivity.
Qed.

Lemma trim_idem (s : string) : trim (trim s) = trim s.
Proof.
  unfold trim. pose proof (trim_start_head s) as H.
  destruct (trim_start s) as [|c r]; [reflexivity|].
  destruct (trim_end_head c r H) as (r' & E). rewrite E.
  cbn [trim_start]. rewrite H, <- E. apply trim_end_idem.
Qed.

(** X18.  [isNameUnique] gives the same answer for a name and for the name
    with its surrounding white space removed. *)
Theorem isNameUnique_trim
  (toLowerCase : string -> string)
  (name : string) (existingLoans : list LoanType.t) (excludeId : option string) :
  isNameUnique toLowerCase (trim name) existingLoans excludeId =
  isNameUnique toLowerCase name existingLoans excludeId.
Proof. unfold isNameUnique. rewrite trim_idem. reflexivity. Qed.

(** ** Expenditure against income *)

Lemma totalExpenditure_eq (pow_other : Decimal -> number -> Decimal)
  (formData : FormDataStrings.t) (scenario : Scenario) (isAfterGrace : bool) :
  let r := performCalculations pow_other formData scenario isAfterGrace in
  Calculations.totalExpenditure r =
  toNumber
    (Decimal_mul (of_number (Calculations.totalIncome r))
       (of_number (if number_gt (Calculations.totalIncome r) (lit 25000)
                   then lit (35 # 100) else lit (40 # 100)))).
Proof. reflexivity. Qed.

(** The total income of non-negative incomes is not negative. *)
Lemma totalIncome_nonneg (pow_other : Decimal -> number -> Decimal)
  (formData : FormDataStrings.t) (scenario : Scenario) (isAfterGrace : bool) :
  number_le (lit 0) (getNumericValue (FormDataStrings.salary formData)) = true ->
  number_le (lit 0) (getNumericValue (FormDataStrings.rent formData)) = true ->
  number_le (lit 0) (getNumericValue (FormDataStrings.other formData)) = true ->
  number_le (Fin 0)
    (Calculations.totalIncome
       (performCalculations pow_other formData scenario isAfterGrace)) = true.
Proof.
  intros H1 H2 H3. rewrite totalIncome_eq. cbv zeta.
  unfold applyScenarioMultipliers, convertToNumericFormData.
  cbn [Adjusted.adjustedSalary Adjusted.adjustedRent Adjusted.adjustedOther
       FormData.salary FormData.rent FormData.other].
  change (lit 0) with (Fin 0) in *.
  set (s := getNumericValue (FormDataStrings.salary formData)) in *.
  set (r := getNumericValue (FormDataStrings.rent formData)) in *.
  set (o := getNumericValue (FormDataStrings.other formData)) in *.
  assert (Ds : is_double s = true) by apply getNumericValue_is_double.
  assert (Dr : is_double r = true) by apply getNumericValue_is_double.
  assert (Do : is_double o = true) by apply getNumericValue_is_double.
  clearbody s r o.
  assert (M : exists m, (0 < m)%Q /\ (m <= 1)%Q /\
            of_number (match scenario with
                       | income_reduce => lit (8 # 10)
                       | normal => lit 1
                       end) = DFin m).
  { destruct scenario; [exists 1%Q|exists (4 # 5)%Q];
      (split; [lra|split; [lra|vm_compute; reflexivity]]). }
  destruct M as (m & M0 & M1 & ->).
  destruct (scale_down s m Ds H1 M0 M1) as [S0 S1].
  destruct (scale_down r m Dr H2 M0 M1) as [R0 R1].
  destruct (scale_down o m Do H3 M0 M1) as [O0 O1].
  destruct (of_number_le _ s (toNumber_is_double _) Ds S0 S1) as [NS _].
  destruct (of_number_le _ r (toNumber_is_double _) Dr R0 R1) as [NR _].
  destruct (of_number_le _ o (toNumber_is_double _) Do O0 O1) as [NO _].
  rewrite <- to_double_zero. change (to_double 0) with (toNumber (DFin 0)).
  apply toNumber_mono; [cbn; lra|].
  apply Dle_zero, Decimal_plus_nn; [apply Decimal_plus_nn|]; assumption.
Qed.

(** X19.  For a form whose salary, rent and other income are not negative,
    the total expenditure of [performCalculations] is between 0 and the
    total income, in both scenarios and grace states. *)
Theorem totalExpenditure_within_income (pow_other : Decimal -> number -> Decimal)
  (formData : FormDataStrings.t) (scenario : Scenario) (isAfterGrace : bool) :
  let r := performCalculations pow_other formData scenario isAfterGrace in
  number_le (lit 0) (getNumericValue (FormDataStrings.salary formData)) = true ->
  number_le (lit 0) (getNumericValue (FormDataStrings.rent formData)) = true ->
  number_le (lit 0) (getNumericValue (FormDataStrings.other formData)) = true ->
  number_le (lit 0) (Calculations.totalExpenditure r) = true /\
  number_le (Calculations.totalExpenditure r) (Calculations.totalIncome r) = true.
Proof.
  intros r H1 H2 H3.
  pose proof (totalIncome_nonneg pow_other formData scenario isAfterGrace H1 H2 H3) as T0.
  fold r in T0. unfold r at 1 2. rewrite totalExpenditure_eq. cbv zeta. fold r.
  assert (D : is_double (Calculations.totalIncome r) = true).
  { unfold r. rewrite totalIncome_eq. apply toNumber_is_double. }
  set (t := Calculations.totalIncome r) in *. clearbody t.
  change (lit 0) with (Fin 0).
  destruct (number_gt t (lit 25000)).
  - replace (of_number (lit (35 # 100))) with (DFin (7 # 20)) by (vm_compute; reflexivity).
    apply scale_down; try assumption; lra.
  - replace (of_number (lit (40 # 100))) with (DFin (2 # 5)) by (vm_compute; reflexivity).
    apply scale_down; try assumption; lra.
Qed.

Lemma totalExpenditure_within_income_witness :
  let r := performCalculations pow_other_nan DEFAULT_FORM_DATA normal true in
  number_le (lit 0) (Calculations.totalExpenditure r) = true /\
  number_le (Calculations.totalExpenditure r) (Calculations.totalIncome r) = true.
Proof.
  apply (totalExpenditure_within_income pow_other_nan DEFAULT_FORM_DATA normal true);
    vm_compute; reflexivity.
Defined.

(** ** Rounding for display *)

Lemma toDecimalPlaces_mono (x y : Decimal) (dp : Z) : Dnn x -> Dle x y ->
  Dnn (toDecimalPlaces x dp) /\ Dle (toDecimalPlaces x dp) (toDecimalPlaces y dp).
Proof.
  intros N L.
  assert (F : forall a, (0 <= a)%Q ->
            (Qred (with_sign (Qneg a) (round_at half_up 10 (- dp) (Qabs a)))
             == round_at half_up 10 (- dp) a)%Q).
  { intros a Ha. rewrite Qred_correct.
    replace (Qneg a) with false by (symmetry; apply Qneg_false, Ha).
    cbn [with_sign]. apply round_at_comp; try exact _. apply Qabs_pos, Ha. }
  destruct x as [|[]|a]; cbn [Dnn] in N; try contradiction; try discriminate.
  - destruct y as [|[]|b]; cbn [Dle] in L; try contradiction. cbn. auto.
  - assert (R0 : (0 <= round_at half_up 10 (- dp) a)%Q)
      by (apply round_at_nonneg; [exact _|lia|exact N]).
    destruct y as [|[]|b]; cbn [Dle] in L; try contradiction;
      cbn [toDecimalPlaces Dnn Dle]; rewrite !F by lra.
    + auto.
    + split; [exact R0|]. apply round_at_mono; [exact _|lia|exact L].
Qed.

(** X20.  [roundToDecimalPlaces] is monotone on the numbers that are not
    negative: for [0 <= x <= y] and the same [places], either both calls
    throw or both return, and then the results [a] and [b] satisfy
    [0 <= a <= b]. *)
Theorem roundToDecimalPlaces_monotone (x y places : number) :
  is_double x = true -> is_double y = true ->
  number_le (lit 0) x = true -> number_le x y = true ->
  match roundToDecimalPlaces x places, roundToDecimalPlaces y places with
  | Some a, Some b => number_le (lit 0) a = true /\ number_le a b = true
  | None, None => True
  | _, _ => False
  end.
Proof.
  intros Dx Dy H0 H. change (lit 0) with (Fin 0) in *.
  unfold roundToDecimalPlaces.
  destruct (integer_of places) as [dp|]; [|exact I].
  destruct ((0 <=? dp) && (dp <=? 1000000000)); [|exact I].
  destruct (of_number_le x y Dx Dy H0 H) as [N L].
  destruct (toDecimalPlaces_mono _ _ dp N L) as [N' L'].
  split.
  - rewrite <- to_double_zero. change (to_double 0) with (toNumber (DFin 0)).
    apply toNumber_mono; [cbn; lra|]. apply Dle_zero, N'.
  - apply toNumber_mono; assumption.
Qed.

Lemma roundToDecimalPlaces_monotone_witness :
  match roundToDecimalPlaces (lit (14575 # 1)) (lit 2),
        roundToDecimalPlaces (lit (1457556 # 100)) (lit 2) with
  | Some a, Some b => number_le (lit 0) a = true /\ number_le a b = true
  | None, None => True
  | _, _ => False
  end.
Proof.
  apply (roundToDecimalPlaces_monotone (lit (14575 # 1)) (lit (1457556 # 100)) (lit 2));
    vm_compute; reflexivity.
Defined.

(** *** Whole numbers *)

Lemma Qred_inject_Z (n : Z) : Qred (inject_Z n) = inject_Z n.
Proof.
  unfold Qred, inject_Z.
  pose proof (Z.ggcd_correct_divisors n 1) as C. pose proof (Z.ggcd_gcd n 1) as G.
  destruct (Z.ggcd n 1) as [g [aa bb]]. cbn [fst] in G. destruct C as [C1 C2].
  rewrite Z.gcd_1_r in G. subst g.
  assert (Ea : aa = n) by lia. assert (Eb : bb = 1) by lia.
  rewrite Ea, Eb. reflexivity.
Qed.

(** With as many digits as a whole number has before the point, the search
    for its decimal succeeds. *)
Lemma shortest_at_whole (a : Q) (n : Z) :
  (0 < a)%Q -> (a == inject_Z n)%Q -> (round64 a == a)%Q ->
  shortest_at (Qlog 10 a + 1) a <> None.
Proof.
  intros Pa E R. unfold shortest_at.
  replace (Qlog 10 a - (Qlog 10 a + 1 - 1)) with 0 by lia.
  set (s := Qfloor (a / Qpow 10 0)).
  assert (D1 : (a / Qpow 10 0 == a)%Q) by (change (Qpow 10 0) with 1%Q; field).
  assert (Es : s = n).
  { unfold s. apply Qfloor_unique.
    - rewrite D1, E. apply Qle_refl.
    - rewrite D1, inject_Z_succ. lra. }
  assert (Lo : Qeq_bool (round64 (inject_Z s * Qpow 10 0)) a = true).
  { apply Qeq_bool_iff. eapply Qeq_trans; [|exact R]. apply round64_comp.
    - rewrite Es. change (Qpow 10 0) with 1%Q. lra.
    - rewrite Es. change (Qpow 10 0) with 1%Q. rewrite E. ring. }
  rewrite Lo.
  destruct (Qeq_bool (round64 (inject_Z (s + 1) * Qpow 10 0)) a); [|discriminate].
  destruct (Qcompare _ _); [destruct (Z.even s)| |]; discriminate.
Qed.

Lemma shortest_at_whole_value (k : Z) (a d : Q) :
  (0 < a)%Q -> k <= Qlog 10 a + 1 -> shortest_at k a = Some d ->
  exists N, (d == inject_Z N)%Q.
Proof.
  intros Pa K. unfold shortest_at.
  set (t := Qlog 10 a - (k - 1)). set (s := Qfloor (a / Qpow 10 t)).
  assert (T : 0 <= t) by (unfold t; lia).
  assert (Lo : exists N, (inject_Z s * Qpow 10 t == inject_Z N)%Q).
  { exists (s * 10 ^ t). rewrite inject_Z_mult, Qpow_Z by lia. reflexivity. }
  assert (Hi : exists N, (inject_Z (s + 1) * Qpow 10 t == inject_Z N)%Q).
  { exists ((s + 1) * 10 ^ t). rewrite inject_Z_mult, Qpow_Z by lia. reflexivity. }
  destruct (Qeq_bool (round64 (inject_Z s * Qpow 10 t)) a);
    destruct (Qeq_bool (round64 (inject_Z (s + 1) * Qpow 10 t)) a); try discriminate.
  - destruct (Qcompare _ _); [destruct (Z.even s)| |]; intros [= <-]; assumption.
  - intros [= <-]; assumption.
  - intros [= <-]; assumption.
Qed.

Lemma shortest_from_whole (fuel : nat) (k : Z) (a : Q) (n : Z) :
  (0 < a)%Q -> (a == inject_Z n)%Q -> (round64 a == a)%Q ->
  k <= Qlog 10 a + 1 -> Qlog 10 a + 1 - k < Z.of_nat fuel ->
  exists N, (shortest_from fuel k a == inject_Z N)%Q.
Proof.
  intros Pa E R. revert k. induction fuel as [|f IH]; intros k K F; [lia|].
  cbn [shortest_from]. destruct (shortest_at k a) as [d|] eqn:S.
  - apply (shortest_at_whole_value k a d Pa K S).
  - assert (k <> Qlog 10 a + 1).
    { intros ->. apply (shortest_at_whole a n Pa E R S). }
    apply IH; lia.
Qed.

(** X21.  [roundToDecimalPlaces] returns a whole number from 0 up to (but not
    including) 10^17 unchanged, for every valid number of places. *)
Theorem roundToDecimalPlaces_whole (q : Q) (n dp : Z) :
  is_double (Fin q) = true -> (q == inject_Z n)%Q ->
  0 <= n < 10 ^ 17 -> 0 <= dp <= 1000000000 ->
  roundToDecimalPlaces (Fin q) (Fin (inject_Z dp)) = Some (Fin q).
Proof.
  intros D E Hn Hdp. unfold roundToDecimalPlaces.
  assert (I : integer_of (Fin (inject_Z dp)) = Some dp).
  { unfold integer_of. rewrite Qred_inject_Z. reflexivity. }
  rewrite I.
  replace ((0 <=? dp) && (dp <=? 1000000000)) with true
    by (symmetry; apply andb_true_iff; split; apply Z.leb_le; lia).
  f_equal. cbn [of_number].
  destruct (Qeq_bool q 0) eqn:Z.
  - apply Qeq_bool_iff in Z.
    assert (q = 0%Q) by (apply is_double_eq; [exact D|reflexivity|exact Z]). subst q.
    cbn [toDecimalPlaces toNumber]. rewrite <- to_double_zero.
    apply to_double_comp. rewrite Qred_correct.
    replace (Qneg 0) with false by reflexivity. cbn [with_sign].
    apply round_at_zero; try exact _; try lia. reflexivity.
  - apply Qeq_bool_false in Z. apply is_double_Fin in D.
    destruct (is_double_round64 q Z D) as [R O].
    assert (Pq : (0 < q)%Q).
    { assert (0 <= inject_Z n)%Q by (change 0%Q with (inject_Z 0); rewrite <- Zle_Qle; lia).
      destruct (Qlt_le_dec 0 q); [assumption|]. exfalso. apply Z. lra. }
    assert (Ea : (Qabs q == q)%Q) by (apply Qabs_pos; lra).
    assert (Pa : (0 < Qabs q)%Q) by lra.
    assert (Sg : Qneg q = false) by (apply Qneg_false; lra).
    rewrite Sg. cbn [with_sign toDecimalPlaces].
    pose proof (shortest_pos _ Pa R) as PS.
    assert (L : Qlog 10 (Qabs q) < 17).
    { destruct (Qlog_spec 10 (Qabs q) ltac:(lia) Pa) as [A _].
      apply (Qpow_lt_inv 10); [lia|].
      assert (inject_Z n < inject_Z (10 ^ 17))%Q by (rewrite <- Zlt_Qlt; lia).
      rewrite (Qpow_Z 10 17) by lia. lra. }
    assert (L0 : 0 <= Qlog 10 (Qabs q)).
    { assert (-1 < Qlog 10 (Qabs q)); [|lia].
      replace (Qlog 10 (Qabs q)) with (Qlog 10 (Qabs q) + 1 - 1) by lia.
      destruct (Qlog_spec 10 (Qabs q) ltac:(lia) Pa) as [_ B].
      assert (1 <= n).
      { assert (inject_Z 0 < inject_Z n)%Q by (change (inject_Z 0) with 0%Q; lra).
        rewrite <- Zlt_Qlt in *. lia. }
      assert (inject_Z 1 <= inject_Z n)%Q by (rewrite <- Zle_Qle; lia).
      assert (0 < Qlog 10 (Qabs q) + 1); [|lia].
      apply (Qpow_lt_inv 10); [lia|]. change (Qpow 10 0) with 1%Q.
      change (inject_Z 1) with 1%Q in *. lra. }
    destruct (shortest_from_whole 17 1 (Qabs q) n Pa ltac:(lra) R ltac:(lia) ltac:(lia))
      as (N & EN).
    fold (shortest (Qabs q)) in EN.
    set (S := shortest (Qabs q)) in *.
    assert (PN : (0 < Qred S)%Q) by (rewrite Qred_correct; exact PS).
    replace (Qneg (Qred S)) with false by (symmetry; apply Qneg_false; lra).
    cbn [with_sign toNumber].
    assert (F : (round_at half_up 10 (- dp) (Qabs (Qred S)) == S)%Q).
    { assert (A : (Qabs (Qred S) == S)%Q) by (rewrite Qabs_pos by lra; apply Qred_correct).
      rewrite (round_at_comp half_up 10 (- dp) _ _ A).
      apply (round_at_fix half_up 10 ltac:(lia) (- dp) (N * 10 ^ dp)).
      rewrite EN, inject_Z_mult, <- (Qpow_Z 10 dp), <- Qmult_assoc, <- Qpow_add by lia.
      replace (dp + - dp) with 0 by lia. change (Qpow 10 0) with 1%Q. ring. }
    rewrite (to_double_comp _ S) by (rewrite Qred_correct; exact F).
    rewrite <- D. rewrite (to_double_comp q _ (Qeq_sym _ _ Ea)).
    apply (to_double_signed false); [exact Pa|exact PS|].
    eapply Qeq_trans; [|symmetry; exact R]. apply shortest_spec, R.
Qed.

Lemma roundToDecimalPlaces_whole_witness :
  roundToDecimalPlaces (Fin 14576) (Fin 2) = Some (Fin 14576).
Proof.
  apply (roundToDecimalPlaces_whole 14576 14576 2);
    [vm_compute; reflexivity|reflexivity|lia|lia].
Defined.

(** ** [getNumericValue] on the decimal digits of a natural number *)

(** What follows a digit is read the same way by [parseFloat]: no white
    space is skipped, no sign is read and the text is not [Infinity]. *)
Lemma digit_first (c : ascii) (r : string) : is_digit c = true ->
  trim_start (String c r) = String c r /\
  read_sign (String c r) = (false, String c r) /\
  String.prefix "Infinity" (String c r) = false.
Proof.
  intros D.
  destruct c as [[] [] [] [] [] [] [] []]; try discriminate D; repeat split.
Qed.

Lemma read_digits_acc (d : Decimal.uint) (acc : positive) (count : Z) :
  exists k, 0 <= k /\
    read_digits (DecimalString.NilEmpty.string_of_uint d) (Z.pos acc) count =
    (Z.pos (Pos.of_uint_acc d acc), count + k, EmptyString).
Proof.
  revert acc count.
  induction d as [|d IH|d IH|d IH|d IH|d IH|d IH|d IH|d IH|d IH|d IH]; intros acc count;
    cbn [DecimalString.NilEmpty.string_of_uint Pos.of_uint_acc read_digits];
    try (exists 0; split; [lia|]; f_equal; f_equal; lia).
  all: match goal with
       | IH : forall _ _, _ |- context [Pos.of_uint_acc _ ?a] =>
           destruct (IH a (count + 1)) as (k & K & E)
       end;
    exists (1 + k); split; [lia|];
    match goal with
    | |- (if is_digit ?c then _ else _) = _ =>
        change (is_digit c) with true; cbv iota;
        let v := eval vm_compute in (digit_value c) in change (digit_value c) with v;
        rewrite (Z.add_assoc count 1 k), <- E; f_equal; lia
    end.
Qed.

Lemma read_digits_uint (d : Decimal.uint) (count : Z) :
  exists k, 0 <= k /\ (d <> Decimal.Nil -> 0 < k) /\
    read_digits (DecimalString.NilEmpty.string_of_uint d) 0 count =
    (Z.of_N (Pos.of_uint d), count + k, EmptyString).
Proof.
  revert count.
  induction d as [|d IH|d IH|d IH|d IH|d IH|d IH|d IH|d IH|d IH|d IH]; intros count;
    cbn [DecimalString.NilEmpty.string_of_uint Pos.of_uint read_digits].
  - exists 0. repeat split; [lia|congruence|f_equal; f_equal; lia].
  - destruct (IH (count + 1)) as (k & K & _ & E).
    exists (1 + k). split; [lia|]. split; [lia|].
    change (is_digit "0") with true. cbv iota.
    rewrite (Z.add_assoc count 1 k), <- E. reflexivity.
  - destruct (read_digits_acc d 1 (count + 1)) as (k & K & E).
    exists (1 + k). rewrite (Z.add_assoc count 1 k). repeat split; try lia. exact E.
  - destruct (read_digits_acc d 2 (count + 1)) as (k & K & E).
    exists (1 + k). rewrite (Z.add_assoc count 1 k). repeat split; try lia. exact E.
  - destruct (read_digits_acc d 3 (count + 1)) as (k & K & E).
    exists (1 + k). rewrite (Z.add_assoc count 1 k). repeat split; try lia. exact E.
  - destruct (read_digits_acc d 4 (count + 1)) as (k & K & E).
    exists (1 + k). rewrite (Z.add_assoc count 1 k). repeat split; try lia. exact E.
  - destruct (read_digits_acc d 5 (count + 1)) as (k & K & E).
    exists (1 + k). rewrite (Z.add_assoc count 1 k). repeat split; try lia. exact E.
  - destruct (read_digits_acc d 6 (count + 1)) as (k & K & E).
    exists (1 + k). rewrite (Z.add_assoc count 1 k). repeat split; try lia. exact E.
  - destruct (read_digits_acc d 7 (count + 1)) as (k & K & E).
    exists (1 + k). rewrite (Z.add_assoc count 1 k). repeat split; try lia. exact E.
  - destruct (read_digits_acc d 8 (count + 1)) as (k & K & E).
    exists (1 + k). rewrite (Z.add_assoc count 1 k). repeat split; try lia. exact E.
  - destruct (read_digits_acc d 9 (count + 1)) as (k & K & E).
    exists (1 + k). rewrite (Z.add_assoc count 1 k). repeat split; try lia. exact E.
Qed.

Lemma string_of_uint_digit (d : Decimal.uint) : d <> Decimal.Nil ->
  exists c r, DecimalString.NilEmpty.string_of_uint d = String c r /\ is_digit c = true.
Proof.
  destruct d; [congruence|..]; intros _; cbn [DecimalString.NilEmpty.string_of_uint];
    eexists; eexists; split; reflexivity.
Qed.

(** [parseFloat] reads a run of digits as the number they write. *)
Lemma parseFloat_uint (d : Decimal.uint) : d <> Decimal.Nil ->
  parseFloat (DecimalString.NilEmpty.string_of_uint d) = to_double (inject_Z (Z.of_N (Pos.of_uint d))).
Proof.
  intros N.
  destruct (string_of_uint_digit d N) as (c & r & E & D).
  destruct (digit_first c r D) as (T & S & I).
  destruct (read_digits_uint d 0) as (k & K & K' & R). specialize (K' N).
  unfold parseFloat. rewrite E, T, S, I, <- E, R.
  replace (0 + k + 0 =? 0) with false by (symmetry; apply Z.eqb_neq; lia).
  apply to_double_comp. cbn [with_sign read_exponent].
  replace (0 - 0) with 0 by lia. change (Qpow 10 0) with 1%Q. ring.
Qed.

Lemma to_double_not_NaN (q : Q) : to_double q <> NaN.
Proof.
  unfold to_double. destruct (Qeq_bool q 0); [discriminate|].
  destruct (Qle_bool _ _); discriminate.
Qed.

(** The whole numbers up to [Number.MAX_SAFE_INTEGER] are numbers. *)
Lemma to_double_whole (z : Z) : 0 <= z <= 9007199254740991 ->
  to_double (inject_Z z) = Fin (inject_Z z).
Proof.
  intros Hz. destruct (Z.eq_dec z 0) as [->|Nz]; [reflexivity|].
  assert (Pz : (0 < inject_Z z)%Q).
  { change 0%Q with (inject_Z 0). rewrite <- Zlt_Qlt. lia. }
  rewrite to_double_pos by exact Pz.
  assert (R : (round64 (inject_Z z) == inject_Z z)%Q).
  { unfold round64, round_to.
    destruct (Qlog_spec 2 (inject_Z z) ltac:(lia) Pz) as [A _].
    assert (L : Qlog 2 (inject_Z z) < 53).
    { apply (Qpow_lt_inv 2); [lia|]. rewrite (Qpow_Z 2 53) by lia.
      assert (inject_Z z < inject_Z (2 ^ 53))%Q by (rewrite <- Zlt_Qlt; lia). lra. }
    set (k := fexp64 (Qlog 2 (inject_Z z))).
    assert (K : k <= 0) by (unfold k, fexp64; lia).
    apply (round_at_fix half_even 2 ltac:(lia) k (z * 2 ^ (- k))).
    rewrite inject_Z_mult, <- (Qpow_Z 2 (- k)), <- Qmult_assoc, <- Qpow_add by lia.
    replace (- k + k) with 0 by lia. change (Qpow 2 0) with 1%Q. ring. }
  assert (O : Qle_bool (Qpow 2 1024) (round64 (inject_Z z)) = false).
  { apply Qle_bool_false. rewrite R.
    assert (inject_Z z < inject_Z (2 ^ 53))%Q by (rewrite <- Zlt_Qlt; lia).
    pose proof (Qpow_lt 2 53 1024 ltac:(lia) ltac:(lia)).
    rewrite (Qpow_Z 2 53) in * by lia. lra. }
  rewrite O. f_equal. rewrite (Qred_complete _ _ R). apply Qred_inject_Z.
Qed.

(** X22.  [getNumericValue] reads the decimal digits of a natural number [n]
    as the number nearest to [n], and as [n] itself when [n] is at most
    [Number.MAX_SAFE_INTEGER]. *)
Theorem getNumericValue_natural (n : N) :
  getNumericValue (DecimalString.NilEmpty.string_of_uint (N.to_uint n)) =
    to_double (inject_Z (Z.of_N n)) /\
  (Z.of_N n <= 9007199254740991 ->
   getNumericValue (DecimalString.NilEmpty.string_of_uint (N.to_uint n)) = Fin (inject_Z (Z.of_N n))).
Proof.
  assert (E : getNumericValue (DecimalString.NilEmpty.string_of_uint (N.to_uint n)) =
              to_double (inject_Z (Z.of_N n))).
  { rewrite getNumericValue_spec, parseFloat_uint.
    - rewrite DecimalN.Unsigned.of_to.
      pose proof (to_double_not_NaN (inject_Z (Z.of_N n))) as X.
      destruct (to_double (inject_Z (Z.of_N n))); [congruence|reflexivity|reflexivity].
    - destruct n as [|p]; [discriminate|].
      intros X. pose proof (DecimalPos.Unsigned.of_to p) as Y.
      cbn [N.to_uint] in X. rewrite X in Y. discriminate. }
  split; [exact E|].
  intros H. rewrite E. apply to_double_whole. lia.
Qed.

Lemma getNumericValue_natural_witness :
  getNumericValue "1800000" = Fin 1800000.
Proof.
  apply (proj2 (getNumericValue_natural 1800000)). vm_compute. discriminate.
Defined.

(** ** The income tax in the result *)

Lemma incomeTax_eq (pow_other : Decimal -> number -> Decimal)
  (formData : FormDataStrings.t) (scenario : Scenario) (isAfterGrace : bool) :
  let r := performCalculations pow_other formData scenario isAfterGrace in
  Calculations.incomeTax r =
  calculateIncomeTax
    (toNumber (Decimal_mul (Decimal_plus (of_number (Calculations.totalIncome r))
                                         (of_number (Calculations.totalProjectIncome r)))
                           (of_number (lit 12)))).
Proof. reflexivity. Qed.

(** X23.  During the grace period, when the total income of the result is
    between 0 and 60000 a month, the income tax of the result is 0: the
    project income does not count and the annual income stays within the
    bracket taxed at 0 percent. *)
Theorem incomeTax_during_grace (pow_other : Decimal -> number -> Decimal)
  (formData : FormDataStrings.t) (scenario : Scenario) :
  let r := performCalculations pow_other formData scenario false in
  number_le (lit 0) (Calculations.totalIncome r) = true ->
  number_le (Calculations.totalIncome r) (lit 60000) = true ->
  Calculations.incomeTax r = lit 0.
Proof.
  intros r H0 H1. unfold r. rewrite incomeTax_eq. cbv zeta. fold r.
  change (Calculations.totalProjectIncome r) with (lit 0).
  assert (D : is_double (Calculations.totalIncome r) = true).
  { unfold r. rewrite totalIncome_eq. apply toNumber_is_double. }
  set (t := Calculations.totalIncome r) in *. clearbody t. clear r.
  replace (lit 60000) with (Fin 60000) in H1 by (vm_compute; reflexivity).
  change (lit 0) with (Fin 0) in H0.
  destruct (of_number_le t (Fin 60000) D ltac:(vm_compute; reflexivity) H0 H1) as [N L].
  replace (of_number (Fin 60000)) with (DFin 60000) in L by (vm_compute; reflexivity).
  destruct (Dle_Fin_inv _ _ N L) as (T & -> & T0 & T1).
  replace (of_number (lit 0)) with (DFin 0) by (vm_compute; reflexivity).
  replace (of_number (lit 12)) with (DFin 12) by (vm_compute; reflexivity).
  cbn [Decimal_plus].
  pose proof (finalise_nonneg (T + 0) ltac:(lra)) as N1.
  pose proof (finalise_mono (T + 0) 60000 ltac:(lra) ltac:(lra)) as L1.
  replace (finalise 60000) with (DFin 60000) in L1 by (vm_compute; reflexivity).
  destruct (Dle_Fin_inv _ _ N1 L1) as (s & -> & S0 & S1).
  cbn [Decimal_mul].
  pose proof (finalise_nonneg (s * 12) ltac:(lra)) as N2.
  pose proof (finalise_mono (s * 12) 720000 ltac:(lra) ltac:(lra)) as L2.
  replace (finalise 720000) with (DFin 720000) in L2 by (vm_compute; reflexivity).
  pose proof (toNumber_mono _ _ N2 L2) as M.
  replace (toNumber (DFin 720000)) with (lit 720000) in M by (vm_compute; reflexivity).
  apply calculateIncomeTax_first_bracket; [apply toNumber_is_double|exact M].
Qed.

Lemma incomeTax_during_grace_witness :
  let formData :=
    {| FormDataStrings.salary := "50000"; FormDataStrings.rent := "5000";
       FormDataStrings.other := ""; FormDataStrings.projectIncome := "30000";
       FormDataStrings.existingLoans := ""; FormDataStrings.totalProjectCost := "1800000";
       FormDataStrings.equityPercentage := "10"; FormDataStrings.rate := "9.0";
       FormDataStrings.repaymentPeriod := "240"; FormDataStrings.gracePeriod := "12" |} in
  Calculations.incomeTax (performCalculations pow_other_nan formData normal false) = lit 0.
Proof.
  intros formData.
  apply (incomeTax_during_grace pow_other_nan formData normal); vm_compute; reflexivity.
Defined.

(** ** Stored entries that are no objects *)

Lemma trim_unknown (now : string) :
  Nat.ltb 0 (String.length (trim ("unknown-" ++ now))) = true.
Proof.
  unfold trim. cbn [String.append trim_start].
  change (is_space "u") with false. cbv iota.
  destruct (trim_end_head "u" ("nknown-" ++ now) eq_refl) as (r & E).
  cbn [String.append] in E. rewrite E. reflexivity.
Qed.

Lemma migrateLoanType_primitive (timestamp : string) (loan : value) :
  String.eqb (typeof loan) "object" = false ->
  migrateLoanType timestamp loan =
    Some (VObject [ ("id", VString ("unknown-" ++ timestamp));
                    ("name", VString "Unknown Loan");
                    ("interestRate", VNumber (lit 10)); ("tenure", VNumber (lit 60)) ]%string)
  /\ isValidLoanType
       (VObject [ ("id", VString ("unknown-" ++ timestamp));
                  ("name", VString "Unknown Loan");
                  ("interestRate", VNumber (lit 10)); ("tenure", VNumber (lit 60)) ]%string)
     = true.
Proof.
  intros T. split.
  - unfold migrateLoanType. rewrite T.
    replace (isValidLoanType loan) with false; [reflexivity|].
    unfold isValidLoanType. rewrite T. reflexivity.
  - unfold isValidLoanType.
    cbn [typeof field get lookup String.eqb Ascii.eqb Bool.eqb as_string as_number
         andb negb].
    rewrite trim_unknown. vm_compute. reflexivity.
Qed.

(** X24.  When the stored array is not empty and none of its entries is an
    object (numbers, strings, booleans), [loadLoanTypes] returns as many
    loan types named [Unknown Loan], at 10 percent over 60 months, the entry
    of index [i] with the id [unknown-] followed by [Date.now()] at its
    migration. *)
Theorem loadLoanTypes_primitives
  (now : nat -> string) (JSON_parse : string -> option value)
  (text : string) (parsed : list value) :
  string_falsy text = false ->
  JSON_parse text = Some (VArray parsed) ->
  parsed <> [] ->
  forallb (fun loan => negb (String.eqb (typeof loan) "object")) parsed = true ->
  loadLoanTypes now JSON_parse true (GetItem text) =
  map (fun i =>
         VObject [ ("id", VString ("unknown-" ++ now i)); ("name", VString "Unknown Loan");
                   ("interestRate", VNumber (lit 10)); ("tenure", VNumber (lit 60)) ]%string)
      (seq 0 (List.length parsed)).
Proof.
  intros T P N A.
  set (fallback := fun i =>
         VObject [ ("id", VString ("unknown-" ++ now i)); ("name", VString "Unknown Loan");
                   ("interestRate", VNumber (lit 10)); ("tenure", VNumber (lit 60)) ]%string).
  assert (M : forall index,
            migrateAll now index parsed =
              Some (map fallback (seq index (List.length parsed))) /\
            forallb isValidLoanType (map fallback (seq index (List.length parsed))) = true).
  { clear N P. induction parsed as [|loan rest IH]; intros index; [split; reflexivity|].
    cbn [forallb] in A. apply andb_true_iff in A. destruct A as [A1 A2].
    apply negb_true_iff in A1.
    destruct (migrateLoanType_primitive (now index) loan A1) as [E V].
    destruct (IH A2 (S index)) as [E' V'].
    change (isValidLoanType (fallback index) = true) in V.
    split.
    - cbn [migrateAll List.length seq map]. rewrite E, E'. reflexivity.
    - cbn [List.length seq map forallb]. rewrite V, V'. reflexivity. }
  destruct (M 0%nat) as [M0 V].
  unfold loadLoanTypes. cbn [negb]. rewrite T, P. cbn [negb]. rewrite M0.
  assert (L : Nat.ltb 0 (List.length parsed) = true)
    by (destruct parsed; [congruence|reflexivity]).
  rewrite L. cbn [isValidLoanTypesArray]. rewrite length_map, length_seq, L, V. reflexivity.
Qed.

Lemma loadLoanTypes_primitives_witness :
  loadLoanTypes (fun i => match i with O => "5" | _ => "7" end%string)
    (fun _ => Some (VArray [VNumber (lit 1); VString "x"])) true (GetItem "[1,2]") =
  [ VObject [ ("id", VString "unknown-5"); ("name", VString "Unknown Loan");
              ("interestRate", VNumber (lit 10)); ("tenure", VNumber (lit 60)) ];
    VObject [ ("id", VString "unknown-7"); ("name", VString "Unknown Loan");
              ("interestRate", VNumber (lit 10)); ("tenure", VNumber (lit 60)) ] ]%string.
Proof.
  refine (loadLoanTypes_primitives
            (fun i => match i with O => "5" | _ => "7" end%string)
            (fun _ => Some (VArray [VNumber (lit 1); VString "x"]))
            "[1,2]" [VNumber (lit 1); VString "x"] eq_refl eq_refl _ eq_refl).
  discriminate.
Defined.
